(** * court_vision: the tracking and shot-event inference core

    A shallow embedding of [backend/app/services/analysis.py]
    ([AnalysisService]) and of the tracker of
    [backend/app/services/detection.py] ([DetectionService.track_objects]),
    followed by the properties the specification states about them. Around
    this core, the rest of [DetectionService] (reading the video, the
    detector's boxes, the demo detections), the insights that
    [backend/app/services/insights.py] computes without the API and the
    processing job of [backend/app/main.py] are embedded as well, with
    further properties of the code; OpenCV, the YOLO model, numpy's sine and
    cosine and the API are parameters there.

    Conventions of the embedding.
    - Python [int] is [Z]; list positions and lengths are [nat].
    - Python [float] is modelled by exact rationals [Q]: the properties below
      are about the control structure of the heuristics (thresholds, first
      match, arg-min, counting), none is about binary64 rounding.
    - Python [str] is [string]; a [dict] whose iteration order matters is an
      association list in insertion order.
    - Exceptions are the [Raise] results of the [result] monad; the hidden
      numpy generator is an explicit [rng] value threaded through the calls.
    - [await asyncio.sleep(0)] only yields to the scheduler and is dropped;
      in [process_video] the suspensions are kept, as the points where a
      status request can see the job. *)

From Stdlib Require Import ZArith QArith Qabs Qround Lia Lqa.
From Stdlib Require Import List String Ascii Bool Permutation Sorted.
From Stdlib Require Import Reals Qreals.
Import ListNotations.

Set Implicit Arguments.

(* ================================================================= *)
(** ** Python primitives *)

Module Py.

(** The exceptions the modelled code could raise, and [OutOfFuel], the
    model's own marker for a [while] loop that was not given enough steps. *)
Inductive exn : Set :=
| ZeroDivisionError
| IndexError
| KeyError
| ValueError
| OutOfFuel.

Inductive result (A : Type) : Type :=
| Ok (a : A)
| Raise (e : exn).
Arguments Ok {A} a.
Arguments Raise {A} e.

Definition bind {A B} (m : result A) (k : A -> result B) : result B :=
  match m with
  | Ok a => k a
  | Raise e => Raise e
  end.


(** Comparisons of floats, as booleans. *)
Definition Qleb (a b : Q) : bool := Qle_bool a b.
Definition Qltb (a b : Q) : bool := negb (Qle_bool b a).
Definition Qgtb (a b : Q) : bool := Qltb b a.

(** [a / b]: true division raises on a zero divisor. *)
Definition truediv (a b : Q) : result Q :=
  if Qeq_bool b 0 then Raise ZeroDivisionError else Ok (a / b).

(** [xs[i]] for [i >= 0] and [xs[-1]]. *)
Definition index {A} (xs : list A) (i : nat) : result A :=
  match nth_error xs i with
  | Some a => Ok a
  | None => Raise IndexError
  end.

Definition index_last {A} (xs : list A) : result A :=
  index xs (List.length xs - 1).

(** [xs[i:j]] for [0 <= i <= j]. *)
Definition slice {A} (xs : list A) (i j : nat) : list A :=
  firstn (j - i) (skipn i xs).

(** [len(xs)] as a Python [int]. *)
Definition len {A} (xs : list A) : Z := Z.of_nat (List.length xs).

(** [range(n)]. *)
Definition range (n : Z) : list Z := map Z.of_nat (seq 0 (Z.to_nat n)).

(** [while cond: body], run for at most [fuel] iterations. *)
Fixpoint while {St} (fuel : nat) (cond : St -> bool)
         (body : St -> result St) (s : St) : result St :=
  if cond s then
    match fuel with
    | O => Raise OutOfFuel
    | S fuel' => bind (body s) (while fuel' cond body)
    end
  else Ok s.

(** [min(a, b)] and [max(a, b)] keep the first argument unless the second
    is strictly smaller (larger). *)
Definition min (a b : Q) : Q := if Qltb b a then b else a.
Definition max (a b : Q) : Q := if Qltb a b then b else a.

(** [round(x, ndigits)]: to the nearest multiple of [10 ** -ndigits], an
    exact tie going to the even neighbour. *)
Definition round_half_even (x : Q) : Z :=
  let f := Qfloor x in
  let r := x - inject_Z f in
  if Qltb r (1 # 2) then f
  else if Qltb (1 # 2) r then (f + 1)%Z
  else if Z.even f then f else (f + 1)%Z.

Definition round (x : Q) (ndigits : nat) : Q :=
  let scale := inject_Z (10 ^ Z.of_nat ndigits) in
  inject_Z (round_half_even (x * scale)) / scale.

(** [s.replace(old, new)] for one-character [old] and [new]. *)
Fixpoint replace (old new : ascii) (s : string) : string :=
  match s with
  | EmptyString => EmptyString
  | String c rest =>
      String (if Ascii.eqb c old then new else c) (replace old new rest)
  end.

(** [s.title()] on ASCII text: a letter that follows a letter is lowered,
    any other letter is raised, the rest is kept. *)
Definition is_upper (c : ascii) : bool :=
  (65 <=? nat_of_ascii c)%nat && (nat_of_ascii c <=? 90)%nat.
Definition is_lower (c : ascii) : bool :=
  (97 <=? nat_of_ascii c)%nat && (nat_of_ascii c <=? 122)%nat.
Definition to_upper (c : ascii) : ascii :=
  if is_lower c then ascii_of_nat (nat_of_ascii c - 32) else c.
Definition to_lower (c : ascii) : ascii :=
  if is_upper c then ascii_of_nat (nat_of_ascii c + 32) else c.

Fixpoint title_from (previous_is_cased : bool) (s : string) : string :=
  match s with
  | EmptyString => EmptyString
  | String c rest =>
      let cased := is_upper c || is_lower c in
      String (if previous_is_cased then to_lower c else to_upper c)
             (title_from cased rest)
  end.

Definition title (s : string) : string := title_from false s.

(** A [dict] in insertion order, for keys compared by [eqb]. *)
Section Dict.

Context {K V : Type} (eqb : K -> K -> bool).

(** [key in d]. *)
Fixpoint dict_in (d : list (K * V)) (key : K) : bool :=
  match d with
  | [] => false
  | (k, _) :: rest => eqb k key || dict_in rest key
  end.

(** [d[key]]. *)
Fixpoint dict_getitem (d : list (K * V)) (key : K) : result V :=
  match d with
  | [] => Raise KeyError
  | (k, v) :: rest => if eqb k key then Ok v else dict_getitem rest key
  end.

(** [d.get(key, default)]. *)
Fixpoint dict_get (d : list (K * V)) (key : K) (default : V) : V :=
  match d with
  | [] => default
  | (k, v) :: rest => if eqb k key then v else dict_get rest key default
  end.

(** [d[key] = v]: a present key keeps its place, a new one goes last. *)
Fixpoint dict_setitem (d : list (K * V)) (key : K) (v : V)
  : list (K * V) :=
  match d with
  | [] => [(key, v)]
  | (k, w) :: rest =>
      if eqb k key then (k, v) :: rest
      else (k, w) :: dict_setitem rest key v
  end.

End Dict.

(** [[f(x) for x in xs]] for an [f] that may raise. *)
Fixpoint map_result {A B} (f : A -> result B) (xs : list A)
  : result (list B) :=
  match xs with
  | [] => Ok []
  | x :: rest =>
      bind (f x) (fun y => bind (map_result f rest) (fun ys => Ok (y :: ys)))
  end.

(** [max(items, key=key, default=default)]: the first item whose key no
    later key exceeds. *)
Fixpoint max_loop {A} (key : A -> result Q) (best : A) (best_key : Q)
         (items : list A) : result A :=
  match items with
  | [] => Ok best
  | x :: rest =>
      bind (key x) (fun k =>
        if Qltb best_key k then max_loop key x k rest
        else max_loop key best best_key rest)
  end.

Definition max_by {A} (key : A -> result Q) (items : list A) (default : A)
  : result A :=
  match items with
  | [] => Ok default
  | x :: rest => bind (key x) (fun k => max_loop key x k rest)
  end.

(** [sorted(items, key=key, reverse=True)]: keys are computed once, the
    order is descending and items of equal key keep their order. *)
Fixpoint insert_desc {A} (x : Q * A) (l : list (Q * A)) : list (Q * A) :=
  match l with
  | [] => [x]
  | y :: rest =>
      if Qltb (fst x) (fst y) then y :: insert_desc x rest
      else x :: y :: rest
  end.

Definition sorted_reverse {A} (key : A -> result Q) (items : list A)
  : result (list A) :=
  bind (map_result (fun x => bind (key x) (fun k => Ok (k, x))) items)
       (fun keyed => Ok (map snd (fold_right insert_desc [] keyed))).

End Py.

Import Py.

Declare Scope py_scope.
Delimit Scope py_scope with py.
Notation "x <- m ;; k" := (bind m (fun x => k))
  (at level 61, m at next level, right associativity) : py_scope.
Notation "' p <- m ;; k" := (bind m (fun p => k))
  (at level 61, p pattern, m at next level, right associativity) : py_scope.
Infix "<=?" := Qleb (at level 70, no associativity) : py_scope.
Infix "<?" := Qltb (at level 70, no associativity) : py_scope.
Infix ">?" := Qgtb (at level 70, no associativity) : py_scope.

(* ================================================================= *)
(** ** Data model *)

(** The samples of [tracks["ball"]] and of a player's track: the dict
    [{"frame", "timestamp", "x", "y", "bbox"}]. *)
Record BBox : Set := mkBBox {
  x1 : Q; y1 : Q; x2 : Q; y2 : Q;
  center_x : Q; center_y : Q
}.

Record Sample : Set := mkSample {
  s_frame : Z;
  s_timestamp : Q;
  s_x : Q;
  s_y : Q;
  s_bbox : BBox
}.

(** [@dataclass ShotEvent]. *)
Record ShotEvent : Set := mkShotEvent {
  id : Z;
  frame_start : Z;
  frame_end : Z;
  release_x : Q;
  release_y : Q;
  outcome : string;
  zone : string;
  confidence : Q;
  timestamp : Q;
  trajectory : list (Q * Q)
}.

(* ================================================================= *)
(** ** AnalysisService: the zone classifier *)

Module Zones.

Local Open Scope string_scope.
Local Open Scope Q_scope.
Local Open Scope py_scope.

(** One entry of [self.zones]: [{"x_range": (a, b), "y_range": (c, d)}]. *)
Record Bounds : Set := mkBounds { x_range : Q * Q; y_range : Q * Q }.

(** [self.zones], in the order the dict literal declares its keys. *)
Definition zones : list (string * Bounds) :=
  [ ("paint",        mkBounds (0.35, 0.65) (0, 0.25));
    ("left-corner",  mkBounds (0, 0.25)    (0.6, 1.0));
    ("right-corner", mkBounds (0.75, 1.0)  (0.6, 1.0));
    ("left-wing",    mkBounds (0, 0.35)    (0.25, 0.6));
    ("right-wing",   mkBounds (0.65, 1.0)  (0.25, 0.6));
    ("top-key",      mkBounds (0.35, 0.65) (0.4, 0.7));
    ("mid-range",    mkBounds (0.25, 0.75) (0.25, 0.4)) ].

(** The test of the loop body:
    [x_range[0] <= nx <= x_range[1] and y_range[0] <= ny <= y_range[1]]. *)
Definition in_bounds (b : Bounds) (nx ny : Q) : bool :=
  (fst (x_range b) <=? nx) && (nx <=? snd (x_range b)) &&
  (fst (y_range b) <=? ny) && (ny <=? snd (y_range b)).

(** [for zone_name, bounds in self.zones.items(): ...; return "mid-range"]. *)
Fixpoint zone_loop (items : list (string * Bounds)) (nx ny : Q) : string :=
  match items with
  | [] => "mid-range"
  | (zone_name, bounds) :: rest =>
      if in_bounds bounds nx ny then zone_name else zone_loop rest nx ny
  end.

Definition _get_zone (x y : Q) : string :=
  let nx := x / 1920 in
  let ny := y / 1080 in
  zone_loop zones nx ny.

(** The rectangle of a zone, as a proposition. *)
Definition contains (b : Bounds) (nx ny : Q) : Prop :=
  fst (x_range b) <= nx /\ nx <= snd (x_range b) /\
  fst (y_range b) <= ny /\ ny <= snd (y_range b).

End Zones.

Import Zones.

(* ================================================================= *)
(** ** The random source *)

Module Rng.

Local Open Scope Q_scope.
Local Open Scope py_scope.

(** numpy's process-wide generator: the values its [random_sample()] is
    going to return, and how many of them were consumed so far. Seeding
    the generator fixes [draws] and resets [used]. *)
Record rng : Type := mkRng { draws : nat -> Q; used : nat }.

(** Every draw lies in the half-open unit interval. *)
Definition well_formed (g : rng) : Prop :=
  forall n, 0 <= draws g n /\ draws g n < 1.

(** [np.random.random()]. *)
Definition random (g : rng) : Q * rng :=
  (draws g (used g), mkRng (draws g) (S (used g))).

(** [np.random.uniform(low, high)]. *)
Definition uniform (low high : Q) (g : rng) : Q * rng :=
  let (r, g') := random g in (low + (high - low) * r, g').

(** [p.cumsum()]. *)
Fixpoint cumsum_from (acc : Q) (p : list Q) : list Q :=
  match p with
  | [] => []
  | w :: rest => (acc + w) :: cumsum_from (acc + w) rest
  end.

(** [cdf.searchsorted(r, side="right")] on a sorted [cdf]. *)
Definition searchsorted_right (cdf : list Q) (r : Q) : nat :=
  List.length (filter (fun c => c <=? r) cdf).

(** [np.random.choice(a, p=p)]: one draw, looked up in the cumulative
    distribution of [p]. *)
Definition choice {A} (a : list A) (p : list Q) (g : rng)
  : result (A * rng) :=
  let cdf := cumsum_from 0 p in
  let (r, g') := random g in
  x <- index a (searchsorted_right cdf r) ;;
  Ok (x, g').

End Rng.

Import Rng.

(* ================================================================= *)
(** ** AnalysisService: the shot detector *)

Module Detector.

Local Open Scope string_scope.
Local Open Scope Q_scope.
Local Open Scope py_scope.

(** [all(y_values[i] > y_values[i + 1] for i in idxs)]. *)
Fixpoint all_decreasing (y_values : list Q) (idxs : list Z) : result bool :=
  match idxs with
  | [] => Ok true
  | i :: rest =>
      a <- index y_values (Z.to_nat i) ;;
      b <- index y_values (Z.to_nat (i + 1)) ;;
      if a >? b then all_decreasing y_values rest else Ok false
  end.

(** [np.argmin(ys)]: the first position of the least value. *)
Fixpoint argmin_from (best_idx : nat) (best : Q) (i : nat) (ys : list Q)
  : nat :=
  match ys with
  | [] => best_idx
  | y :: rest =>
      if y <? best then argmin_from i y (S i) rest
      else argmin_from best_idx best (S i) rest
  end.

Definition argmin (ys : list Q) : result nat :=
  match ys with
  | [] => Raise ValueError
  | y :: rest => Ok (argmin_from 0 y 1 rest)
  end.

Definition _analyze_trajectory (window : list Sample) (g : rng)
  : result ((bool * string) * rng) :=
  if (len window <? 5)%Z then Ok ((false, "unknown"), g) else
  (* Check for upward motion at start *)
  let y_values := map s_y (slice window 0 5) in
  upward_motion <-
    all_decreasing y_values (range (Z.min 3 (len y_values - 1))) ;;
  if negb upward_motion then Ok ((false, "unknown"), g) else
  (* Check if trajectory is toward hoop *)
  first <- index window 0 ;;
  last <- index_last window ;;
  let start_x := s_x first / 1920 in
  let end_x := s_x last / 1920 in
  let moves_toward_hoop :=
    (Qabs (end_x - 0.5) <? Qabs (start_x - 0.5))
    || (Qabs (end_x - 0.5) <? 0.2) in
  if negb moves_toward_hoop then Ok ((false, "unknown"), g) else
  (* Determine outcome based on final position *)
  let final_y := s_y last / 1080 in
  let miss_or_coin_flip :=
    if (final_y >? 0.2) || (Qabs (end_x - 0.5) >? 0.15)
    then Ok ((true, "miss"), g)
    else let (r, g') := random g in
         Ok ((true, if r >? 0.45 then "make" else "miss"), g') in
  if (final_y <? 0.15) && (Qabs (end_x - 0.5) <? 0.1) then
    peak_idx <- argmin (map s_y window) ;;
    if (Z.of_nat peak_idx <? len window - 2)%Z
    then Ok ((true, "make"), g)
    else miss_or_coin_flip
  else miss_or_coin_flip.

Definition _calculate_shot_confidence (window : list Sample)
           (outcome : string) : result Q :=
  let base_confidence := 0.7 in
  let point_bonus := Py.min (inject_Z (len window) / 15) 0.15 in
  last <- index_last window ;;
  let final_x := s_x last / 1920 in
  let distance_to_hoop := Qabs (final_x - 0.5) in
  let proximity_bonus := Py.max 0 (0.15 - distance_to_hoop) in
  Ok (Py.min (base_confidence + point_bonus + proximity_bonus) 0.98).

(** *** The synthetic demo set *)

Definition mock_zones : list string :=
  ["right-wing"; "left-wing"; "top-key"; "paint"; "left-corner";
   "right-corner"; "mid-range"].

Definition zone_weights : list Q := [0.2; 0.2; 0.15; 0.15; 0.1; 0.1; 0.1].

Definition make_probs : list (string * Q) :=
  [("paint", 0.55); ("right-wing", 0.45); ("left-wing", 0.42);
   ("top-key", 0.40); ("mid-range", 0.38); ("left-corner", 0.35);
   ("right-corner", 0.35)].

(** [x, y = cx + uniform(-dx, dx), cy + uniform(-dy, dy)]. *)
Definition around (cx dx cy dy : Q) (g : rng) : (Q * Q) * rng :=
  let (u, g1) := uniform (- dx) dx g in
  let (v, g2) := uniform (- dy) dy g1 in
  ((cx + u, cy + v), g2).

(** One iteration of [for i in range(20)]. *)
Definition mock_shot (i : Z) (g : rng) : result (ShotEvent * rng) :=
  '(zone, g) <- choice mock_zones zone_weights g ;;
  (* Zone-based position *)
  let '((x, y), g) :=
    if (zone =? "right-wing")%string then around 75 10 40 15 g
    else if (zone =? "left-wing")%string then around 25 10 40 15 g
    else if (zone =? "top-key")%string then around 50 10 55 10 g
    else if (zone =? "paint")%string then around 50 15 20 10 g
    else if (zone =? "left-corner")%string then around 15 5 75 10 g
    else if (zone =? "right-corner")%string then around 85 5 75 10 g
    else around 50 20 35 10 g in
  (* Zone-based make probability *)
  let (r, g) := random g in
  let outcome := if r <? dict_get String.eqb make_probs zone 0.4 then "make" else "miss" in
  let (c, g) := uniform 0 0.1 g in
  Ok (mkShotEvent (i + 1) (i * 150) (i * 150 + 30) x y outcome zone
                  (0.85 + c) (inject_Z (i * 5)) [],
      g).

Fixpoint mock_loop (idxs : list Z) (shots : list ShotEvent) (g : rng)
  : result (list ShotEvent * rng) :=
  match idxs with
  | [] => Ok (shots, g)
  | i :: rest =>
      '(shot, g) <- mock_shot i g ;;
      mock_loop rest (shots ++ [shot]) g
  end.

Definition _generate_mock_shots (g : rng) : result (list ShotEvent * rng) :=
  mock_loop (range 20) [] g.

(** *** The sliding-window scan *)

(** The variables of the [while] loop of [_detect_shots]. *)
Record scan_state : Type := mkScan {
  i : nat;
  shot_id : Z;
  shots : list ShotEvent;
  gen : rng
}.

Definition scan_cond (ball_track : list Sample) (st : scan_state) : bool :=
  (Z.of_nat (i st) <? len ball_track - 5)%Z.

Definition scan_body (ball_track : list Sample) (st : scan_state)
  : result scan_state :=
  (* Extract trajectory window *)
  let window := slice ball_track (i st) (i st + 15) in
  if (len window >=? 5)%Z then
    '((is_shot, outcome), g) <- _analyze_trajectory window (gen st) ;;
    if is_shot : bool then
      first <- index window 0 ;;
      last <- index_last window ;;
      let zone := _get_zone (s_x first) (s_y first) in
      confidence <- _calculate_shot_confidence window outcome ;;
      let shot :=
        mkShotEvent (shot_id st) (s_frame first) (s_frame last)
                    (s_x first / 1920 * 100) (s_y first / 1080 * 100)
                    outcome zone confidence (s_timestamp first)
                    (map (fun p => (s_x p, s_y p)) window) in
      Ok (mkScan (i st + List.length window) (shot_id st + 1)
                 (shots st ++ [shot]) g)
    else Ok (mkScan (i st + 1) (shot_id st) (shots st) g)
  else Ok (mkScan (i st + 1) (shot_id st) (shots st) (gen st)).

(** The scan from [i = 0], [shot_id = 1]; [len(ball_track)] iterations
    are enough since every iteration advances [i]. *)
Definition scan (ball_track : list Sample) (g : rng) : result scan_state :=
  while (List.length ball_track) (scan_cond ball_track)
        (scan_body ball_track) (mkScan 0 1 [] g).

(** [ball_track] is [tracks.get("ball", [])]. *)
Definition _detect_shots (ball_track : list Sample) (g : rng)
  : result (list ShotEvent * rng) :=
  if (len ball_track <? 10)%Z then
    (* Not enough data, generate mock shots *)
    _generate_mock_shots g
  else
    st <- scan ball_track g ;;
    (* If no shots detected, generate mock data *)
    match shots st with
    | [] => _generate_mock_shots (gen st)
    | _ => Ok (shots st, gen st)
    end.

End Detector.

(* ================================================================= *)
(** ** AnalysisService: the statistics aggregator *)

(** The inner dict [{"makes": m, "attempts": a}] of the per-zone tallies. *)
Module Tally.
Record t : Set := mk { makes : Z; attempts : Z }.
End Tally.

(** The dict returned by [_calculate_statistics]. *)
Module Statistics.
Record t : Set := mk {
  totalShots : Z;
  makes : Z;
  misses : Z;
  fieldGoalPercentage : Q;
  threePointPercentage : Q;
  hotZone : string;
  avgReleaseTime : Q
}.
End Statistics.

(** One entry of the list returned by [_calculate_zone_stats]. *)
Module ZoneStat.
Record t : Set := mk {
  name : string;
  attempts : Z;
  makes : Z;
  percentage : Q
}.
End ZoneStat.

Module Aggregator.

Local Open Scope string_scope.
Local Open Scope Q_scope.
Local Open Scope py_scope.

Definition is_make (s : ShotEvent) : bool := (outcome s =? "make")%string.

(** [sum(1 for s in shots if s.outcome == "make")]. *)
Definition count_makes (shots : list ShotEvent) : Z :=
  fold_left (fun acc s => if is_make s then (acc + 1)%Z else acc) shots 0%Z.

Definition three_zones : list string :=
  ["left-corner"; "right-corner"; "left-wing"; "right-wing"; "top-key"].

Definition in_three_zones (s : ShotEvent) : bool :=
  existsb (String.eqb (zone s)) three_zones.

(** The body of [for shot in shots:] that fills [zone_stats]
    ([zone_data]): the zone's entry is created on first sight, then its
    counters are incremented in place. *)
Definition tally_shot (zone_stats : list (string * Tally.t))
           (shot : ShotEvent) : result (list (string * Tally.t)) :=
  let zone_stats :=
    if negb (dict_in String.eqb zone_stats (zone shot))
    then dict_setitem String.eqb zone_stats (zone shot) (Tally.mk 0 0)
    else zone_stats in
  e <- dict_getitem String.eqb zone_stats (zone shot) ;;
  let zone_stats :=
    dict_setitem String.eqb zone_stats (zone shot)
                 (Tally.mk (Tally.makes e) (Tally.attempts e + 1)) in
  if is_make shot then
    e <- dict_getitem String.eqb zone_stats (zone shot) ;;
    Ok (dict_setitem String.eqb zone_stats (zone shot)
                     (Tally.mk (Tally.makes e + 1) (Tally.attempts e)))
  else Ok zone_stats.

Fixpoint tally_loop (shots : list ShotEvent)
         (zone_stats : list (string * Tally.t))
  : result (list (string * Tally.t)) :=
  match shots with
  | [] => Ok zone_stats
  | shot :: rest =>
      zone_stats <- tally_shot zone_stats shot ;;
      tally_loop rest zone_stats
  end.

(** [x[1]["makes"] / x[1]["attempts"]]. *)
Definition make_rate (x : string * Tally.t) : result Q :=
  truediv (inject_Z (Tally.makes (snd x))) (inject_Z (Tally.attempts (snd x))).

(** [lambda x: x[1]["makes"] / x[1]["attempts"] if x[1]["attempts"] > 2 else 0]. *)
Definition hot_zone_key (x : string * Tally.t) : result Q :=
  if (Tally.attempts (snd x) >? 2)%Z then make_rate x else Ok 0.

(** [lambda x: x[1]["makes"] / x[1]["attempts"] if x[1]["attempts"] > 0 else 0]. *)
Definition zone_sort_key (x : string * Tally.t) : result Q :=
  if (Tally.attempts (snd x) >? 0)%Z then make_rate x else Ok 0.

(** [round(a / b * 100, 1) if b > 0 else 0]. *)
Definition percentage_of (a b : Z) : result Q :=
  if (b >? 0)%Z then
    q <- truediv (inject_Z a) (inject_Z b) ;;
    Ok (round (q * 100) 1)
  else Ok 0.

(** The zone [max(...)[0]] selects, before it is formatted. *)
Definition hot_zone (shots : list ShotEvent) : result string :=
  zone_stats <- tally_loop shots [] ;;
  best <- max_by hot_zone_key zone_stats ("mid-range", Tally.mk 0 1) ;;
  Ok (fst best).

Definition _calculate_statistics (shots : list ShotEvent) (g : rng)
  : result (Statistics.t * rng) :=
  let total := len shots in
  let makes := count_makes shots in
  let misses := (total - makes)%Z in
  (* Three-point shots *)
  let three_shots := filter in_three_zones shots in
  let three_makes := count_makes three_shots in
  three_pct <-
    match three_shots with
    | [] => Ok 0
    | _ => q <- truediv (inject_Z three_makes) (inject_Z (len three_shots)) ;;
           Ok (q * 100)
    end ;;
  (* Find hot zone *)
  hot_zone <- hot_zone shots ;;
  fg <- percentage_of makes total ;;
  let (u, g) := uniform 0 0.15 g in
  Ok (Statistics.mk total makes misses fg (round three_pct 1)
                    (title (replace "-" " " hot_zone))
                    (round (0.75 + u) 2),
      g).

(** The body of the loop over the sorted tallies. *)
Definition zone_stat_of (x : string * Tally.t) : result ZoneStat.t :=
  let (zone, data) := x in
  pct <- percentage_of (Tally.makes data) (Tally.attempts data) ;;
  Ok (ZoneStat.mk (title (replace "-" " " zone))
                  (Tally.attempts data) (Tally.makes data) pct).

Definition _calculate_zone_stats (shots : list ShotEvent)
  : result (list ZoneStat.t) :=
  zone_data <- tally_loop shots [] ;;
  ordered <- sorted_reverse zone_sort_key zone_data ;;
  map_result zone_stat_of ordered.

End Aggregator.

(* ================================================================= *)
(** ** DetectionService: the tracker *)

(** Distances, the values of [np.sqrt] and [float("inf")]. The square root
    of a rational is irrational in general, so a distance is kept by its
    radicand and compared through it; [Dist.to_R] (below) gives its value. *)
Module Dist.

Local Open Scope Q_scope.

Inductive t : Set :=
| Sqrt (radicand : Q)
| Inf.

(** [np.sqrt(q)]. *)
Definition sqrt (q : Q) : t := Sqrt q.

(** A non-negative literal such as [100]. *)
Definition of_Q (c : Q) : t := Sqrt (c * c).

(** [a < b]. *)
Definition ltb (a b : t) : bool :=
  match a, b with
  | Sqrt x, Sqrt y => Qltb x y
  | Sqrt _, Inf => true
  | Inf, _ => false
  end.

End Dist.

Module Tracker.

Local Open Scope string_scope.
Local Open Scope Q_scope.
Local Open Scope py_scope.

(** One detection: [{"class", "confidence", "bbox"}]. *)
Record Obj : Set := mkObj {
  class : string;
  obj_confidence : Q;
  bbox : BBox
}.

(** One frame: [{"frame", "timestamp", "objects"}]. *)
Record FrameData : Set := mkFrame {
  frame : Z;
  frame_timestamp : Q;
  objects : list Obj
}.

(** [tracks = {"players": {}, "ball": []}]. *)
Record Tracks : Set := mkTracks {
  players : list (Z * list Sample);
  ball : list Sample
}.

(** The local variables of [track_objects]. *)
Record state : Set := mkState {
  tracks : Tracks;
  player_id : Z;
  last_player_positions : list (Z * (Q * Q))
}.

Definition init : state := mkState (mkTracks [] []) 0 [].

(** [np.sqrt((pos[0] - last_pos[0])**2 + (pos[1] - last_pos[1])**2)]. *)
Definition distance (pos last_pos : Q * Q) : Dist.t :=
  Dist.sqrt ((fst pos - fst last_pos) ^ 2 + (snd pos - snd last_pos) ^ 2).

(** [for pid, last_pos in last_player_positions.items(): ...]. *)
Fixpoint match_loop (items : list (Z * (Q * Q))) (pos : Q * Q)
         (matched_id : option Z) (min_dist : Dist.t) : option Z * Dist.t :=
  match items with
  | [] => (matched_id, min_dist)
  | (pid, last_pos) :: rest =>
      let dist := distance pos last_pos in
      if Dist.ltb dist (Dist.of_Q 100) && Dist.ltb dist min_dist
      then match_loop rest pos (Some pid) dist
      else match_loop rest pos matched_id min_dist
  end.

(** Find closest existing track: [matched_id] after the loop. *)
Definition closest_track (st : state) (pos : Q * Q) : option Z :=
  fst (match_loop (last_player_positions st) pos None Dist.Inf).

Definition sample_of (frame_idx : Z) (timestamp : Q) (obj : Obj) : Sample :=
  mkSample frame_idx timestamp
           (center_x (bbox obj)) (center_y (bbox obj)) (bbox obj).

(** The body of [for obj in frame_data["objects"]:]. *)
Definition track_object (frame_idx : Z) (timestamp : Q) (st : state)
           (obj : Obj) : result state :=
  if (class obj =? "person")%string then
    let pos := (center_x (bbox obj), center_y (bbox obj)) in
    let '(matched_id, player_id, players) :=
      match closest_track st pos with
      | Some pid => (pid, player_id st, players (tracks st))
      | None =>
          (player_id st, (player_id st + 1)%Z,
           dict_setitem Z.eqb (players (tracks st)) (player_id st) [])
      end in
    track <- dict_getitem Z.eqb players matched_id ;;
    let players :=
      dict_setitem Z.eqb players matched_id
                   (track ++ [sample_of frame_idx timestamp obj])%list in
    Ok (mkState (mkTracks players (ball (tracks st))) player_id
                (dict_setitem Z.eqb (last_player_positions st) matched_id pos))
  else if (class obj =? "sports ball")%string then
    Ok (mkState
          (mkTracks (players (tracks st))
                    (ball (tracks st) ++ [sample_of frame_idx timestamp obj])%list)
          (player_id st) (last_player_positions st))
  else Ok st.

Fixpoint track_frame (frame_idx : Z) (timestamp : Q) (objs : list Obj)
         (st : state) : result state :=
  match objs with
  | [] => Ok st
  | obj :: rest =>
      st <- track_object frame_idx timestamp st obj ;;
      track_frame frame_idx timestamp rest st
  end.

(** [for frame_data in detections:]. *)
Fixpoint track_frames (detections : list FrameData) (st : state)
  : result state :=
  match detections with
  | [] => Ok st
  | frame_data :: rest =>
      st <- track_frame (frame frame_data) (frame_timestamp frame_data)
                        (objects frame_data) st ;;
      track_frames rest st
  end.

Definition track_objects (detections : list FrameData) : result Tracks :=
  st <- track_frames detections init ;;
  Ok (tracks st).

End Tracker.

(* ================================================================= *)
(** ** AnalysisService: the entry point *)

Module Analysis.

Local Open Scope string_scope.
Local Open Scope Q_scope.
Local Open Scope py_scope.

(** One entry of ["shots"]: the ShotEvent without its end frame and its
    trajectory. *)
Record Shot : Set := mkShot {
  shot_id : Z;
  shot_frame : Z;
  shot_x : Q;
  shot_y : Q;
  shot_outcome : string;
  shot_zone : string;
  shot_confidence : Q;
  shot_timestamp : Q
}.

(** One entry of ["formMetrics"]; its ["description"], a fixed text, is
    left out. *)
Record FormMetric : Set := mkFormMetric {
  metric_name : string;
  metric_score : string;
  metric_grade : string
}.

(** The dict returned by [analyze_shots]. *)
Record t : Set := mk {
  statistics : Statistics.t;
  shots : list Shot;
  zones : list ZoneStat.t;
  formMetrics : list FormMetric
}.

Definition _analyze_form (tracks : Tracker.Tracks) (shots : list ShotEvent)
  : list FormMetric :=
  [mkFormMetric "Elbow Alignment" "A" "high";
   mkFormMetric "Follow Through" "A-" "high";
   mkFormMetric "Shot Arc" "B+" "medium";
   mkFormMetric "Balance" "A" "high";
   mkFormMetric "Release Point" "B" "medium";
   mkFormMetric "Jump Timing" "C+" "low"].

(** Convert shots to output format. *)
Definition shot_of (shot : ShotEvent) : Shot :=
  mkShot (id shot) (frame_start shot) (release_x shot) (release_y shot)
         (outcome shot) (zone shot) (confidence shot) (timestamp shot).

(** [analyze_shots(tracks, detections)]; [tracks] comes from
    [track_objects], so that [tracks.get("ball", [])] is its ball track. *)
Definition analyze_shots (tracks : Tracker.Tracks)
           (detections : list Tracker.FrameData) (g : rng)
  : result (t * rng) :=
  (* Detect shots from ball trajectory *)
  '(shots, g) <- Detector._detect_shots (Tracker.ball tracks) g ;;
  (* Calculate statistics *)
  '(statistics, g) <- Aggregator._calculate_statistics shots g ;;
  (* Calculate zone stats *)
  zones <- Aggregator._calculate_zone_stats shots ;;
  (* Analyze form *)
  let form_metrics := _analyze_form tracks shots in
  let shot_list := map shot_of shots in
  Ok (mk statistics shot_list zones form_metrics, g).

End Analysis.

(* ================================================================= *)
(** ** DetectionService: reading the detector's boxes *)

Module Yolo.

Local Open Scope string_scope.
Local Open Scope Q_scope.

(** One box of a YOLO result: [box.cls[0]], [box.conf[0]] and the four
    numbers of [box.xyxy[0]]. *)
Record Box : Set := mkBox {
  cls : Z;
  conf : Q;
  xyxy : Q * Q * Q * Q
}.

(** [self.class_names]. *)
Definition class_names : list (Z * string) :=
  [(0%Z, "person"); (32%Z, "sports ball")].

(** The dict appended for a box that is kept. *)
Definition detection_of (box : Box) : Tracker.Obj :=
  let '(x1, y1, x2, y2) := xyxy box in
  Tracker.mkObj (dict_get Z.eqb class_names (cls box) "unknown") (conf box)
                (mkBBox x1 y1 x2 y2 ((x1 + x2) / 2) ((y1 + y2) / 2)).

(** [for box in boxes:], with its two [continue]s. *)
Fixpoint boxes_loop (boxes : list Box) (confidence_threshold : Q)
         (frame_detections : list Tracker.Obj) : list Tracker.Obj :=
  match boxes with
  | [] => frame_detections
  | box :: rest =>
      (* Only keep persons and sports balls *)
      if negb (existsb (Z.eqb (cls box)) [0%Z; 32%Z])
      then boxes_loop rest confidence_threshold frame_detections
      else if Qltb (conf box) confidence_threshold
      then boxes_loop rest confidence_threshold frame_detections
      else boxes_loop rest confidence_threshold
                      (frame_detections ++ [detection_of box])
  end.

(** [for result in results:]. *)
Fixpoint results_loop (results : list (list Box)) (confidence_threshold : Q)
         (frame_detections : list Tracker.Obj) : list Tracker.Obj :=
  match results with
  | [] => frame_detections
  | boxes :: rest =>
      results_loop rest confidence_threshold
                   (boxes_loop boxes confidence_threshold frame_detections)
  end.

Definition _parse_yolo_results (results : list (list Box)) (frame_idx : Z)
           (fps : Q) (confidence_threshold : Q) : list Tracker.Obj :=
  results_loop results confidence_threshold [].

End Yolo.

(* ================================================================= *)
(** ** DetectionService: the demo detections *)

Module MockDetections.

Section Numpy.

Local Open Scope string_scope.
Local Open Scope Q_scope.

(** [np.sin], [np.cos] and [np.pi]: whatever floats numpy returns. *)
Variables (np_sin np_cos : Q -> Q) (np_pi : Q).

Definition _mock_detections (frame_idx : Z) (fps : Q) (frame_shape : Q * Q)
  : list Tracker.Obj :=
  let '(h, w) := frame_shape in
  (* Simulate a player moving and shooting *)
  let t := inject_Z frame_idx / 30 in
  (* Player position (moving around court) *)
  let player_x := w * 0.3 + np_sin (t * 0.5) * w * 0.2 in
  let player_y := h * 0.5 + np_cos (t * 0.3) * h * 0.2 in
  let detections :=
    [Tracker.mkObj "person" 0.92
       (mkBBox (player_x - 40) (player_y - 100)
               (player_x + 40) (player_y + 100) player_x player_y)] in
  (* Ball detection (simulated shooting motion) *)
  if (frame_idx mod 150 <? 30)%Z then
    let shot_progress := inject_Z (frame_idx mod 150) / 30 in
    let ball_x := player_x + shot_progress * w * 0.2 in
    let ball_y := player_y - 100 - np_sin (shot_progress * np_pi) * 200 in
    (detections ++
     [Tracker.mkObj "sports ball" 0.85
        (mkBBox (ball_x - 15) (ball_y - 15) (ball_x + 15) (ball_y + 15)
                ball_x ball_y)])%list
  else detections.

Definition _generate_mock_detections : list Tracker.FrameData :=
  map (fun i => Tracker.mkFrame i (inject_Z i / 30)
                                (_mock_detections i 30 (1080, 1920)))
      (range 300).

End Numpy.

End MockDetections.

(* ================================================================= *)
(** ** DetectionService: reading the video *)

Module Detect.

(** The two settings that [detect_objects] reads, each possibly absent. *)
Record Settings : Set := mkSettings {
  frameProcessing : option string;
  ballTrackingConfidence : option Z
}.

Section Video.

Local Open Scope string_scope.
Local Open Scope Q_scope.
Local Open Scope py_scope.

(** A decoded frame, what [self.model(frame, verbose=False)] returns for
    it or raises, and its [frame.shape]. *)
Variable Frame : Type.
Variable model : Frame -> result (list (list Yolo.Box)).
Variable shape : Frame -> Q * Q.
Variables (np_sin np_cos : Q -> Q) (np_pi : Q).

(** [{"precise": 1, "balanced": 2, "fast": 5}.get(
       settings.get("frameProcessing", "balanced"), 2)]. *)
Definition frame_skip_of (settings : Settings) : Z :=
  dict_get String.eqb
           [("precise", 1%Z); ("balanced", 2%Z); ("fast", 5%Z)]
           (match frameProcessing settings with
            | Some v => v
            | None => "balanced"
            end)
           2%Z.

(** [settings.get("ballTrackingConfidence", 75) / 100]. *)
Definition confidence_threshold_of (settings : Settings) : Q :=
  inject_Z (match ballTrackingConfidence settings with
            | Some v => v
            | None => 75%Z
            end) / 100.

(** The detections of one processed frame: real detection when
    [self.model] is set, the demo detection when not. *)
Definition frame_detections_of (has_model : bool) (fps : Q)
           (confidence_threshold : Q) (frame_idx : Z) (frame : Frame)
  : result (list Tracker.Obj) :=
  if has_model then
    results <- model frame ;;
    Ok (Yolo._parse_yolo_results results frame_idx fps confidence_threshold)
  else
    Ok (MockDetections._mock_detections np_sin np_cos np_pi
                                        frame_idx fps (shape frame)).

(** [while cap.isOpened(): ...] over the frames that [cap.read()] goes on
    to return. *)
Fixpoint read_loop (has_model : bool) (fps : Q) (frame_skip : Z)
         (confidence_threshold : Q) (frames : list Frame) (frame_idx : Z)
         (detections : list Tracker.FrameData)
  : result (list Tracker.FrameData) :=
  match frames with
  | [] => Ok detections
  | frame :: rest =>
      detections <-
        (if (frame_idx mod frame_skip =? 0)%Z then
           frame_detections <-
             frame_detections_of has_model fps confidence_threshold
                                 frame_idx frame ;;
           Ok (detections ++
               [Tracker.mkFrame frame_idx
                  (if Qltb 0 fps then inject_Z frame_idx / fps else 0)
                  frame_detections])%list
         else Ok detections) ;;
      read_loop has_model fps frame_skip confidence_threshold rest
                (frame_idx + 1)%Z detections
  end.

(** [detect_objects(video_path, settings)]: [cv2_available] is
    [CV2_AVAILABLE], [has_model] tells whether [self.model] is set once
    loading was tried, and [video] is what opening the file gives: its
    frame rate and frames, or an exception. *)
Definition detect_objects (cv2_available has_model : bool)
           (video : result (Q * list Frame)) (settings : Settings)
  : list Tracker.FrameData :=
  let frame_skip := frame_skip_of settings in
  let confidence_threshold := confidence_threshold_of settings in
  (* Fall back to mock data if CV2 is not available *)
  if negb cv2_available then
    MockDetections._generate_mock_detections np_sin np_cos np_pi
  else
    match ('(fps, frames) <- video ;;
           read_loop has_model fps frame_skip confidence_threshold
                     frames 0%Z []) with
    | Ok detections => detections
    | Raise _ =>
        (* Return mock data if detection fails *)
        MockDetections._generate_mock_detections np_sin np_cos np_pi
    end.

End Video.

End Detect.

(* ================================================================= *)
(** ** InsightsService: the insights computed without the API *)

Module Insights.

Local Open Scope string_scope.
Local Open Scope Q_scope.
Local Open Scope py_scope.

(** A piece of an f-string: literal text, or an interpolated string,
    integer or float (how Python prints the float is not modelled). *)
Inductive piece : Set :=
| Lit (s : string)
| Str (s : string)
| Int (n : Z)
| Float (q : Q).

(** One insight; its ["icon"] is left out. *)
Record Insight : Set := mkInsight {
  type : string;
  title : string;
  text : list piece
}.

(** [min(items, key=key)] on a non-empty list: the first item whose key no
    other key is below. *)
Fixpoint min_loop {A} (key : A -> Q) (best : A) (items : list A) : A :=
  match items with
  | [] => best
  | x :: rest =>
      if Qltb (key x) (key best) then min_loop key x rest
      else min_loop key best rest
  end.

Definition zone_insights (zones : list ZoneStat.t) : result (list Insight) :=
  match zones with
  | [] => Ok []
  | z :: rest =>
      (* Find best and worst zones *)
      best_zone <- max_by (fun z => Ok (ZoneStat.percentage z)) zones z ;;
      let worst_zone := min_loop ZoneStat.percentage z rest in
      Ok [mkInsight "positive" "Hot Streak Detected"
            [Lit "Your "; Str (ZoneStat.name best_zone);
             Lit " shooting is exceptional at ";
             Float (ZoneStat.percentage best_zone);
             Lit "%. This zone shows consistent form and high confidence. Keep focusing on getting open looks here."];
          if Qltb (ZoneStat.percentage worst_zone) 50
          then mkInsight "negative" (ZoneStat.name worst_zone ++ " Struggles")
                 [Lit "Your "; Str (ZoneStat.name worst_zone);
                  Lit " percentage of ";
                  Float (ZoneStat.percentage worst_zone);
                  Lit "% needs work. Consider practicing catch-and-shoot drills from this angle and focusing on footwork."]
          else mkInsight "neutral" "Balanced Attack"
                 [Lit "Your shooting is relatively consistent across all zones. Focus on maintaining this balance while working to improve overall percentage."]]
  end.

Definition _generate_mock_insights (analysis : Analysis.t)
  : result (list Insight) :=
  let stats := Analysis.statistics analysis in
  let zones := Analysis.zones analysis in
  insights <- zone_insights zones ;;
  (* Volume insight *)
  let total_shots := Statistics.totalShots stats in
  let fg_pct := Statistics.fieldGoalPercentage stats in
  Ok (insights ++
      [mkInsight "neutral" "Volume Analysis"
         [Lit "You attempted "; Int total_shots; Lit " total shots with ";
          Float fg_pct;
          Lit "% accuracy. This volume indicates good offensive involvement while maintaining efficiency."];
       mkInsight "positive" "Consistent Release"
         [Lit "Your release mechanics show good consistency across attempts. Maintaining this rhythm will help improve accuracy over time, especially under defensive pressure."]])%list.

End Insights.

(* ================================================================= *)
(** ** The API: processing jobs *)

Module Jobs.

Local Open Scope string_scope.
Local Open Scope Z_scope.

Record ProcessingStep : Set := mkStep {
  step_name : string;
  step_status : string
}.

Record ProcessingStatus : Set := mkStatus {
  jobId : string;
  videoId : string;
  status : string;
  progress : Z;
  currentStep : string;
  steps : list ProcessingStep;
  estimatedTimeRemaining : option Z;
  error : option string
}.

(** [AnalysisResults]; [videoName] and [analyzedAt], the file name and the
    time of the call, are left out. *)
Record AnalysisResults : Set := mkResults {
  results_videoId : string;
  results_analysis : Analysis.t;
  results_insights : list Insights.Insight
}.

(** What [process_video] works on: the two module-level dicts, numpy's
    generator, and the states of the job that a status request can be
    served while the task is suspended. *)
Record state : Type := mkState {
  processing_jobs : list (string * ProcessingStatus);
  analysis_results : list (string * AnalysisResults);
  np_random : rng;
  observed : list ProcessingStatus
}.

(** A computation on this state that may raise; what it did until then
    stays done. *)
Definition M (X : Type) : Type := state -> state * result X.

Definition ret {X} (x : X) : M X := fun s => (s, Ok x).

Definition bindM {X Y} (m : M X) (k : X -> M Y) : M Y :=
  fun s =>
    match m s with
    | (s', Ok x) => k x s'
    | (s', Raise e) => (s', Raise e)
    end.

Definition lift {X} (r : result X) : M X := fun s => (s, r).

Declare Scope job_scope.
Notation "x <- m ;; k" := (bindM m (fun x => k))
  (at level 61, m at next level, right associativity) : job_scope.

(** The job as [start_processing] stores it. *)
Definition new_job (job_id video_id : string) : ProcessingStatus :=
  mkStatus job_id video_id "queued" 0 "Initializing"
           [mkStep "Video uploaded" "complete";
            mkStep "Extracting frames" "pending";
            mkStep "Detecting players & ball" "pending";
            mkStep "Tracking movement" "pending";
            mkStep "Analyzing shots" "pending";
            mkStep "Generating insights" "pending"]
           (Some 180) None.

(** The assignments to the attributes of a job. *)
Definition set_status (v : string) (job : ProcessingStatus)
  : result ProcessingStatus :=
  Ok (mkStatus (jobId job) (videoId job) v (progress job) (currentStep job)
               (steps job) (estimatedTimeRemaining job) (error job)).

Definition set_progress (v : Z) (job : ProcessingStatus)
  : result ProcessingStatus :=
  Ok (mkStatus (jobId job) (videoId job) (status job) v (currentStep job)
               (steps job) (estimatedTimeRemaining job) (error job)).

Definition set_currentStep (v : string) (job : ProcessingStatus)
  : result ProcessingStatus :=
  Ok (mkStatus (jobId job) (videoId job) (status job) (progress job) v
               (steps job) (estimatedTimeRemaining job) (error job)).

Definition set_estimatedTimeRemaining (v : Z) (job : ProcessingStatus)
  : result ProcessingStatus :=
  Ok (mkStatus (jobId job) (videoId job) (status job) (progress job)
               (currentStep job) (steps job) (Some v) (error job)).

Definition set_error (v : string) (job : ProcessingStatus)
  : result ProcessingStatus :=
  Ok (mkStatus (jobId job) (videoId job) (status job) (progress job)
               (currentStep job) (steps job) (estimatedTimeRemaining job)
               (Some v)).

(** [job.steps[i].status = v]. *)
Definition set_step (i : nat) (v : string) (job : ProcessingStatus)
  : result ProcessingStatus :=
  match nth_error (steps job) i with
  | None => Raise IndexError
  | Some step =>
      Ok (mkStatus (jobId job) (videoId job) (status job) (progress job)
                   (currentStep job)
                   (firstn i (steps job) ++ mkStep (step_name step) v ::
                    skipn (S i) (steps job))
                   (estimatedTimeRemaining job) (error job))
  end.

(** An assignment to the job: [job] is the object that
    [processing_jobs[job_id]] holds, so that the dict shows the change. *)
Definition assign (job_id : string)
           (f : ProcessingStatus -> result ProcessingStatus) : M unit :=
  fun s =>
    match bind (dict_getitem String.eqb (processing_jobs s) job_id) f with
    | Ok job =>
        (mkState (dict_setitem String.eqb (processing_jobs s) job_id job)
                 (analysis_results s) (np_random s) (observed s),
         Ok tt)
    | Raise e => (s, Raise e)
    end.

(** The task is suspended at an [await]: a status request served now sees
    the job as it is. *)
Definition suspend (job_id : string) : M unit :=
  fun s =>
    match dict_getitem String.eqb (processing_jobs s) job_id with
    | Ok job =>
        (mkState (processing_jobs s) (analysis_results s) (np_random s)
                 (observed s ++ [job]),
         Ok tt)
    | Raise e => (s, Raise e)
    end.

(** [await analysis_service.analyze_shots(tracks, detections)], which draws
    from numpy's generator. *)
Definition analyze (tracks : Tracker.Tracks)
           (detections : list Tracker.FrameData) : M Analysis.t :=
  fun s =>
    match Analysis.analyze_shots tracks detections (np_random s) with
    | Ok (analysis, g) =>
        (mkState (processing_jobs s) (analysis_results s) g (observed s),
         Ok analysis)
    | Raise e => (s, Raise e)
    end.

(** What the response schemas admit for the fields of type [Literal]. *)
Definition literal (allowed : list string) (v : string) : bool :=
  existsb (String.eqb v) allowed.

(** [AnalysisResults(...)]: the fields are validated, and a value that a
    [Literal] does not admit raises a ValidationError, a ValueError. *)
Definition validate (video_id : string) (analysis : Analysis.t)
           (insights : list Insights.Insight) : result AnalysisResults :=
  if forallb (fun s => literal ["make"; "miss"; "unknown"]
                               (Analysis.shot_outcome s))
             (Analysis.shots analysis) &&
     forallb (fun m => literal ["high"; "medium"; "low"]
                               (Analysis.metric_grade m))
             (Analysis.formMetrics analysis) &&
     forallb (fun i => literal ["positive"; "negative"; "neutral"]
                               (Insights.type i))
             insights
  then Ok (mkResults video_id analysis insights)
  else Raise ValueError.

(** [analysis_results[video_id] = results]. *)
Definition store_results (video_id : string) (results : AnalysisResults)
  : M unit :=
  fun s =>
    (mkState (processing_jobs s)
             (dict_setitem String.eqb (analysis_results s) video_id results)
             (np_random s) (observed s),
     Ok tt).

(** [job = processing_jobs[job_id]]. *)
Definition get_job (job_id : string) : M ProcessingStatus :=
  fun s => (s, dict_getitem String.eqb (processing_jobs s) job_id).

Section ProcessVideo.

(** The services that are not part of this development: the detection of
    a video file, the generation of the insights (through the API or
    not), and [str(e)]. *)
Variable detect_objects :
  string -> Detect.Settings -> result (list Tracker.FrameData).
Variable generate_insights : Analysis.t -> result (list Insights.Insight).
Variable str : exn -> string.

Local Open Scope job_scope.

(** The body of [try:]. *)
Definition process_video_body (job_id video_id video_path : string)
           (settings : Detect.Settings) : M unit :=
  _ <- get_job job_id ;;
  _ <- assign job_id (set_status "processing") ;;
  (* Step 1: Extract frames *)
  _ <- assign job_id (set_currentStep "Extracting frames") ;;
  _ <- assign job_id (set_step 1 "active") ;;
  _ <- assign job_id (set_progress 10) ;;
  _ <- suspend job_id ;;
  _ <- assign job_id (set_step 1 "complete") ;;
  (* Step 2: Detection *)
  _ <- assign job_id (set_currentStep "Detecting players & ball") ;;
  _ <- assign job_id (set_step 2 "active") ;;
  _ <- assign job_id (set_progress 25) ;;
  _ <- assign job_id (set_estimatedTimeRemaining 150) ;;
  _ <- suspend job_id ;;
  detections <- lift (detect_objects video_path settings) ;;
  _ <- assign job_id (set_step 2 "complete") ;;
  _ <- assign job_id (set_progress 45) ;;
  (* Step 3: Tracking *)
  _ <- assign job_id (set_currentStep "Tracking movement") ;;
  _ <- assign job_id (set_step 3 "active") ;;
  _ <- assign job_id (set_estimatedTimeRemaining 100) ;;
  _ <- suspend job_id ;;
  tracks <- lift (Tracker.track_objects detections) ;;
  _ <- assign job_id (set_step 3 "complete") ;;
  _ <- assign job_id (set_progress 60) ;;
  (* Step 4: Shot analysis *)
  _ <- assign job_id (set_currentStep "Analyzing shots") ;;
  _ <- assign job_id (set_step 4 "active") ;;
  _ <- assign job_id (set_estimatedTimeRemaining 60) ;;
  _ <- suspend job_id ;;
  analysis <- analyze tracks detections ;;
  _ <- assign job_id (set_step 4 "complete") ;;
  _ <- assign job_id (set_progress 80) ;;
  (* Step 5: Generate insights *)
  _ <- assign job_id (set_currentStep "Generating insights") ;;
  _ <- assign job_id (set_step 5 "active") ;;
  _ <- assign job_id (set_estimatedTimeRemaining 30) ;;
  _ <- suspend job_id ;;
  insights <- lift (generate_insights analysis) ;;
  _ <- assign job_id (set_step 5 "complete") ;;
  _ <- assign job_id (set_progress 100) ;;
  (* Store results *)
  results <- lift (validate video_id analysis insights) ;;
  _ <- store_results video_id results ;;
  _ <- assign job_id (set_status "completed") ;;
  assign job_id (set_estimatedTimeRemaining 0).

(** [process_video]: the body, and the handler of [except Exception as e],
    which marks the job and raises again. *)
Definition process_video (job_id video_id video_path : string)
           (settings : Detect.Settings) : M unit :=
  fun s =>
    match process_video_body job_id video_id video_path settings s with
    | (s', Ok _) => (s', Ok tt)
    | (s', Raise e) =>
        match (_ <- assign job_id (set_status "failed") ;;
               assign job_id (set_error (str e))) s' with
        | (s'', Ok _) => (s'', Raise e)
        | (s'', Raise e') => (s'', Raise e')
        end
    end.

End ProcessVideo.

(** [get_processing_status(job_id)] and [get_results(video_id)]: the stored
    value, or the status code of the HTTPException. *)
Definition get_processing_status (job_id : string) (s : state)
  : ProcessingStatus + Z :=
  if negb (dict_in String.eqb (processing_jobs s) job_id) then inr 404
  else match dict_getitem String.eqb (processing_jobs s) job_id with
       | Ok job => inl job
       | Raise _ => inr 500
       end.

Definition get_results (video_id : string) (s : state)
  : AnalysisResults + Z :=
  if negb (dict_in String.eqb (analysis_results s) video_id) then inr 404
  else match dict_getitem String.eqb (analysis_results s) video_id with
       | Ok results => inl results
       | Raise _ => inr 500
       end.

End Jobs.

(* ================================================================= *)
(** ** Vocabulary of the properties *)

Module Spec.

Local Open Scope string_scope.
Local Open Scope Q_scope.

(** The number of shots taken from zone [z], and of those that went in. *)
Definition attempts_in (z : string) (shots : list ShotEvent) : Z :=
  len (filter (fun s => (zone s =? z)%string) shots).

Definition makes_in (z : string) (shots : list ShotEvent) : Z :=
  len (filter (fun s => (zone s =? z)%string && Aggregator.is_make s) shots).

(** Insertion order of a dict that receives the keys [zs] one by one. *)
Definition add_key (ks : list string) (z : string) : list string :=
  if existsb (String.eqb z) ks then ks else (ks ++ [z])%list.

Definition seen_order (zs : list string) : list string :=
  fold_left add_key zs [].

(** The value a tally holds for a zone, all zero for an absent zone. *)
Definition lookup (d : list (string * Tally.t)) (z : string) : Tally.t :=
  dict_get String.eqb d z (Tally.mk 0 0).

(** The score [max] ranks a zone by: its make rate when it has more than two
    attempts, zero otherwise. *)
Definition score (x : string * Tally.t) : Q :=
  if (Tally.attempts (snd x) >? 2)%Z
  then inject_Z (Tally.makes (snd x)) / inject_Z (Tally.attempts (snd x))
  else 0.

(** [r] is the first element of [items] that maximizes [f]. *)
Definition first_max {A} (f : A -> Q) (items : list A) (r : A) : Prop :=
  exists pre post,
    items = (pre ++ r :: post)%list /\
    (forall x, In x pre -> f x < f r) /\
    (forall x, In x post -> f x <= f r).



(** What the analysis of a window decides before any random draw. *)
Inductive verdict : Set :=
| NotShot
| Decided (out : string)
| CoinFlip.

(** A generator that was never used. *)
Definition null_rng : rng := mkRng (fun _ => 0) 0.

(** The verdict on a window, read off a run of [_analyze_trajectory] on the
    unused generator: a run that consumed a draw went to the coin flip. *)
Definition verdict_of (w : list Sample) : verdict :=
  match Detector._analyze_trajectory w null_rng with
  | Ok ((false, _), _) => NotShot
  | Ok ((true, out), g') => if Nat.eqb (used g') 0 then Decided out else CoinFlip
  | Raise _ => NotShot
  end.

Definition is_shot (w : list Sample) : bool :=
  match verdict_of w with NotShot => false | _ => true end.

Definition flips_coin (w : list Sample) : bool :=
  match verdict_of w with CoinFlip => true | _ => false end.

(** The result of the analysis for a given verdict. *)
Definition apply_verdict (v : verdict) (g : rng) : (bool * string) * rng :=
  match v with
  | NotShot => ((false, "unknown"), g)
  | Decided out => ((true, out), g)
  | CoinFlip =>
      ((true, if Qgtb (fst (random g)) 0.45 then "make" else "miss"),
       snd (random g))
  end.

(** A scan state with its generator replaced. *)
Definition set_gen (st : Detector.scan_state) (g : rng) : Detector.scan_state :=
  Detector.mkScan (Detector.i st) (Detector.shot_id st) (Detector.shots st) g.

(** The window the scan examines at position [i]. *)
Definition window_at (ball_track : list Sample) (i : nat) : list Sample :=
  slice ball_track i (i + 15).

(** The positions the scan examines, starting from [i]: it moves past the
    whole window after a shot and by one sample otherwise. *)
Fixpoint anchors (fuel : nat) (ball_track : list Sample) (i : nat)
  : list nat :=
  if (Z.of_nat i <? len ball_track - 5)%Z then
    match fuel with
    | O => []
    | S fuel' =>
        i :: anchors fuel' ball_track
               (if is_shot (window_at ball_track i)
                then i + List.length (window_at ball_track i)
                else i + 1)
    end
  else [].

Definition visited (ball_track : list Sample) : list nat :=
  anchors (List.length ball_track) ball_track 0.

(** No window the scan examines reaches the ambiguous-outcome branch. *)
Definition no_coin_flip (ball_track : list Sample) : Prop :=
  Forall (fun i => flips_coin (window_at ball_track i) = false)
         (visited ball_track).

(** No window the scan examines qualifies as a shot attempt. *)
Definition no_qualifying_window (ball_track : list Sample) : Prop :=
  Forall (fun i => is_shot (window_at ball_track i) = false)
         (visited ball_track).

End Spec.

Module TrackerSpec.

Import Tracker.
Local Open Scope Q_scope.

(** The Euclidean distance, in pixels, between two positions. *)
Definition euclid (p q : Q * Q) : R :=
  sqrt ((Q2R (fst p) - Q2R (fst q)) * (Q2R (fst p) - Q2R (fst q)) +
        (Q2R (snd p) - Q2R (snd q)) * (Q2R (snd p) - Q2R (snd q)))%R.

(** The value of a distance that is not [float("inf")]. *)
Definition value (d : Dist.t) : R :=
  match d with
  | Dist.Sqrt q => sqrt (Q2R q)
  | Dist.Inf => 0%R
  end.

(** The radicand of [distance pos last_pos]. *)
Definition radicand (pos last_pos : Q * Q) : Q :=
  (fst pos - fst last_pos) ^ 2 + (snd pos - snd last_pos) ^ 2.

(** [pid] is, in [items], the first of the tracks closest to [pos] among
    those less than 100 pixels away. *)
Definition closest_first (items : list (Z * (Q * Q))) (pos : Q * Q) (pid : Z)
  : Prop :=
  exists pre last_pos post,
    items = (pre ++ (pid, last_pos) :: post)%list /\
    (euclid pos last_pos < 100)%R /\
    (forall e, In e pre -> (euclid pos (snd e) < 100)%R ->
               (euclid pos last_pos < euclid pos (snd e))%R) /\
    (forall e, In e post -> (euclid pos (snd e) < 100)%R ->
               (euclid pos last_pos <= euclid pos (snd e))%R).

(** The same on radicands, together with the running minimum [min_dist],
    for the variables [(matched_id, min_dist)] of the matching loop once it
    has gone through [seen]. *)
Definition best_so_far (pos : Q * Q) (seen : list (Z * (Q * Q)))
           (acc : option Z * Dist.t) : Prop :=
  match fst acc with
  | None =>
      snd acc = Dist.Inf /\
      forall e, In e seen -> ~ radicand pos (snd e) < 100 * 100
  | Some pid =>
      exists pre last_pos post,
        seen = (pre ++ (pid, last_pos) :: post)%list /\
        snd acc = Dist.Sqrt (radicand pos last_pos) /\
        radicand pos last_pos < 100 * 100 /\
        (forall e, In e pre -> radicand pos (snd e) < 100 * 100 ->
                   radicand pos last_pos < radicand pos (snd e)) /\
        (forall e, In e post -> radicand pos (snd e) < 100 * 100 ->
                   radicand pos last_pos <= radicand pos (snd e))
  end.

(** The track table after [n] allocations: both dicts hold the ids
    [0 .. n-1] in this order and the next id is [n]. *)
Definition consistent (st : state) : Prop :=
  exists n : nat,
    player_id st = Z.of_nat n /\
    map fst (players (tracks st)) = map Z.of_nat (seq 0 n) /\
    map fst (last_player_positions st) = map Z.of_nat (seq 0 n).



End TrackerSpec.

(* ================================================================= *)
(** ** Example data *)

Module Examples.

Local Open Scope Q_scope.

(** A generator whose every draw is one half. *)
Definition g_half : rng := mkRng (fun _ => 1 # 2) 0.

(** The ball seen at pixel [(x, y)] in frame [f] of a 30 fps video. *)
Definition ball_at (f : Z) (x y : Q) : Sample :=
  mkSample f (inject_Z f / 30) x y
           (mkBBox (x - 15) (y - 15) (x + 15) (y + 15) x y).

(** Eleven samples: the ball rises toward the hoop, peaks at frame 5 and
    comes down at the centre of the frame. *)
Definition rising_track : list Sample :=
  [ball_at 0 900 500; ball_at 1 910 400; ball_at 2 920 300;
   ball_at 3 930 200; ball_at 4 940 100; ball_at 5 950 60;
   ball_at 6 955 80; ball_at 7 960 108; ball_at 8 960 120;
   ball_at 9 960 130; ball_at 10 960 140].

(** Nine, then ten, samples of a ball that does not move. *)
Definition still_track (n : nat) : list Sample :=
  map (fun k => ball_at (Z.of_nat k) 960 540) (seq 0 n).

End Examples.

(* ================================================================= *)
(** ** Vocabulary of the further properties *)

Module Props.

Local Open Scope Q_scope.

(** [[(p["x"], p["y"]) for p in window]]. *)
Definition coords (w : list Sample) : list (Q * Q) :=
  map (fun p => (s_x p, s_y p)) w.

(** The sum of a list of integers. *)
Definition Zsum (l : list Z) : Z := fold_right Z.add 0%Z l.

(** The ShotEvent [s] describes the window of [ball_track] at position [p]:
    its trajectory is the window, its release point, zone, frames and
    timestamp are read off the window's first and last samples. *)
Definition built_from (ball_track : list Sample) (p : nat) (s : ShotEvent)
  : Prop :=
  exists first tail,
    Spec.window_at ball_track p = first :: tail /\
    trajectory s = coords (Spec.window_at ball_track p) /\
    frame_start s = s_frame first /\
    frame_end s = s_frame (List.last (Spec.window_at ball_track p) first) /\
    release_x s = s_x first / 1920 * 100 /\
    release_y s = s_y first / 1080 * 100 /\
    zone s = _get_zone (s_x first) (s_y first) /\
    timestamp s = s_timestamp first.

(** The distance of a window's last sample to the centre of the frame,
    as a fraction of the frame width. *)
Definition final_offset (first : Sample) (tail : list Sample) : Q :=
  Qabs (s_x (List.last (first :: tail) first) / 1920 - 0.5).

(** How a zone key is displayed: [zone.replace("-", " ").title()]. *)
Definition display (zone : string) : string :=
  title (replace "-" " " zone).

(** The make rate of a zone of the breakdown. *)
Definition rate (z : ZoneStat.t) : Q :=
  inject_Z (ZoneStat.makes z) / inject_Z (ZoneStat.attempts z).

(** The entry of the breakdown that the shots from zone [z] call for. *)
Definition zone_entry (shots : list ShotEvent) (z : string) : ZoneStat.t :=
  ZoneStat.mk (display z) (Spec.attempts_in z shots) (Spec.makes_in z shots)
              (round (inject_Z (Spec.makes_in z shots) /
                      inject_Z (Spec.attempts_in z shots) * 100) 1).

(** The detections of a video as one stream, in the order in which
    [track_objects] visits them: every object with the index and the
    timestamp of its frame. *)
Definition stream (detections : list Tracker.FrameData)
  : list (Z * Q * Tracker.Obj) :=
  flat_map (fun fd => map (fun o => (Tracker.frame fd,
                                     Tracker.frame_timestamp fd, o))
                          (Tracker.objects fd))
           detections.

Definition is_person (e : Z * Q * Tracker.Obj) : bool :=
  (Tracker.class (snd e) =? "person")%string.

Definition is_ball (e : Z * Q * Tracker.Obj) : bool :=
  (Tracker.class (snd e) =? "sports ball")%string.

(** The sample that a detection of the stream is recorded as. *)
Definition sample_at (e : Z * Q * Tracker.Obj) : Sample :=
  Tracker.sample_of (fst (fst e)) (snd (fst e)) (snd e).

(** The samples of the persons, and of the balls, of a stream. *)
Definition person_samples (seen : list (Z * Q * Tracker.Obj)) : list Sample :=
  map sample_at (filter is_person seen).

Definition ball_samples (seen : list (Z * Q * Tracker.Obj)) : list Sample :=
  map sample_at (filter is_ball seen).

(** [l1] is [l2] with some elements left out. *)
Inductive subseq {A : Type} : list A -> list A -> Prop :=
| subseq_nil : subseq [] []
| subseq_skip x l1 l2 : subseq l1 l2 -> subseq l1 (x :: l2)
| subseq_take x l1 l2 : subseq l1 l2 -> subseq (x :: l1) (x :: l2).

(** The position of the last sample of a track. *)
Definition last_position (track : list Sample) : Q * Q :=
  let l := List.last track (mkSample 0 0 0 0 (mkBBox 0 0 0 0 0 0)) in
  (s_x l, s_y l).

(** The table of last positions that belongs to a table of tracks. *)
Definition last_positions (players : list (Z * list Sample))
  : list (Z * (Q * Q)) :=
  map (fun e => (fst e, last_position (snd e))) players.

(** The state of [track_objects] once it has gone through the detections
    [seen]: the ball track holds the balls in order, the player tracks
    share out the persons, each in order and none empty, and the table of
    last positions is the one of the tracks. *)
Definition tracked (seen : list (Z * Q * Tracker.Obj)) (st : Tracker.state)
  : Prop :=
  TrackerSpec.consistent st /\
  Tracker.ball (Tracker.tracks st) = ball_samples seen /\
  Permutation (List.concat (map snd (Tracker.players (Tracker.tracks st))))
              (person_samples seen) /\
  Forall (fun e => snd e <> [] /\ subseq (snd e) (person_samples seen))
         (Tracker.players (Tracker.tracks st)) /\
  Tracker.last_player_positions st =
    last_positions (Tracker.players (Tracker.tracks st)).

(** A box that [_parse_yolo_results] keeps: a person or a sports ball, at
    a confidence that is not below the threshold. *)
Definition kept (confidence_threshold : Q) (box : Yolo.Box) : bool :=
  ((Yolo.cls box =? 0)%Z || (Yolo.cls box =? 32)%Z) &&
  Qle_bool confidence_threshold (Yolo.conf box).

(** The frames that [detect_objects] builds from the boxes of the frames it
    processes, each given with its index and timestamp. *)
Definition parsed_frames (fps confidence_threshold : Q)
           (frames : list (Z * Q * list (list Yolo.Box)))
  : list Tracker.FrameData :=
  map (fun f => Tracker.mkFrame (fst (fst f)) (snd (fst f))
                  (Yolo._parse_yolo_results (snd f) (fst (fst f)) fps
                                            confidence_threshold))
      frames.

(** [r] is the first of the items of least [f]. *)
Definition first_least {A} (f : A -> Q) (items : list A) (r : A) : Prop :=
  exists pre post,
    items = (pre ++ r :: post)%list /\
    (forall x, In x pre -> f r < f x) /\
    (forall x, In x post -> f r <= f x).

(** The values that the response schemas allow for [Shot.outcome],
    [FormMetric.grade] and [Insight.type]. *)
Definition outcome_literal : list string :=
  ["make"; "miss"; "unknown"]%string.
Definition grade_literal : list string :=
  ["high"; "medium"; "low"]%string.
Definition type_literal : list string :=
  ["positive"; "negative"; "neutral"]%string.

(** The report and the insights pass the [Literal] constraints of
    [AnalysisResults]. *)
Definition literals_valid (a : Analysis.t) (insights : list Insights.Insight)
  : Prop :=
  Forall (fun s => In (Analysis.shot_outcome s) outcome_literal)
         (Analysis.shots a) /\
  Forall (fun m => In (Analysis.metric_grade m) grade_literal)
         (Analysis.formMetrics a) /\
  Forall (fun i => In (Insights.type i) type_literal) insights.


(** The statuses of the six steps of a job. *)
Definition statuses (job : Jobs.ProcessingStatus) : list string :=
  map Jobs.step_status (Jobs.steps job).

(** The statuses while step [k] is under way: the steps before it are
    complete, the steps after it are pending. *)
Definition stage (k : nat) : list string :=
  (repeat "complete"%string k ++
   "active"%string :: repeat "pending"%string (5 - k))%list.

(** The progress shown while step [k] is under way. *)
Definition progress_at (k : nat) : Z :=
  nth k [0; 10; 25; 45; 60; 80]%Z 100%Z.

(** What a status request sees while step [k] is under way. *)
Definition in_stage (k : nat) (job : Jobs.ProcessingStatus) : Prop :=
  Jobs.status job = "processing"%string /\
  statuses job = stage k /\
  Jobs.progress job = progress_at k /\
  Jobs.error job = None.

(** A store that holds one job, as [start_processing] leaves it. *)
Definition one_job : Jobs.state :=
  Jobs.mkState [("job"%string, Jobs.new_job "job" "vid")] []
               Examples.g_half [].

End Props.

(* ================================================================= *)
(** * Properties *)

Section PyFacts.

Open Scope Q_scope.

Lemma Qleb_le a b : Qleb a b = true <-> a <= b.
Proof. apply Qle_bool_iff. Qed.

Lemma Qltb_lt a b : Qltb a b = true <-> a < b.
Proof.
  unfold Qltb. rewrite negb_true_iff.
  split; intro H.
  - apply Qnot_le_lt. intro Hle. apply Qle_bool_iff in Hle. congruence.
  - destruct (Qle_bool b a) eqn:E; [|reflexivity].
    apply Qle_bool_iff in E. exfalso. exact (Qlt_not_le _ _ H E).
Qed.

Lemma Qltb_ge a b : Qltb a b = false <-> b <= a.
Proof.
  unfold Qltb. rewrite negb_false_iff. apply Qle_bool_iff.
Qed.

Lemma Qleb_gt a b : Qleb a b = false <-> b < a.
Proof.
  rewrite <- Qltb_lt. unfold Qltb, Qleb.
  destruct (Qle_bool a b); simpl; intuition congruence.
Qed.

Lemma Qgtb_gt a b : Qgtb a b = true <-> b < a.
Proof. apply Qltb_lt. Qed.

End PyFacts.

Section ZoneFacts.

Import Zones.
Open Scope string_scope.
Open Scope Q_scope.

Lemma in_bounds_contains b nx ny :
  in_bounds b nx ny = true <-> contains b nx ny.
Proof.
  unfold in_bounds, contains.
  rewrite !andb_true_iff, !Qleb_le. tauto.
Qed.

(** The loop returns the name of the first entry whose rectangle holds the
    point, and the default when it runs off the end. *)
Lemma zone_loop_first_match items nx ny z :
  zone_loop items nx ny = z <->
  (exists i b,
      nth_error items i = Some (z, b) /\ contains b nx ny /\
      forall j z' b', (j < i)%nat -> nth_error items j = Some (z', b') ->
                      ~ contains b' nx ny)
  \/ ((forall z' b', In (z', b') items -> ~ contains b' nx ny) /\
      z = "mid-range").
Proof.
  revert z. induction items as [|[name b] rest IH]; intros z; simpl.
  - split.
    + intros <-. right. split; [intros ? ? []|reflexivity].
    + intros [(i & b & Hi & _)|[_ ->]]; [|reflexivity].
      destruct i; discriminate.
  - destruct (in_bounds b nx ny) eqn:Hb.
    + apply in_bounds_contains in Hb. split.
      * intros <-. left. exists 0%nat, b.
        split; [reflexivity|]. split; [exact Hb|].
        intros j ? ? Hj. lia.
      * intros [(i & b0 & Hi & Hc & Hfirst)|[Hnone _]].
        -- destruct i as [|i]; simpl in Hi; [congruence|].
           exfalso. apply (Hfirst 0%nat name b); [lia|reflexivity|exact Hb].
        -- exfalso. exact (Hnone name b (or_introl eq_refl) Hb).
    + assert (Hnb : ~ contains b nx ny).
      { intro Hc. apply in_bounds_contains in Hc. congruence. }
      rewrite IH. split.
      * intros [(i & b0 & Hi & Hc & Hfirst)|[Hnone ->]].
        -- left. exists (S i), b0.
           split; [exact Hi|]. split; [exact Hc|].
           intros [|j] z' b' Hj Hnth; simpl in Hnth.
           ++ injection Hnth as <- <-. exact Hnb.
           ++ apply (Hfirst j z' b'); [lia|exact Hnth].
        -- right. split; [|reflexivity].
           intros z' b' [Heq|Hin]; [injection Heq as <- <-; exact Hnb|].
           exact (Hnone z' b' Hin).
      * intros [(i & b0 & Hi & Hc & Hfirst)|[Hnone ->]].
        -- destruct i as [|i]; simpl in Hi.
           ++ injection Hi as <- <-. contradiction.
           ++ left. exists i, b0.
              split; [exact Hi|]. split; [exact Hc|].
              intros j z' b' Hj Hnth. apply (Hfirst (S j) z' b'); [lia|exact Hnth].
        -- right. split; [|reflexivity].
           intros z' b' Hin. apply (Hnone z' b'). now right.
Qed.

End ZoneFacts.

(** C5. The Zone Classifier tests the seven rectangles in the declared order,
    paint first and mid-range last, and returns the first zone whose rectangle
    contains the normalized position, or ["mid-range"] when none does; the
    normalized positions (0.5, 0.1), (0.1, 0.8) and (0.5, 0.9) classify as
    paint, left-corner and mid-range. *)
Theorem C5_get_zone_first_match :
  map fst zones =
    ["paint"; "left-corner"; "right-corner"; "left-wing"; "right-wing";
     "top-key"; "mid-range"]%string /\
  (forall x y z,
      _get_zone x y = z <->
      (exists i b,
          nth_error zones i = Some (z, b) /\
          contains b (x / 1920) (y / 1080) /\
          forall j z' b', (j < i)%nat -> nth_error zones j = Some (z', b') ->
                          ~ contains b' (x / 1920) (y / 1080))
      \/ ((forall z' b', In (z', b') zones ->
                         ~ contains b' (x / 1920) (y / 1080)) /\
          z = "mid-range"%string)) /\
  _get_zone (0.5 * 1920) (0.1 * 1080) = "paint"%string /\
  _get_zone (0.1 * 1920) (0.8 * 1080) = "left-corner"%string /\
  _get_zone (0.5 * 1920) (0.9 * 1080) = "mid-range"%string /\
  (forall z' b', In (z', b') zones -> ~ contains b' 0.5 0.9).
Proof.
  split; [reflexivity|].
  split; [intros x y z; apply zone_loop_first_match|].
  repeat split; try reflexivity.
  intros z' b' Hin (Hx0 & Hx1 & Hy0 & Hy1).
  simpl in Hin.
  repeat (destruct Hin as [Heq|Hin];
          [injection Heq as <- <-; simpl in *;
           unfold Qle in *; simpl in *; lia|]).
  exact Hin.
Qed.

(* ----------------------------------------------------------------- *)
(** ** Facts about the result monad and insertion-ordered dicts *)

Lemma bind_Ok {A B} (m : result A) (k : A -> result B) b :
  bind m k = Ok b -> exists a, m = Ok a /\ k a = Ok b.
Proof. destruct m; simpl; [eauto|discriminate]. Qed.

Lemma truediv_Ok a b : ~ (b == 0)%Q -> truediv a b = Ok (a / b)%Q.
Proof.
  intro Hb. unfold truediv.
  destruct (Qeq_bool b 0) eqn:E; [|reflexivity].
  apply Qeq_bool_iff in E. contradiction.
Qed.

Lemma inject_Z_nonzero z : z <> 0%Z -> ~ (inject_Z z == 0)%Q.
Proof. intros Hz H. apply Hz. unfold Qeq in H. simpl in H. lia. Qed.

Section DictFacts.

Context {K V : Type} (eqb : K -> K -> bool).
Hypothesis eqb_eq : forall a b, eqb a b = true <-> a = b.

Lemma eqb_refl' k : eqb k k = true.
Proof. now apply eqb_eq. Qed.

Lemma eqb_neq' a b : a <> b -> eqb a b = false.
Proof.
  intro H. destruct (eqb a b) eqn:E; [|reflexivity].
  apply eqb_eq in E. contradiction.
Qed.

Lemma dict_in_keys (d : list (K * V)) k :
  dict_in eqb d k = true <-> In k (map fst d).
Proof.
  induction d as [|[k' v] d IH]; simpl.
  - split; [discriminate|tauto].
  - rewrite orb_true_iff, IH, eqb_eq. tauto.
Qed.

Lemma dict_in_getitem (d : list (K * V)) k dflt :
  dict_in eqb d k = true -> dict_getitem eqb d k = Ok (dict_get eqb d k dflt).
Proof.
  induction d as [|[k' v] d IH]; simpl; [discriminate|].
  destruct (eqb k' k); simpl; auto.
Qed.

Lemma dict_get_absent (d : list (K * V)) k dflt :
  dict_in eqb d k = false -> dict_get eqb d k dflt = dflt.
Proof.
  induction d as [|[k' v] d IH]; simpl; [reflexivity|].
  destruct (eqb k' k); simpl; [discriminate|auto].
Qed.

Lemma dict_get_setitem_same (d : list (K * V)) k v dflt :
  dict_get eqb (dict_setitem eqb d k v) k dflt = v.
Proof.
  induction d as [|[k' w] d IH]; simpl.
  - now rewrite eqb_refl'.
  - destruct (eqb k' k) eqn:E; simpl; rewrite E; auto.
Qed.

Lemma dict_get_setitem_other (d : list (K * V)) k k' v dflt :
  k <> k' ->
  dict_get eqb (dict_setitem eqb d k v) k' dflt = dict_get eqb d k' dflt.
Proof.
  intro Hne. induction d as [|[k0 w] d IH]; simpl.
  - now rewrite (eqb_neq' Hne).
  - destruct (eqb k0 k) eqn:E; simpl.
    + apply eqb_eq in E. subst k0. now rewrite (eqb_neq' Hne).
    + destruct (eqb k0 k'); auto.
Qed.

Lemma dict_in_setitem_same (d : list (K * V)) k v :
  dict_in eqb (dict_setitem eqb d k v) k = true.
Proof.
  induction d as [|[k' w] d IH]; simpl.
  - now rewrite eqb_refl'.
  - destruct (eqb k' k) eqn:E; simpl; rewrite E; auto.
Qed.

Lemma keys_setitem (d : list (K * V)) k v :
  map fst (dict_setitem eqb d k v) =
  if dict_in eqb d k then map fst d else (map fst d ++ [k])%list.
Proof.
  induction d as [|[k' w] d IH]; simpl; [reflexivity|].
  destruct (eqb k' k) eqn:E; simpl; [reflexivity|].
  rewrite IH. now destruct (dict_in eqb d k).
Qed.

Lemma dict_getitem_Ok_in (d : list (K * V)) k v :
  dict_getitem eqb d k = Ok v -> In (k, v) d.
Proof.
  induction d as [|[k' w] d IH]; simpl; [discriminate|].
  destruct (eqb k' k) eqn:E.
  - apply eqb_eq in E. intros [= ->]. subst. now left.
  - auto.
Qed.

Lemma dict_entry_get (d : list (K * V)) k v dflt :
  NoDup (map fst d) -> In (k, v) d -> dict_get eqb d k dflt = v.
Proof.
  induction d as [|[k' w] d IH]; simpl; [tauto|].
  intros Hnd [Heq|Hin].
  - injection Heq as -> ->. now rewrite eqb_refl'.
  - inversion Hnd as [|? ? Hnotin Hnd']; subst.
    rewrite eqb_neq'; [auto|].
    intros ->. apply Hnotin. now apply (in_map fst) in Hin.
Qed.

End DictFacts.

(* ----------------------------------------------------------------- *)
(** ** The per-zone tally *)

Import Aggregator Spec.

Lemma existsb_eqb_in z ks : existsb (String.eqb z) ks = true <-> In z ks.
Proof.
  rewrite existsb_exists. split.
  - intros (k & Hin & Heq). apply String.eqb_eq in Heq. now subst.
  - intro Hin. exists z. split; [exact Hin|apply String.eqb_refl].
Qed.

Lemma add_key_dict_in (d : list (string * Tally.t)) z :
  add_key (map fst d) z =
  if dict_in String.eqb d z then map fst d else (map fst d ++ [z])%list.
Proof.
  unfold add_key.
  destruct (dict_in String.eqb d z) eqn:Hin.
  - apply (dict_in_keys String.eqb String.eqb_eq) in Hin.
    apply existsb_eqb_in in Hin. now rewrite Hin.
  - destruct (existsb (String.eqb z) (map fst d)) eqn:E; [|reflexivity].
    apply existsb_eqb_in in E.
    apply (dict_in_keys String.eqb String.eqb_eq) in E. congruence.
Qed.

Lemma tally_shot_ok d s :
  exists d',
    tally_shot d s = Ok d' /\
    map fst d' = add_key (map fst d) (zone s) /\
    lookup d' (zone s) =
      Tally.mk (Tally.makes (lookup d (zone s)) + (if is_make s then 1 else 0))
               (Tally.attempts (lookup d (zone s)) + 1) /\
    forall z, z <> zone s -> lookup d' z = lookup d z.
Proof.
  unfold tally_shot, lookup.
  set (z := zone s). set (dflt := Tally.mk 0 0).
  set (d1 := if negb (dict_in String.eqb d z)
             then dict_setitem String.eqb d z dflt else d).
  assert (Hin1 : dict_in String.eqb d1 z = true).
  { unfold d1. destruct (dict_in String.eqb d z) eqn:E; simpl; [exact E|].
    apply (dict_in_setitem_same String.eqb String.eqb_eq). }
  assert (Hget1 : dict_get String.eqb d1 z dflt = dict_get String.eqb d z dflt).
  { unfold d1. destruct (dict_in String.eqb d z) eqn:E; simpl; [reflexivity|].
    rewrite (dict_get_setitem_same String.eqb String.eqb_eq).
    now rewrite (dict_get_absent String.eqb _ _ dflt E). }
  assert (Hother1 : forall z', z' <> z ->
            dict_get String.eqb d1 z' dflt = dict_get String.eqb d z' dflt).
  { intros z' Hne. unfold d1.
    destruct (dict_in String.eqb d z); simpl; [reflexivity|].
    apply (dict_get_setitem_other String.eqb String.eqb_eq). congruence. }
  assert (Hkeys1 : map fst d1 = add_key (map fst d) z).
  { rewrite add_key_dict_in. unfold d1.
    destruct (dict_in String.eqb d z) eqn:E; simpl; [reflexivity|].
    rewrite (keys_setitem String.eqb). now rewrite E. }
  rewrite (dict_in_getitem String.eqb _ _ dflt Hin1). simpl.
  set (e := dict_get String.eqb d1 z dflt) in *.
  set (d2 := dict_setitem String.eqb d1 z
               (Tally.mk (Tally.makes e) (Tally.attempts e + 1))).
  assert (Hkeys2 : map fst d2 = map fst d1).
  { unfold d2. rewrite (keys_setitem String.eqb). now rewrite Hin1. }
  assert (Hin2 : dict_in String.eqb d2 z = true).
  { apply (dict_in_setitem_same String.eqb String.eqb_eq). }
  assert (Hget2 : dict_get String.eqb d2 z dflt =
                  Tally.mk (Tally.makes e) (Tally.attempts e + 1)).
  { apply (dict_get_setitem_same String.eqb String.eqb_eq). }
  destruct (is_make s).
  - rewrite (dict_in_getitem String.eqb _ _ dflt Hin2). simpl.
    rewrite Hget2. simpl.
    eexists. split; [reflexivity|]. split; [|split].
    + rewrite (keys_setitem String.eqb). rewrite Hin2. congruence.
    + rewrite (dict_get_setitem_same String.eqb String.eqb_eq).
      now rewrite <- Hget1.
    + intros z' Hne.
      rewrite (dict_get_setitem_other String.eqb String.eqb_eq) by congruence.
      unfold d2.
      rewrite (dict_get_setitem_other String.eqb String.eqb_eq) by congruence.
      now apply Hother1.
  - eexists. split; [reflexivity|]. split; [|split].
    + congruence.
    + unfold d2. rewrite (dict_get_setitem_same String.eqb String.eqb_eq).
      rewrite <- Hget1. fold e. f_equal. lia.
    + intros z' Hne. unfold d2.
      rewrite (dict_get_setitem_other String.eqb String.eqb_eq) by congruence.
      now apply Hother1.
Qed.

Lemma attempts_in_cons z s shots :
  attempts_in z (s :: shots) =
  ((if (zone s =? z)%string then 1 else 0) + attempts_in z shots)%Z.
Proof.
  unfold attempts_in, len. cbn [filter].
  destruct (zone s =? z)%string;
    [cbn [List.length]; rewrite Nat2Z.inj_succ|]; lia.
Qed.

Lemma makes_in_cons z s shots :
  makes_in z (s :: shots) =
  ((if (zone s =? z)%string && is_make s then 1 else 0) + makes_in z shots)%Z.
Proof.
  unfold makes_in, len. cbn [filter].
  destruct ((zone s =? z)%string && is_make s);
    [cbn [List.length]; rewrite Nat2Z.inj_succ|]; lia.
Qed.

Lemma makes_in_bounds z shots :
  (0 <= makes_in z shots <= attempts_in z shots)%Z.
Proof.
  induction shots as [|s shots IH].
  - unfold makes_in, attempts_in, len. simpl. lia.
  - rewrite makes_in_cons, attempts_in_cons.
    destruct (zone s =? z)%string, (is_make s); cbn [andb]; lia.
Qed.

Lemma attempts_in_pos z shots :
  In z (map zone shots) -> (1 <= attempts_in z shots)%Z.
Proof.
  induction shots as [|s shots IH]; simpl; [tauto|].
  rewrite attempts_in_cons.
  pose proof (makes_in_bounds z shots) as Hb.
  intros [Heq|Hin].
  - rewrite Heq, String.eqb_refl. lia.
  - specialize (IH Hin). destruct (zone s =? z)%string; lia.
Qed.

Lemma tally_loop_ok shots : forall d,
  exists d',
    tally_loop shots d = Ok d' /\
    map fst d' = fold_left add_key (map zone shots) (map fst d) /\
    forall z,
      Tally.attempts (lookup d' z) =
        (Tally.attempts (lookup d z) + attempts_in z shots)%Z /\
      Tally.makes (lookup d' z) =
        (Tally.makes (lookup d z) + makes_in z shots)%Z.
Proof.
  induction shots as [|s shots IH]; intros d; simpl.
  - exists d. split; [reflexivity|]. split; [reflexivity|].
    intros z. unfold attempts_in, makes_in, len. simpl. lia.
  - destruct (tally_shot_ok d s) as (d1 & -> & Hkeys & Hsame & Hother).
    simpl. destruct (IH d1) as (d' & -> & Hkeys' & Hcount).
    exists d'. split; [reflexivity|]. split; [now rewrite Hkeys', Hkeys|].
    intros z. destruct (Hcount z) as [Ha Hm].
    rewrite Ha, Hm, attempts_in_cons, makes_in_cons.
    destruct (String.eqb_spec (zone s) z) as [<-|Hne].
    + rewrite Hsame. cbn [Tally.attempts Tally.makes andb].
      destruct (is_make s); lia.
    + rewrite (Hother z) by congruence. cbn [andb]. lia.
Qed.

Lemma add_key_in ks z x : In x (add_key ks z) <-> In x ks \/ x = z.
Proof.
  unfold add_key. destruct (existsb (String.eqb z) ks) eqn:E.
  - apply existsb_eqb_in in E. split; [tauto|]. intros [H| ->]; assumption.
  - rewrite in_app_iff. simpl. intuition congruence.
Qed.

Lemma add_key_NoDup ks z : NoDup ks -> NoDup (add_key ks z).
Proof.
  intro Hnd. unfold add_key. destruct (existsb (String.eqb z) ks) eqn:E.
  - exact Hnd.
  - apply NoDup_app; [exact Hnd|constructor; [intros []|constructor]|].
    intros x Hin [<-|[]].
    apply existsb_eqb_in in Hin. congruence.
Qed.

Lemma fold_add_key_in zs : forall ks x,
  In x (fold_left add_key zs ks) <-> In x ks \/ In x zs.
Proof.
  induction zs as [|z zs IH]; intros ks x; simpl.
  - tauto.
  - rewrite IH, add_key_in. intuition congruence.
Qed.

Lemma fold_add_key_NoDup zs : forall ks,
  NoDup ks -> NoDup (fold_left add_key zs ks).
Proof.
  induction zs as [|z zs IH]; intros ks Hnd; simpl; [exact Hnd|].
  apply IH. now apply add_key_NoDup.
Qed.

(** The tally of a whole shot list: one entry per zone, in order of first
    appearance, holding the zone's numbers of attempts and makes. *)
Lemma tally_loop_spec shots :
  exists d,
    tally_loop shots [] = Ok d /\
    map fst d = seen_order (map zone shots) /\
    NoDup (map fst d) /\
    (forall z, In z (map fst d) <-> In z (map zone shots)) /\
    forall z t, In (z, t) d ->
      Tally.attempts t = attempts_in z shots /\
      Tally.makes t = makes_in z shots /\
      (1 <= Tally.attempts t)%Z /\
      (0 <= Tally.makes t <= Tally.attempts t)%Z.
Proof.
  destruct (tally_loop_ok shots []) as (d & Hrun & Hkeys & Hcount).
  exists d. split; [exact Hrun|]. split; [exact Hkeys|].
  assert (Hnd : NoDup (map fst d)).
  { rewrite Hkeys. apply fold_add_key_NoDup. constructor. }
  assert (Hin : forall z, In z (map fst d) <-> In z (map zone shots)).
  { intro z. rewrite Hkeys. simpl. rewrite fold_add_key_in. simpl. tauto. }
  split; [exact Hnd|]. split; [exact Hin|].
  intros z t Hzt.
  assert (Ht : lookup d z = t).
  { apply (dict_entry_get String.eqb String.eqb_eq); assumption. }
  destruct (Hcount z) as [Ha Hm]. rewrite Ht in Ha, Hm.
  unfold lookup in Ha, Hm. simpl in Ha, Hm.
  assert (Hz : In z (map zone shots)).
  { apply Hin. now apply (in_map fst) in Hzt. }
  pose proof (attempts_in_pos z shots Hz).
  pose proof (makes_in_bounds z shots).
  rewrite Ha, Hm. repeat split; lia.
Qed.

(* ----------------------------------------------------------------- *)
(** ** [max] with a key, [sorted] with a key *)

Section MaxBy.

Context {A : Type} (key : A -> result Q) (f : A -> Q).
Hypothesis key_total : forall x, key x = Ok (f x).

Lemma first_max_upper items r x :
  first_max f items r -> In x items -> (f x <= f r)%Q.
Proof.
  intros (pre & post & -> & Hpre & Hpost) Hin.
  apply in_app_iff in Hin. destruct Hin as [Hin|[<-|Hin]].
  - apply Qlt_le_weak. now apply Hpre.
  - apply Qle_refl.
  - now apply Hpost.
Qed.

Lemma first_max_in items r : first_max f items r -> In r items.
Proof.
  intros (pre & post & -> & _). apply in_app_iff. right. now left.
Qed.

Lemma max_loop_spec rest : forall best,
  exists r,
    max_loop key best (f best) rest = Ok r /\ first_max f (best :: rest) r.
Proof.
  induction rest as [|x rest IH]; intros best; simpl.
  - exists best. split; [reflexivity|].
    exists [], []. repeat split; intros ? [].
  - rewrite key_total. simpl.
    destruct (Qltb (f best) (f x)) eqn:E.
    + apply Qltb_lt in E.
      destruct (IH x) as (r & -> & Hmax).
      exists r. split; [reflexivity|].
      assert (Hx : (f x <= f r)%Q).
      { eapply first_max_upper; [exact Hmax|now left]. }
      destruct Hmax as (pre & post & Heq & Hpre & Hpost).
      exists (best :: pre), post. split; [simpl; now rewrite Heq|].
      split; [|exact Hpost].
      intros y [<-|Hy]; [|now apply Hpre].
      eapply Qlt_le_trans; eassumption.
    + apply Qltb_ge in E.
      destruct (IH best) as (r & -> & Hmax).
      exists r. split; [reflexivity|].
      destruct Hmax as (pre & post & Heq & Hpre & Hpost).
      destruct pre as [|b pre]; simpl in Heq.
      * injection Heq as <- <-.
        exists [], (x :: rest). split; [reflexivity|].
        split; [intros ? []|].
        intros y [<-|Hy]; [exact E|now apply Hpost].
      * injection Heq as <- ->.
        exists (best :: x :: pre), post. split; [reflexivity|].
        split; [|exact Hpost].
        assert (Hb : (f best < f r)%Q) by (apply Hpre; now left).
        intros y [<-|[<-|Hy]].
        -- exact Hb.
        -- eapply Qle_lt_trans; eassumption.
        -- apply Hpre. now right.
Qed.

Lemma max_by_spec items default :
  exists r,
    max_by key items default = Ok r /\
    ((items = [] /\ r = default) \/ first_max f items r).
Proof.
  destruct items as [|x rest]; simpl.
  - exists default. split; [reflexivity|]. now left.
  - rewrite key_total. simpl.
    destruct (max_loop_spec rest x) as (r & Hr & Hmax).
    exists r. split; [exact Hr|]. now right.
Qed.

Lemma insert_desc_perm (x : Q * A) l :
  Permutation (insert_desc x l) (x :: l).
Proof.
  induction l as [|y l IH]; simpl; [reflexivity|].
  destruct (Qltb (fst x) (fst y)); [|reflexivity].
  rewrite IH. apply perm_swap.
Qed.

Lemma sort_desc_perm (l : list (Q * A)) :
  Permutation (fold_right insert_desc [] l) l.
Proof.
  induction l as [|x l IH]; simpl; [reflexivity|].
  rewrite insert_desc_perm. now constructor.
Qed.

Lemma decorate_total items :
  map_result (fun x => bind (key x) (fun k => Ok (k, x))) items =
  Ok (map (fun x => (f x, x)) items).
Proof.
  induction items as [|x items IH]; simpl; [reflexivity|].
  rewrite key_total. simpl. now rewrite IH.
Qed.


End MaxBy.

Lemma map_result_Forall2 {A B} (f : A -> result B) (g : A -> B) xs :
  (forall x, f x = Ok (g x)) -> map_result f xs = Ok (map g xs).
Proof.
  intro Hf. induction xs as [|x xs IH]; simpl; [reflexivity|].
  now rewrite Hf, IH.
Qed.

(* ----------------------------------------------------------------- *)
(** ** The aggregator never divides by zero *)

Lemma hot_zone_key_total x : hot_zone_key x = Ok (score x).
Proof.
  unfold hot_zone_key, score, make_rate.
  destruct (Tally.attempts (snd x) >? 2)%Z eqn:E; [|reflexivity].
  apply Z.gtb_lt in E. apply truediv_Ok, inject_Z_nonzero. lia.
Qed.

Lemma zone_sort_key_total x :
  zone_sort_key x =
  Ok (if (Tally.attempts (snd x) >? 0)%Z
      then inject_Z (Tally.makes (snd x)) / inject_Z (Tally.attempts (snd x))
      else 0)%Q.
Proof.
  unfold zone_sort_key, make_rate.
  destruct (Tally.attempts (snd x) >? 0)%Z eqn:E; [|reflexivity].
  apply Z.gtb_lt in E. apply truediv_Ok, inject_Z_nonzero. lia.
Qed.

Lemma percentage_of_total a b :
  percentage_of a b =
  Ok (if (b >? 0)%Z then round (inject_Z a / inject_Z b * 100) 1 else 0)%Q.
Proof.
  unfold percentage_of.
  destruct (b >? 0)%Z eqn:E; [|reflexivity].
  apply Z.gtb_lt in E. rewrite truediv_Ok; [reflexivity|].
  apply inject_Z_nonzero. lia.
Qed.

Lemma count_makes_from shots : forall acc,
  fold_left (fun acc s => if is_make s then (acc + 1)%Z else acc) shots acc =
  (acc + len (filter is_make shots))%Z.
Proof.
  unfold len.
  induction shots as [|s shots IH]; intros acc; simpl; [lia|].
  rewrite IH. destruct (is_make s);
    [cbn [List.length]; rewrite Nat2Z.inj_succ|]; lia.
Qed.

Lemma count_makes_filter shots : count_makes shots = len (filter is_make shots).
Proof. unfold count_makes. now rewrite count_makes_from. Qed.

Lemma count_makes_bounds shots : (0 <= count_makes shots <= len shots)%Z.
Proof.
  rewrite count_makes_filter. unfold len.
  pose proof (filter_length_le is_make shots). lia.
Qed.

Lemma hot_zone_spec shots :
  exists d z,
    tally_loop shots [] = Ok d /\
    hot_zone shots = Ok z /\
    ((d = [] /\ z = "mid-range"%string) \/
     exists t, first_max score d (z, t)).
Proof.
  destruct (tally_loop_spec shots) as (d & Hrun & _).
  destruct (@max_by_spec _ hot_zone_key score hot_zone_key_total d
                         ("mid-range"%string, Tally.mk 0 1))
    as ([z t] & Hmax & Hcase).
  exists d, z. split; [exact Hrun|]. split.
  - unfold hot_zone. rewrite Hrun. simpl. now rewrite Hmax.
  - destruct Hcase as [[-> Heq]|Hfirst].
    + left. split; [reflexivity|]. now injection Heq as -> _.
    + right. now exists t.
Qed.

(** [_calculate_statistics] returns, and what it returns. *)
Lemma calculate_statistics_spec shots g :
  exists z fg tp,
    hot_zone shots = Ok z /\
    percentage_of (count_makes shots) (len shots) = Ok fg /\
    _calculate_statistics shots g =
      Ok (Statistics.mk (len shots) (count_makes shots)
                        (len shots - count_makes shots) fg tp
                        (title (replace "-" " " z))
                        (round (0.75 + fst (uniform 0 0.15 g)) 2),
          snd (uniform 0 0.15 g)).
Proof.
  destruct (hot_zone_spec shots) as (d & z & _ & Hz & _).
  unfold _calculate_statistics.
  rewrite Hz, percentage_of_total.
  set (three_shots := filter in_three_zones shots).
  assert (Hthree : exists tp,
    match three_shots with
    | [] => Ok 0%Q
    | _ :: _ =>
        bind (truediv (inject_Z (count_makes three_shots))
                      (inject_Z (len three_shots)))
             (fun q => Ok (q * 100)%Q)
    end = Ok tp).
  { destruct three_shots as [|s l] eqn:E; [now eexists|].
    rewrite truediv_Ok; [simpl; now eexists|].
    apply inject_Z_nonzero. unfold len. simpl List.length. lia. }
  destruct Hthree as (tp & ->). simpl.
  destruct (uniform 0 0.15 g) as [u g']. simpl.
  eexists z, _, _. split; [reflexivity|]. split; reflexivity.
Qed.

(* ----------------------------------------------------------------- *)
(** ** Claims about the statistics aggregator *)

(** C1. For every list of ShotEvents the aggregator returns Statistics with
    [makes + misses = totalShots = len(shots)], where [makes] counts the
    shots whose outcome is ["make"] and [misses] is the total minus the
    makes. *)
Theorem C1_statistics_counts : forall shots g,
  exists st g',
    _calculate_statistics shots g = Ok (st, g') /\
    (Statistics.makes st + Statistics.misses st = Statistics.totalShots st)%Z /\
    Statistics.totalShots st = len shots /\
    Statistics.makes st =
      len (filter (fun s => (outcome s =? "make")%string) shots) /\
    Statistics.misses st = (Statistics.totalShots st - Statistics.makes st)%Z /\
    (0 <= Statistics.makes st)%Z /\ (0 <= Statistics.misses st)%Z.
Proof.
  intros shots g.
  destruct (calculate_statistics_spec shots g) as (z & fg & tp & _ & _ & ->).
  pose proof (count_makes_bounds shots) as Hb.
  eexists _, _. split; [reflexivity|]. simpl.
  repeat split; try lia.
  apply count_makes_filter.
Qed.

Lemma rate_pos m a :
  (0 < m)%Z -> (0 < a)%Z -> (0 < inject_Z m / inject_Z a)%Q.
Proof.
  intros Hm Ha. apply Qlt_shift_div_l.
  - unfold Qlt. simpl. lia.
  - rewrite Qmult_0_l. unfold Qlt. simpl. lia.
Qed.

(** C4 (amended). For every ShotEvent list, hotZone is the formatted name of
    the first zone, in the iteration order of the per-zone tally (order of
    first appearance), that maximizes the score "make rate if attempts > 2,
    else 0"; it is the default mid-range when the list is empty. Hence, when
    some zone with more than two attempts has a make, the hot zone has more
    than two attempts and the highest make rate among such zones. *)
Theorem C4_hot_zone_first_max : forall shots g,
  exists d z st g',
    tally_loop shots [] = Ok d /\
    map fst d = seen_order (map zone shots) /\
    (forall z' t', In (z', t') d ->
       Tally.attempts t' = attempts_in z' shots /\
       Tally.makes t' = makes_in z' shots) /\
    hot_zone shots = Ok z /\
    _calculate_statistics shots g = Ok (st, g') /\
    Statistics.hotZone st = title (replace "-" " " z) /\
    (shots = [] ->
       z = "mid-range"%string /\ Statistics.hotZone st = "Mid Range"%string) /\
    (shots <> [] -> exists t, first_max score d (z, t)) /\
    ((exists z' t', In (z', t') d /\
                    (2 < Tally.attempts t')%Z /\ (0 < Tally.makes t')%Z) ->
     exists t,
       In (z, t) d /\ (2 < Tally.attempts t)%Z /\
       forall z' t', In (z', t') d -> (2 < Tally.attempts t')%Z ->
         (inject_Z (Tally.makes t') / inject_Z (Tally.attempts t') <=
          inject_Z (Tally.makes t) / inject_Z (Tally.attempts t))%Q).
Proof.
  intros shots g.
  destruct (tally_loop_spec shots) as (d & Hrun & Hkeys & _ & Hin & Hent).
  destruct (hot_zone_spec shots) as (d0 & z & Hrun0 & Hz & Hcase).
  assert (d0 = d) by congruence. subst d0. clear Hrun0.
  destruct (calculate_statistics_spec shots g)
    as (z0 & fg & tp & Hz0 & _ & Hstat).
  assert (z0 = z) by congruence. subst z0.
  eexists d, z, _, _.
  split; [exact Hrun|]. split; [exact Hkeys|].
  split; [intros z' t' H'; destruct (Hent z' t' H') as (? & ? & _); now split|].
  split; [exact Hz|]. split; [exact Hstat|]. split; [reflexivity|].
  assert (Hfirst : d <> [] -> exists t, first_max score d (z, t)).
  { intro Hd. destruct Hcase as [[-> _]|H]; [congruence|exact H]. }
  split; [|split].
  - intros ->. simpl in Hrun. injection Hrun as <-.
    destruct Hcase as [[_ ->]|(t & Hmax)].
    + split; reflexivity.
    + apply first_max_in in Hmax. destruct Hmax.
  - intro Hne. apply Hfirst. intros ->.
    destruct shots as [|s shots]; [congruence|].
    apply (Hin (zone s)). now left.
  - intros (z' & t' & Hin' & Ha' & Hm').
    destruct Hfirst as (t & Hmax); [intros ->; destruct Hin'|].
    exists t. split; [now apply first_max_in in Hmax|].
    assert (Hup : forall x, In x d -> (score x <= score (z, t))%Q).
    { intros x Hx. eapply first_max_upper; eassumption. }
    assert (Ht : (2 < Tally.attempts t)%Z).
    { specialize (Hup _ Hin'). unfold score in Hup. simpl in Hup.
      rewrite (proj2 (Z.gtb_lt _ _) Ha') in Hup.
      destruct (Tally.attempts t >? 2)%Z eqn:E; [now apply Z.gtb_lt in E|].
      assert (Ha0 : (0 < Tally.attempts t')%Z) by lia.
      exfalso. apply (Qlt_not_le _ _ (rate_pos Hm' Ha0)). exact Hup. }
    split; [exact Ht|].
    intros z'' t'' Hin'' Ha''. specialize (Hup _ Hin'').
    unfold score in Hup. simpl in Hup.
    apply Z.gtb_lt in Ha''. apply Z.gtb_lt in Ht.
    now rewrite Ha'', Ht in Hup.
Qed.

Lemma C4_hot_zone_first_max_witness :
  let shot z o := mkShotEvent 1 0 30 50 20 o z 0.9 0 [] in
  let shots := [shot "paint" "make"; shot "left-wing" "make";
                shot "left-wing" "miss"; shot "left-wing" "make"]%string in
  shots <> [] /\
  (2 < attempts_in "left-wing" shots)%Z /\
  (0 < makes_in "left-wing" shots)%Z /\
  hot_zone shots = Ok "left-wing"%string /\
  exists z, hot_zone shots = Ok z /\ (2 < attempts_in z shots)%Z.
Proof.
  cbv zeta.
  set (shot := fun z o => mkShotEvent 1 0 30 50 20 o z 0.9 0 []).
  set (shots := [shot "paint" "make"; shot "left-wing" "make";
                 shot "left-wing" "miss"; shot "left-wing" "make"]%string).
  split; [discriminate|]. split; [reflexivity|]. split; [reflexivity|].
  split; [reflexivity|].
  destruct (C4_hot_zone_first_max shots Examples.g_half)
    as (d & z & st & g' & Hrun & _ & Hent & Hz & _ & _ & _ & _ & Hcor).
  exists z. split; [exact Hz|].
  assert (Hd : d = [("paint", Tally.mk 1 1); ("left-wing", Tally.mk 2 3)]%string).
  { vm_compute in Hrun. now injection Hrun as <-. }
  destruct Hcor as (t & Hin & Ht & _).
  { exists "left-wing"%string, (Tally.mk 2 3). rewrite Hd.
    split; [right; now left|]. split; reflexivity. }
  destruct (Hent z t Hin) as [Ha _]. now rewrite <- Ha.
Defined.

(** C4, as stated, fails. With a single made shot from the paint no zone has
    more than two attempts, yet the hot zone is the paint, not the default;
    and a zone with at most two attempts wins over the only zone with more
    than two attempts when that one has no make. *)
Lemma C4_counterexample :
  let g := mkRng (fun _ => 1 # 2) 0 in
  let shot z o := mkShotEvent 1 0 30 50 20 o z 0.9 0 [] in
  let one := [shot "paint" "make"]%string in
  let four := [shot "paint" "make"; shot "left-wing" "miss";
               shot "left-wing" "miss"; shot "left-wing" "miss"]%string in
  (forall z, (attempts_in z one <= 2)%Z) /\
  hot_zone one = Ok "paint"%string /\
  option_map Statistics.hotZone
    (match _calculate_statistics one g with
     | Ok (st, _) => Some st
     | Raise _ => None
     end) = Some "Paint"%string /\
  attempts_in "paint" four = 1%Z /\
  attempts_in "left-wing" four = 3%Z /\
  hot_zone four = Ok "paint"%string.
Proof.
  cbv zeta. split; [|repeat split; vm_compute; reflexivity].
  intro z. unfold attempts_in, len. cbn [filter zone].
  destruct ("paint" =? z)%string; simpl; lia.
Qed.

Lemma zone_stat_of_total x :
  zone_stat_of x =
  Ok (ZoneStat.mk (title (replace "-" " " (fst x)))
                  (Tally.attempts (snd x)) (Tally.makes (snd x))
                  (if (Tally.attempts (snd x) >? 0)%Z
                   then round (inject_Z (Tally.makes (snd x)) /
                               inject_Z (Tally.attempts (snd x)) * 100) 1
                   else 0)%Q).
Proof.
  destruct x as [z data]. unfold zone_stat_of.
  now rewrite percentage_of_total.
Qed.


(* ----------------------------------------------------------------- *)
(** ** The analysis of one window *)

Import Detector.

Lemma index_last_Ok {A} (x : A) (l : list A) :
  index_last (x :: l) = Ok (List.last (x :: l) x).
Proof.
  unfold index_last, index.
  assert (H : forall (l : list A) (a d : A),
             nth_error (a :: l) (List.length (a :: l) - 1) =
             Some (List.last (a :: l) d)).
  { clear. induction l as [|b l IH]; intros a d; [reflexivity|].
    specialize (IH b d). simpl in *.
    rewrite Nat.sub_0_r in IH. exact IH. }
  now rewrite (H l x x).
Qed.

Lemma all_decreasing_first5 y0 y1 y2 y3 y4 :
  all_decreasing [y0; y1; y2; y3; y4]
                 (range (Z.min 3 (len [y0; y1; y2; y3; y4] - 1))) =
  Ok (Qgtb y0 y1 && Qgtb y1 y2 && Qgtb y2 y3).
Proof.
  change (range (Z.min 3 (len [y0; y1; y2; y3; y4] - 1))) with [0; 1; 2]%Z.
  cbn [all_decreasing]. 
  change (index [y0; y1; y2; y3; y4] (Z.to_nat 0)) with (Ok y0).
  change (index [y0; y1; y2; y3; y4] (Z.to_nat (0 + 1))) with (Ok y1).
  change (index [y0; y1; y2; y3; y4] (Z.to_nat 1)) with (Ok y1).
  change (index [y0; y1; y2; y3; y4] (Z.to_nat (1 + 1))) with (Ok y2).
  change (index [y0; y1; y2; y3; y4] (Z.to_nat 2)) with (Ok y2).
  change (index [y0; y1; y2; y3; y4] (Z.to_nat (2 + 1))) with (Ok y3).
  cbn [bind].
  destruct (Qgtb y0 y1), (Qgtb y1 y2), (Qgtb y2 y3); reflexivity.
Qed.

Lemma len_ge5 {A} (p0 p1 p2 p3 p4 : A) rest :
  (len (p0 :: p1 :: p2 :: p3 :: p4 :: rest) <? 5)%Z = false.
Proof.
  apply Z.ltb_ge. unfold len. simpl List.length. lia.
Qed.

Section AnalyzeWindow.

Variables (p0 p1 p2 p3 p4 : Sample) (rest : list Sample).

Let w := p0 :: p1 :: p2 :: p3 :: p4 :: rest.
Let last := List.last w p0.
Let start_x := (s_x p0 / 1920)%Q.
Let end_x := (s_x last / 1920)%Q.
Let final_y := (s_y last / 1080)%Q.

(** The analysis of a window of five samples or more, as a decision list. *)
Lemma analyze_unfold g :
  _analyze_trajectory w g =
  if negb (Qgtb (s_y p0) (s_y p1) && Qgtb (s_y p1) (s_y p2)
           && Qgtb (s_y p2) (s_y p3))
  then Ok ((false, "unknown"%string), g)
  else if negb (Qltb (Qabs (end_x - 0.5)) (Qabs (start_x - 0.5))
                || Qltb (Qabs (end_x - 0.5)) 0.2)
  then Ok ((false, "unknown"%string), g)
  else if Qltb final_y 0.15 && Qltb (Qabs (end_x - 0.5)) 0.1
          && (Z.of_nat (argmin_from 0 (s_y p0) 1
                          (map s_y (p1 :: p2 :: p3 :: p4 :: rest)))
              <? len w - 2)%Z
  then Ok ((true, "make"%string), g)
  else if Qgtb final_y 0.2 || Qgtb (Qabs (end_x - 0.5)) 0.15
  then Ok ((true, "miss"%string), g)
  else Ok ((true, if Qgtb (fst (random g)) 0.45
                  then "make"%string else "miss"%string),
           snd (random g)).
Proof.
  unfold _analyze_trajectory.
  fold w. unfold w at 1. rewrite len_ge5. fold w.
  change (map s_y (slice w 0 5))
    with [s_y p0; s_y p1; s_y p2; s_y p3; s_y p4].
  rewrite all_decreasing_first5. cbn [bind].
  destruct (Qgtb (s_y p0) (s_y p1) && Qgtb (s_y p1) (s_y p2)
            && Qgtb (s_y p2) (s_y p3)); cbn [negb]; [|reflexivity].
  change (index w 0) with (Ok p0). cbn [bind].
  unfold w at 1. rewrite index_last_Ok. fold w. fold last. cbn [bind].
  fold start_x end_x final_y.
  destruct (Qltb (Qabs (end_x - 0.5)) (Qabs (start_x - 0.5))
            || Qltb (Qabs (end_x - 0.5)) 0.2); cbn [negb]; [|reflexivity].
  change (argmin (map s_y w))
    with (Ok (argmin_from 0 (s_y p0) 1
                (map s_y (p1 :: p2 :: p3 :: p4 :: rest)))).
  cbn [bind].
  destruct (Qltb final_y 0.15 && Qltb (Qabs (end_x - 0.5)) 0.1); cbn [andb].
  - destruct (Z.of_nat _ <? len w - 2)%Z; [reflexivity|].
    destruct (Qgtb final_y 0.2 || Qgtb (Qabs (end_x - 0.5)) 0.15);
      [reflexivity|].
    now destruct (random g).
  - destruct (Qgtb final_y 0.2 || Qgtb (Qabs (end_x - 0.5)) 0.15);
      [reflexivity|].
    now destruct (random g).
Qed.

End AnalyzeWindow.




Lemma Qgtb_le a b : Qgtb a b = false <-> (a <= b)%Q.
Proof. unfold Qgtb. apply Qltb_ge. Qed.

Ltac reflect_Q :=
  repeat match goal with
         | H : Qltb _ _ = true |- _ => apply Qltb_lt in H
         | H : Qltb _ _ = false |- _ => apply Qltb_ge in H
         | H : Qgtb _ _ = true |- _ => apply Qgtb_gt in H
         | H : Qgtb _ _ = false |- _ => apply Qgtb_le in H
         | H : (_ <? _)%Z = true |- _ => apply Z.ltb_lt in H
         | H : (_ <? _)%Z = false |- _ => apply Z.ltb_ge in H
         end.


Ltac split_ifs :=
  repeat match goal with
         | |- context [if ?c then _ else _] => destruct c
         end.

(* ----------------------------------------------------------------- *)
(** ** Claims about the analysis of a window *)


(* ----------------------------------------------------------------- *)
(** ** The coin flip on a uniform grid of draws *)










(* ----------------------------------------------------------------- *)
(** ** The verdict on a window *)

Lemma analyze_short w g :
  (List.length w < 5)%nat ->
  _analyze_trajectory w g = Ok ((false, "unknown"%string), g).
Proof.
  intro H. unfold _analyze_trajectory.
  assert (E : (len w <? 5)%Z = true) by (apply Z.ltb_lt; unfold len; lia).
  now rewrite E.
Qed.

Lemma window_shape (w : list Sample) :
  (List.length w < 5)%nat \/
  exists p0 p1 p2 p3 p4 rest, w = p0 :: p1 :: p2 :: p3 :: p4 :: rest.
Proof.
  destruct w as [|p0 [|p1 [|p2 [|p3 [|p4 rest]]]]];
    try (left; simpl; lia).
  right. now exists p0, p1, p2, p3, p4, rest.
Qed.

(** The analysis is its verdict, which no generator influences, followed by
    at most one draw. *)
Lemma analyze_verdict w g :
  _analyze_trajectory w g = Ok (apply_verdict (verdict_of w) g).
Proof.
  destruct (window_shape w) as [Hshort|(p0 & p1 & p2 & p3 & p4 & rest & ->)].
  - unfold verdict_of. now rewrite !analyze_short.
  - unfold verdict_of. rewrite !analyze_unfold.
    change (Qgtb (fst (random null_rng)) 0.45) with false.
    remember (if Qgtb (fst (random g)) 0.45
              then "make"%string else "miss"%string) as flip eqn:Hflip.
    repeat match goal with
           | |- context [Qgtb ?a ?b] => destruct (Qgtb a b)
           | |- context [Qltb ?a ?b] => destruct (Qltb a b)
           | |- context [(?a <? ?b)%Z] => destruct (a <? b)%Z
           end; subst flip; reflexivity.
Qed.

Lemma verdict_short w : (List.length w < 5)%nat -> verdict_of w = NotShot.
Proof. intro H. unfold verdict_of. now rewrite analyze_short. Qed.

Lemma apply_verdict_draws v g : draws (snd (apply_verdict v g)) = draws g.
Proof. destruct v; reflexivity. Qed.

(** [is_shot] is the first component of the analysis, for every generator. *)
Lemma is_shot_spec w g :
  exists out g', _analyze_trajectory w g = Ok ((is_shot w, out), g').
Proof.
  rewrite analyze_verdict. unfold is_shot.
  destruct (verdict_of w); cbn [apply_verdict]; now eexists _, _.
Qed.

(** [flips_coin] tells whether the analysis consumes a draw. *)
Lemma flips_coin_spec w g :
  exists r,
    _analyze_trajectory w g =
    Ok (r, if flips_coin w then snd (random g) else g).
Proof.
  rewrite analyze_verdict. unfold flips_coin.
  destruct (verdict_of w); cbn [apply_verdict]; now eexists.
Qed.

(* ----------------------------------------------------------------- *)
(** ** The [while] loop *)

Section WhileRule.

Context {St : Type} (cond : St -> bool) (body : St -> result St).
Variables (Inv : St -> Prop) (measure : St -> nat).

Hypothesis body_step : forall s,
  Inv s -> cond s = true ->
  exists s', body s = Ok s' /\ Inv s' /\ (measure s' < measure s)%nat.

(** A loop whose body keeps [Inv] and decreases [measure] returns when it
    is given [measure] steps, in a state where the condition fails. *)
Lemma while_rule fuel : forall s,
  Inv s -> (measure s <= fuel)%nat ->
  exists s', while fuel cond body s = Ok s' /\ Inv s' /\ cond s' = false.
Proof.
  induction fuel as [|fuel IH]; intros s HI Hm; simpl;
    destruct (cond s) eqn:Hc; try (exists s; now auto).
  - destruct (body_step HI Hc) as (s' & _ & _ & Hlt). lia.
  - destruct (body_step HI Hc) as (s' & -> & HI' & Hlt). simpl.
    apply IH; [exact HI'|lia].
Qed.

End WhileRule.

(* ----------------------------------------------------------------- *)
(** ** One iteration of the scan *)

Lemma window_at_length bt i :
  List.length (window_at bt i) = Nat.min 15 (List.length bt - i).
Proof.
  unfold window_at, slice.
  replace (i + 15 - i)%nat with 15%nat by lia.
  now rewrite length_firstn, length_skipn.
Qed.

Lemma scan_cond_iff bt st :
  scan_cond bt st = true <-> (i st + 5 < List.length bt)%nat.
Proof. unfold scan_cond, len. rewrite Z.ltb_lt. lia. Qed.

Lemma confidence_Ok first tail out :
  exists c, _calculate_shot_confidence (first :: tail) out = Ok c.
Proof.
  unfold _calculate_shot_confidence. rewrite index_last_Ok. cbn [bind].
  now eexists.
Qed.

(** What an iteration does, by the verdict on the window at [i]. *)
Lemma scan_body_spec bt st :
  scan_cond bt st = true ->
  let w := window_at bt (i st) in
  match verdict_of w with
  | NotShot =>
      scan_body bt st = Ok (mkScan (i st + 1) (shot_id st) (shots st) (gen st))
  | v =>
      exists shot,
        scan_body bt st =
          Ok (mkScan (i st + List.length w) (shot_id st + 1)
                     (shots st ++ [shot]) (snd (apply_verdict v (gen st)))) /\
        id shot = shot_id st /\
        outcome shot = snd (fst (apply_verdict v (gen st))) /\
        trajectory shot = map (fun p => (s_x p, s_y p)) w /\
        trajectory shot <> []
  end.
Proof.
  intros Hc w. apply scan_cond_iff in Hc.
  assert (Hlen : (6 <= List.length w)%nat).
  { unfold w. rewrite window_at_length. lia. }
  unfold scan_body. fold (window_at bt (i st)). fold w.
  assert (E : (len w >=? 5)%Z = true).
  { apply Z.geb_le. unfold len. lia. }
  rewrite E, analyze_verdict.
  destruct w as [|first tail] eqn:Hw; [simpl in Hlen; lia|].
  destruct (verdict_of (first :: tail)) as [|out|] eqn:V;
    cbn [apply_verdict bind fst snd].
  - reflexivity.
  - change (index (first :: tail) 0) with (Ok first). cbn [bind].
    rewrite index_last_Ok. cbn [bind].
    destruct (confidence_Ok first tail out) as (c & ->). cbn [bind].
    eexists. split; [reflexivity|]. cbn [id outcome trajectory].
    split; [reflexivity|]. split; [reflexivity|]. split; [reflexivity|].
    discriminate.
  - change (index (first :: tail) 0) with (Ok first). cbn [bind].
    rewrite index_last_Ok. cbn [bind].
    destruct (confidence_Ok first tail
                (if Qgtb (fst (random (gen st))) 0.45
                 then "make"%string else "miss"%string)) as (c & ->).
    cbn [bind].
    eexists. split; [reflexivity|]. cbn [id outcome trajectory].
    split; [reflexivity|]. split; [reflexivity|]. split; [reflexivity|].
    discriminate.
Qed.

(** An iteration returns, moves forward, stays inside the stream and keeps
    the draws of the generator. *)
Lemma scan_body_progress bt st :
  scan_cond bt st = true ->
  exists st',
    scan_body bt st = Ok st' /\
    (i st < i st' <= List.length bt)%nat /\
    i st' = (if is_shot (window_at bt (i st))
             then i st + List.length (window_at bt (i st))
             else i st + 1)%nat /\
    draws (gen st') = draws (gen st) /\
    (flips_coin (window_at bt (i st)) = false -> gen st' = gen st).
Proof.
  intro Hc. pose proof (scan_body_spec bt st Hc) as H. cbv zeta in H.
  pose proof (window_at_length bt (i st)) as Hlen.
  apply scan_cond_iff in Hc.
  unfold is_shot, flips_coin.
  destruct (verdict_of (window_at bt (i st))) as [|out|] eqn:V.
  - eexists. split; [exact H|]. cbn [i gen]. repeat split; auto; lia.
  - destruct H as (shot & H & _). eexists. split; [exact H|].
    cbn [i gen apply_verdict snd]. repeat split; auto; lia.
  - destruct H as (shot & H & _). eexists. split; [exact H|].
    cbn [i gen apply_verdict snd]. repeat split; auto; try lia.
Qed.

(* ----------------------------------------------------------------- *)
(** ** The whole scan *)

Lemma anchors_step fuel bt st :
  scan_cond bt st = true ->
  anchors (S fuel) bt (i st) =
  i st :: anchors fuel bt
            (if is_shot (window_at bt (i st))
             then i st + List.length (window_at bt (i st))
             else i st + 1)%nat.
Proof. unfold scan_cond. intro Hc. cbn [anchors]. now rewrite Hc. Qed.

(** The scan returns; its shots carry their windows as trajectories and
    the ids 1, 2, ...; it only advances the generator. *)
Lemma scan_returns bt g :
  exists st,
    scan bt g = Ok st /\
    draws (gen st) = draws g /\
    Forall (fun s => trajectory s <> []) (shots st) /\
    map id (shots st) = map Z.of_nat (seq 1 (List.length (shots st))).
Proof.
  set (Inv := fun st : scan_state =>
    draws (gen st) = draws g /\
    Forall (fun s => trajectory s <> []) (shots st) /\
    map id (shots st) = map Z.of_nat (seq 1 (List.length (shots st))) /\
    shot_id st = Z.of_nat (S (List.length (shots st)))).
  destruct (@while_rule _ (scan_cond bt) (scan_body bt) Inv
              (fun st => List.length bt - i st)%nat) with
    (fuel := List.length bt) (s := mkScan 0 1 [] g)
    as (st & Hrun & (Hd & Ht & Hid & _) & _).
  - intros st (Hd & Ht & Hid & Hsid) Hc.
    destruct (scan_body_progress bt st Hc) as (st' & Hb & Hi & _ & Hd' & _).
    exists st'. split; [exact Hb|]. split; [|lia].
    pose proof (scan_body_spec bt st Hc) as Hs. cbv zeta in Hs.
    destruct (verdict_of (window_at bt (i st))).
    + rewrite Hs in Hb. injection Hb as <-. now repeat split.
    + destruct Hs as (shot & Hs & Hsh & _ & _ & Hne).
      rewrite Hs in Hb. injection Hb as <-.
      split; [exact (eq_trans Hd' Hd)|]. cbn [gen shots shot_id].
      split; [apply Forall_app; split; [exact Ht|now constructor]|].
      rewrite length_app, Nat.add_1_r, seq_S, !map_app, Hid.
      cbn [map List.length]. rewrite Hsh, Hsid.
      split; [reflexivity|lia].
    + destruct Hs as (shot & Hs & Hsh & _ & _ & Hne).
      rewrite Hs in Hb. injection Hb as <-.
      split; [exact (eq_trans Hd' Hd)|]. cbn [gen shots shot_id].
      split; [apply Forall_app; split; [exact Ht|now constructor]|].
      rewrite length_app, Nat.add_1_r, seq_S, !map_app, Hid.
      cbn [map List.length]. rewrite Hsh, Hsid.
      split; [reflexivity|lia].
  - unfold Inv. cbn. repeat split. constructor.
  - cbn. lia.
  - exists st. now repeat split.
Qed.

(** While no examined window is a shot, the scan changes nothing but [i]. *)
Lemma while_no_shot bt fuel : forall st,
  (List.length bt - i st <= fuel)%nat ->
  Forall (fun k => is_shot (window_at bt k) = false)
         (anchors fuel bt (i st)) ->
  exists st',
    while fuel (scan_cond bt) (scan_body bt) st = Ok st' /\
    shots st' = shots st /\ gen st' = gen st.
Proof.
  induction fuel as [|fuel IH]; intros st Hm Hall; cbn [while];
    destruct (scan_cond bt st) eqn:Hc; try (exists st; now auto).
  - apply scan_cond_iff in Hc. lia.
  - rewrite (anchors_step fuel bt st Hc) in Hall.
    inversion Hall as [|? ? Hhd Htl]; subst. rewrite Hhd in Htl.
    pose proof (scan_body_spec bt st Hc) as Hs. cbv zeta in Hs.
    unfold is_shot in Hhd.
    destruct (verdict_of (window_at bt (i st))); try discriminate.
    rewrite Hs. cbn [bind].
    apply scan_cond_iff in Hc.
    destruct (IH (mkScan (i st + 1) (shot_id st) (shots st) (gen st)))
      as (st' & Hrun & Hsh & Hg); [cbn; lia|exact Htl|].
    exists st'. now repeat split.
Qed.

(** An iteration that does not flip the coin does the same for every
    generator, and leaves it as it was. *)
Lemma scan_body_set_gen bt st g2 :
  scan_cond bt st = true ->
  flips_coin (window_at bt (i st)) = false ->
  exists st',
    scan_body bt st = Ok st' /\ gen st' = gen st /\
    scan_body bt (set_gen st g2) = Ok (set_gen st' g2).
Proof.
  intros Hc Hflip.
  destruct (scan_body_progress bt st Hc) as (st' & Hb & _ & _ & _ & Hg).
  exists st'. split; [exact Hb|]. split; [now apply Hg|].
  pose proof (window_at_length bt (i st)) as Hlen.
  apply scan_cond_iff in Hc.
  unfold scan_body in *. cbn [set_gen i shot_id shots gen].
  fold (window_at bt (i st)) in *.
  destruct (len (window_at bt (i st)) >=? 5)%Z.
  - rewrite analyze_verdict in *. unfold flips_coin in Hflip.
    destruct (verdict_of (window_at bt (i st))) as [|out|];
      try discriminate; cbn [apply_verdict bind] in *.
    + injection Hb as <-. reflexivity.
    + destruct (index (window_at bt (i st)) 0); [|discriminate].
      destruct (index_last (window_at bt (i st))); [|discriminate].
      destruct (_calculate_shot_confidence (window_at bt (i st)) out);
        [|discriminate].
      cbn [bind] in *. injection Hb as <-. reflexivity.
  - injection Hb as <-. reflexivity.
Qed.

Lemma while_set_gen bt g2 fuel : forall st,
  (List.length bt - i st <= fuel)%nat ->
  Forall (fun k => flips_coin (window_at bt k) = false)
         (anchors fuel bt (i st)) ->
  exists st',
    while fuel (scan_cond bt) (scan_body bt) st = Ok st' /\
    gen st' = gen st /\
    while fuel (scan_cond bt) (scan_body bt) (set_gen st g2) =
      Ok (set_gen st' g2).
Proof.
  induction fuel as [|fuel IH]; intros st Hm Hall; cbn [while];
    change (scan_cond bt (set_gen st g2)) with (scan_cond bt st);
    destruct (scan_cond bt st) eqn:Hc; try (exists st; now auto).
  - apply scan_cond_iff in Hc. lia.
  - rewrite (anchors_step fuel bt st Hc) in Hall.
    inversion Hall as [|? ? Hhd Htl]; subst.
    destruct (scan_body_progress bt st Hc) as (st1 & Hb1 & Hi & Hnext & _).
    destruct (scan_body_set_gen bt st g2 Hc Hhd) as (st' & Hb & Hg & Hb2).
    assert (st1 = st') by congruence. subst st1.
    rewrite Hb, Hb2. cbn [bind]. rewrite <- Hnext in Htl.
    destruct (IH st') as (st'' & Hrun & Hg' & Hrun2); [lia|exact Htl|].
    exists st''. split; [exact Hrun|]. split; [congruence|exact Hrun2].
Qed.

(* ----------------------------------------------------------------- *)
(** ** The synthetic demo set *)

Lemma well_formed_draws g g' :
  draws g' = draws g -> well_formed g -> well_formed g'.
Proof. unfold well_formed. intros -> H. exact H. Qed.

Lemma random_range g :
  well_formed g -> (0 <= fst (random g) /\ fst (random g) < 1)%Q.
Proof. intro H. apply H. Qed.

Lemma random_well_formed g : well_formed g -> well_formed (snd (random g)).
Proof. now apply well_formed_draws. Qed.

Lemma uniform_well_formed a b g :
  well_formed g -> well_formed (snd (uniform a b g)).
Proof. now apply well_formed_draws. Qed.

Lemma around_well_formed cx dx cy dy g :
  well_formed g -> well_formed (snd (around cx dx cy dy g)).
Proof. now apply well_formed_draws. Qed.

Lemma choice_zone g :
  well_formed g ->
  exists z,
    choice mock_zones zone_weights g = Ok (z, snd (random g)) /\
    In z mock_zones.
Proof.
  intro Hwf. destruct (random_range Hwf) as [_ Hlt].
  unfold choice. destruct (random g) as [r g'] eqn:Hr. cbn [fst snd] in *.
  remember (cumsum_from 0 zone_weights) as cdf eqn:Hcdf.
  vm_compute in Hcdf. subst cdf.
  unfold searchsorted_right. cbn [filter].
  assert (Hlast : Qleb 1.000000000 r = false).
  { apply Qleb_gt. unfold Qlt in *. simpl in *. lia. }
  rewrite Hlast.
  split_ifs; cbn [List.length index nth_error mock_zones bind];
    eexists; (split; [reflexivity|]); simpl; tauto.
Qed.

(** One synthetic shot. *)
Lemma mock_shot_spec k g :
  well_formed g ->
  exists shot g',
    mock_shot k g = Ok (shot, g') /\ well_formed g' /\
    id shot = (k + 1)%Z /\ trajectory shot = [] /\
    (outcome shot = "make"%string \/ outcome shot = "miss"%string) /\
    (0.85 <= confidence shot /\ confidence shot <= 0.95)%Q.
Proof.
  intro Hwf. unfold mock_shot.
  destruct (choice_zone Hwf) as (z & -> & _). cbn [bind].
  apply random_well_formed in Hwf. revert Hwf.
  generalize (snd (random g)). intros g1 Hwf1.
  set (pos := if (z =? "right-wing")%string then _ else _).
  assert (Hwf2 : well_formed (snd pos)).
  { unfold pos. split_ifs; now apply around_well_formed. }
  destruct pos as [[x y] g2]. cbn [snd] in Hwf2.
  destruct (random g2) as [r g3] eqn:Hr.
  assert (Hwf3 : well_formed g3).
  { replace g3 with (snd (random g2)) by now rewrite Hr.
    now apply random_well_formed. }
  destruct (random_range Hwf3) as [H0 H1].
  unfold uniform. destruct (random g3) as [c g4] eqn:Hc.
  cbn [fst] in H0, H1.
  eexists _, _. split; [reflexivity|]. cbn [id trajectory outcome confidence].
  split.
  { replace g4 with (snd (random g3)) by now rewrite Hc.
    now apply random_well_formed. }
  split; [reflexivity|]. split; [reflexivity|]. split.
  - destruct (Qltb r _); [now left|now right].
  - split; lra.
Qed.

Lemma mock_loop_spec idxs : forall acc g,
  well_formed g ->
  exists shots g',
    mock_loop idxs acc g = Ok ((acc ++ shots)%list, g') /\ well_formed g' /\
    map id shots = map (fun k => (k + 1)%Z) idxs /\
    Forall (fun s =>
      trajectory s = [] /\
      (outcome s = "make"%string \/ outcome s = "miss"%string) /\
      (0.85 <= confidence s /\ confidence s <= 0.95)%Q) shots.
Proof.
  induction idxs as [|k idxs IH]; intros acc g Hwf; cbn [mock_loop].
  - exists [], g. rewrite app_nil_r.
    split; [reflexivity|]. split; [exact Hwf|]. split; [reflexivity|constructor].
  - destruct (mock_shot_spec k Hwf)
      as (shot & g1 & -> & Hwf1 & Hid & Htr & Hout & Hconf).
    cbn [bind].
    destruct (IH (acc ++ [shot])%list g1 Hwf1)
      as (shots & g' & -> & Hwf' & Hids & Hall).
    exists (shot :: shots), g'. rewrite <- app_assoc.
    split; [reflexivity|]. split; [exact Hwf'|].
    split; [cbn [map]; now rewrite Hid, Hids|].
    constructor; [|exact Hall].
    split; [exact Htr|]. split; [exact Hout|exact Hconf].
Qed.

Lemma generate_mock_shots_spec g :
  well_formed g ->
  exists mock g',
    _generate_mock_shots g = Ok (mock, g') /\
    List.length mock = 20%nat /\
    map id mock = map Z.of_nat (seq 1 20) /\
    Forall (fun s =>
      trajectory s = [] /\
      (outcome s = "make"%string \/ outcome s = "miss"%string) /\
      (0.85 <= confidence s /\ confidence s <= 0.95)%Q) mock.
Proof.
  intro Hwf. unfold _generate_mock_shots.
  destruct (mock_loop_spec (range 20) [] Hwf)
    as (mock & g' & Hrun & _ & Hids & Hall).
  exists mock, g'. split; [exact Hrun|]. split; [|split; [exact Hids|exact Hall]].
  apply (f_equal (@List.length _)) in Hids.
  now rewrite !length_map in Hids.
Qed.

(* ----------------------------------------------------------------- *)
(** ** Claims about the shot detector *)

Import Examples.

Lemma g_half_well_formed : well_formed g_half.
Proof. intro n. split; [discriminate|reflexivity]. Qed.

Lemma detect_shots_sparse bt g :
  (len bt < 10)%Z -> _detect_shots bt g = _generate_mock_shots g.
Proof.
  intro H. unfold _detect_shots. now rewrite (proj2 (Z.ltb_lt _ _) H).
Qed.

Lemma detect_shots_dense bt g st :
  (10 <= len bt)%Z -> scan bt g = Ok st ->
  _detect_shots bt g =
  match shots st with
  | [] => _generate_mock_shots (gen st)
  | _ => Ok (shots st, gen st)
  end.
Proof.
  intros H Hrun. unfold _detect_shots.
  now rewrite (proj2 (Z.ltb_ge _ _) H), Hrun.
Qed.

Lemma scan_gen_well_formed bt g st :
  well_formed g -> scan bt g = Ok st -> well_formed (gen st).
Proof.
  intros Hwf Hrun. destruct (scan_returns bt g) as (st' & Hrun' & Hd & _).
  assert (st' = st) by congruence. subst st'.
  exact (well_formed_draws (gen st) Hd Hwf).
Qed.

(** Where the detector falls back, its result is that of the generator of
    the synthetic set. *)
Lemma detect_shots_fallback bt g :
  well_formed g ->
  (len bt < 10)%Z \/ (exists st, scan bt g = Ok st /\ shots st = []) ->
  exists g0, well_formed g0 /\ _detect_shots bt g = _generate_mock_shots g0.
Proof.
  intros Hwf Hcase.
  destruct (Z.lt_ge_cases (len bt) 10) as [Hlt|Hge].
  - exists g. split; [exact Hwf|now apply detect_shots_sparse].
  - destruct Hcase as [Hlt|(st & Hrun & Hnil)]; [lia|].
    exists (gen st). split; [exact (@scan_gen_well_formed bt g st Hwf Hrun)|].
    now rewrite (@detect_shots_dense bt g st Hge Hrun), Hnil.
Qed.

(** The detector returns, and never an empty list. *)
Lemma detect_shots_nonempty bt g :
  well_formed g ->
  exists evs g', _detect_shots bt g = Ok (evs, g') /\ evs <> [].
Proof.
  intro Hwf.
  assert (Hmock : forall g0, well_formed g0 ->
            exists evs g', _generate_mock_shots g0 = Ok (evs, g') /\ evs <> []).
  { intros g0 H0.
    destruct (generate_mock_shots_spec H0) as (mock & g' & Hrun & Hlen & _).
    exists mock, g'. split; [exact Hrun|]. intros ->. discriminate. }
  destruct (Z.lt_ge_cases (len bt) 10) as [Hlt|Hge].
  - rewrite (@detect_shots_sparse bt g Hlt). now apply Hmock.
  - destruct (scan_returns bt g) as (st & Hrun & _).
    rewrite (@detect_shots_dense bt g st Hge Hrun).
    destruct (shots st) as [|s evs] eqn:Hsh.
    + apply Hmock. exact (@scan_gen_well_formed bt g st Hwf Hrun).
    + eexists _, _. split; [reflexivity|discriminate].
Qed.

(** C10. Whenever the synthetic fallback is taken the detector returns
    exactly 20 ShotEvents with ids 1 to 20, empty trajectories, outcome
    "make" or "miss" and confidence in [0.85, 0.95]; hence the list the
    detector returns is never empty, whatever the ball stream. *)
Theorem C10_synthetic_set : forall g,
  well_formed g ->
  let synthetic (evs : list ShotEvent) :=
    List.length evs = 20%nat /\
    map id evs = map Z.of_nat (seq 1 20) /\
    Forall (fun s =>
      trajectory s = [] /\
      (outcome s = "make"%string \/ outcome s = "miss"%string) /\
      (0.85 <= confidence s /\ confidence s <= 0.95)%Q) evs in
  (exists mock g', _generate_mock_shots g = Ok (mock, g') /\ synthetic mock) /\
  (forall bt,
     (len bt < 10)%Z \/ (exists st, scan bt g = Ok st /\ shots st = []) ->
     exists evs g', _detect_shots bt g = Ok (evs, g') /\ synthetic evs) /\
  (forall bt, exists evs g', _detect_shots bt g = Ok (evs, g') /\ evs <> []).
Proof.
  intros g Hwf synthetic.
  split; [|split].
  - destruct (generate_mock_shots_spec Hwf) as (mock & g' & Hrun & Hs).
    now exists mock, g'.
  - intros bt Hcase.
    destruct (@detect_shots_fallback bt g Hwf Hcase) as (g0 & Hwf0 & ->).
    destruct (generate_mock_shots_spec Hwf0) as (mock & g' & Hrun & Hs).
    now exists mock, g'.
  - intro bt. now apply detect_shots_nonempty.
Qed.

Lemma C10_synthetic_set_witness :
  well_formed g_half /\
  exists evs g', _detect_shots [] g_half = Ok (evs, g') /\ evs <> [].
Proof.
  split; [exact g_half_well_formed|].
  exact (proj2 (proj2 (@C10_synthetic_set g_half g_half_well_formed)) []).
Defined.

Lemma scan_no_qualifying_window bt g :
  no_qualifying_window bt ->
  exists st, scan bt g = Ok st /\ shots st = [] /\ gen st = g.
Proof.
  intro Hnone.
  destruct (@while_no_shot bt (List.length bt) (mkScan 0 1 [] g))
    as (st & Hrun & Hsh & Hg); [cbn; lia|exact Hnone|].
  now exists st.
Qed.

(** C6. With [is_shot] the verdict of the analysis on a window ("it
    qualifies"): the detector returns the synthetic demo set, and neither an
    exception nor an empty list, exactly when the ball stream has fewer than
    10 samples or the scan ends with no detected shot: its result is never
    empty, and it consists of trajectory-less (synthetic) events iff one of
    the two holds. In particular a stream of 9 samples falls back, and so
    does a stream of 10 samples with no qualifying window. *)
Theorem C6_fallback_exactly_when :
  (forall w g,
     exists out g', _analyze_trajectory w g = Ok ((is_shot w, out), g')) /\
  forall bt g,
  well_formed g ->
  (exists evs g',
     _detect_shots bt g = Ok (evs, g') /\ evs <> [] /\
     (Forall (fun s => trajectory s = []) evs <->
      (len bt < 10)%Z \/ exists st, scan bt g = Ok st /\ shots st = [])) /\
  ((len bt < 10)%Z -> _detect_shots bt g = _generate_mock_shots g) /\
  (forall st, (10 <= len bt)%Z -> scan bt g = Ok st ->
     (shots st = [] -> _detect_shots bt g = _generate_mock_shots (gen st)) /\
     (shots st <> [] -> _detect_shots bt g = Ok (shots st, gen st))) /\
  (List.length bt = 9%nat -> _detect_shots bt g = _generate_mock_shots g) /\
  (List.length bt = 10%nat -> no_qualifying_window bt ->
   _detect_shots bt g = _generate_mock_shots g).
Proof.
  split; [exact is_shot_spec|].
  intros bt g Hwf.
  split; [|split; [|split; [|split]]].
  - destruct (@detect_shots_nonempty bt g Hwf) as (evs & g' & Hrun & Hne).
    exists evs, g'. split; [exact Hrun|]. split; [exact Hne|]. split.
    + intros Hsyn.
      destruct (Z.lt_ge_cases (len bt) 10) as [Hlt|Hge]; [now left|right].
      destruct (scan_returns bt g) as (st & Hscan & _ & Htraj & _).
      exists st. split; [exact Hscan|].
      rewrite (@detect_shots_dense bt g st Hge Hscan) in Hrun.
      destruct (shots st) as [|s rest] eqn:Hsh; [reflexivity|].
      injection Hrun as <- _.
      inversion Hsyn; subst. inversion Htraj; subst. contradiction.
    + intros Hcase.
      destruct (@detect_shots_fallback bt g Hwf Hcase) as (g0 & Hwf0 & Heq).
      destruct (generate_mock_shots_spec Hwf0)
        as (mock & g'' & Hmock & _ & _ & Hall).
      assert (mock = evs) by congruence. subst mock.
      eapply Forall_impl; [|exact Hall]. now intros s (? & _).
  - apply detect_shots_sparse.
  - intros st Hge Hscan. rewrite (@detect_shots_dense bt g st Hge Hscan).
    split; [now intros ->|]. now destruct (shots st).
  - intros H9. apply detect_shots_sparse. unfold len. lia.
  - intros H10 Hnone.
    destruct (scan_no_qualifying_window g Hnone) as (st & Hscan & Hsh & Hg).
    rewrite (@detect_shots_dense bt g st) by (unfold len; lia || exact Hscan).
    now rewrite Hsh, Hg.
Qed.

Lemma C6_fallback_exactly_when_witness :
  well_formed g_half /\
  List.length (still_track 9) = 9%nat /\
  _detect_shots (still_track 9) g_half = _generate_mock_shots g_half /\
  List.length (still_track 10) = 10%nat /\
  no_qualifying_window (still_track 10) /\
  _detect_shots (still_track 10) g_half = _generate_mock_shots g_half.
Proof.
  assert (Hnone : no_qualifying_window (still_track 10)).
  { unfold no_qualifying_window.
    change (visited (still_track 10)) with [0; 1; 2; 3; 4]%nat.
    repeat constructor. }
  split; [exact g_half_well_formed|]. split; [reflexivity|]. split.
  - exact (proj1 (proj2 (proj2 (proj2
             (proj2 C6_fallback_exactly_when (still_track 9) g_half
                g_half_well_formed)))) eq_refl).
  - split; [reflexivity|]. split; [exact Hnone|].
    exact (proj2 (proj2 (proj2 (proj2
             (proj2 C6_fallback_exactly_when (still_track 10) g_half
                g_half_well_formed)))) eq_refl Hnone).
Defined.

(** C9. [flips_coin] marks the windows whose analysis reaches the
    ambiguous-outcome branch, where it consumes a draw. On a stream of at
    least 10 samples in which no examined window does, the scan never
    consults the random generator: two runs find the same ShotEvents (ids,
    outcomes, zones, confidences and all other fields), which the detector
    returns whenever there is one, whatever the seeds; with the same seed
    the two runs return the same list in every case. *)
Theorem C9_detector_deterministic :
  (forall w g,
     exists r,
       _analyze_trajectory w g =
       Ok (r, if flips_coin w then snd (random g) else g)) /\
  forall bt g1 g2,
  (10 <= len bt)%Z ->
  no_coin_flip bt ->
  (exists st1 st2,
     scan bt g1 = Ok st1 /\ scan bt g2 = Ok st2 /\
     shots st1 = shots st2 /\ gen st1 = g1 /\ gen st2 = g2 /\
     (shots st1 <> [] ->
      _detect_shots bt g1 = Ok (shots st1, g1) /\
      _detect_shots bt g2 = Ok (shots st1, g2))) /\
  (g1 = g2 -> _detect_shots bt g1 = _detect_shots bt g2).
Proof.
  split; [exact flips_coin_spec|].
  intros bt g1 g2 Hlen Hflip. split; [|now intros ->].
  destruct (@while_set_gen bt g2 (List.length bt) (mkScan 0 1 [] g1))
    as (st1 & Hrun1 & Hg1 & Hrun2); [cbn; lia|exact Hflip|].
  exists st1, (set_gen st1 g2).
  split; [exact Hrun1|]. split; [exact Hrun2|].
  split; [reflexivity|]. split; [exact Hg1|]. split; [reflexivity|].
  intro Hne.
  rewrite (@detect_shots_dense bt g1 st1 Hlen Hrun1).
  rewrite (@detect_shots_dense bt g2 (set_gen st1 g2) Hlen Hrun2).
  cbn [set_gen shots gen] in *.
  destruct (shots st1); [congruence|]. now rewrite Hg1.
Qed.

Lemma C9_detector_deterministic_witness :
  (10 <= len rising_track)%Z /\
  no_coin_flip rising_track /\
  exists evs,
    evs <> [] /\
    _detect_shots rising_track g_half = Ok (evs, g_half) /\
    _detect_shots rising_track null_rng = Ok (evs, null_rng).
Proof.
  assert (Hlen : (10 <= len rising_track)%Z) by discriminate.
  assert (Hflip : no_coin_flip rising_track).
  { unfold no_coin_flip.
    change (visited rising_track) with [0%nat].
    repeat constructor. }
  split; [exact Hlen|]. split; [exact Hflip|].
  destruct (proj2 C9_detector_deterministic rising_track g_half null_rng
              Hlen Hflip)
    as ((st1 & st2 & Hrun1 & _ & _ & _ & _ & Hdet) & _).
  exists (shots st1).
  assert (Hne : shots st1 <> []).
  { vm_compute in Hrun1. injection Hrun1 as <-. discriminate. }
  split; [exact Hne|]. exact (Hdet Hne).
Defined.

(* ----------------------------------------------------------------- *)
(** ** The tracker: distances *)

Import Tracker TrackerSpec.

Lemma distance_radicand pos last_pos :
  distance pos last_pos = Dist.Sqrt (radicand pos last_pos).
Proof. reflexivity. Qed.

Lemma Q2R_radicand pos lp :
  Q2R (radicand pos lp) =
  ((Q2R (fst pos) - Q2R (fst lp)) * (Q2R (fst pos) - Q2R (fst lp)) +
   (Q2R (snd pos) - Q2R (snd lp)) * (Q2R (snd pos) - Q2R (snd lp)))%R.
Proof.
  unfold radicand.
  change ((fst pos - fst lp) ^ 2)%Q
    with ((fst pos - fst lp) * (fst pos - fst lp))%Q.
  change ((snd pos - snd lp) ^ 2)%Q
    with ((snd pos - snd lp) * (snd pos - snd lp))%Q.
  now rewrite Q2R_plus, !Q2R_mult, !Q2R_minus.
Qed.

Lemma radicand_nonneg pos lp : (0 <= Q2R (radicand pos lp))%R.
Proof.
  rewrite Q2R_radicand.
  apply Rplus_le_le_0_compat; apply Rle_0_sqr.
Qed.

Lemma euclid_radicand pos lp : euclid pos lp = sqrt (Q2R (radicand pos lp)).
Proof. unfold euclid. now rewrite Q2R_radicand. Qed.


Lemma value_hundred : value (Dist.of_Q 100) = 100%R.
Proof.
  unfold Dist.of_Q, value. rewrite Q2R_mult.
  replace (Q2R 100) with 100%R by (unfold Q2R; cbn [Qnum Qden]; field).
  apply sqrt_square. apply (IZR_le 0 100). lia.
Qed.

Lemma radicand_lt_iff pos a b :
  (radicand pos a < radicand pos b)%Q <-> (euclid pos a < euclid pos b)%R.
Proof.
  rewrite !euclid_radicand. split; intro H.
  - apply sqrt_lt_1_alt. split; [apply radicand_nonneg|now apply Qlt_Rlt].
  - apply Rlt_Qlt. now apply sqrt_lt_0_alt.
Qed.

Lemma radicand_le_iff pos a b :
  (radicand pos a <= radicand pos b)%Q <-> (euclid pos a <= euclid pos b)%R.
Proof.
  rewrite !euclid_radicand. split; intro H.
  - apply sqrt_le_1_alt. now apply Qle_Rle.
  - apply Rle_Qle. apply sqrt_le_0; [apply radicand_nonneg..|exact H].
Qed.

Lemma radicand_near_iff pos a :
  (radicand pos a < 100 * 100)%Q <-> (euclid pos a < 100)%R.
Proof.
  rewrite euclid_radicand, <- value_hundred.
  unfold Dist.of_Q, value. split; intro H.
  - apply sqrt_lt_1_alt. split; [apply radicand_nonneg|now apply Qlt_Rlt].
  - apply Rlt_Qlt. now apply sqrt_lt_0_alt.
Qed.


(* ----------------------------------------------------------------- *)
(** ** The tracker: the matching loop *)

Lemma match_loop_best pos items : forall seen matched_id min_dist,
  best_so_far pos seen (matched_id, min_dist) ->
  best_so_far pos (seen ++ items)
              (match_loop items pos matched_id min_dist).
Proof.
  induction items as [|[pid lp] items IH]; intros seen m d Hacc.
  - now rewrite app_nil_r.
  - cbn [match_loop]. rewrite distance_radicand.
    replace (seen ++ (pid, lp) :: items)%list
      with ((seen ++ [(pid, lp)]) ++ items)%list
      by (now rewrite <- app_assoc).
    unfold Dist.of_Q. cbn [Dist.ltb].
    destruct (Qltb (radicand pos lp) (100 * 100)) eqn:Hnear; cbn [andb].
    + apply Qltb_lt in Hnear.
      destruct m as [pid0|]; cbn [best_so_far fst snd] in Hacc.
      * destruct Hacc as (pre & lp0 & post & -> & -> & Hn0 & Hpre & Hpost).
        cbn [Dist.ltb].
        destruct (Qltb (radicand pos lp) (radicand pos lp0)) eqn:Hlt.
        -- apply Qltb_lt in Hlt. apply IH. cbn [best_so_far fst snd].
           exists (pre ++ (pid0, lp0) :: post)%list, lp, [].
           split; [reflexivity|]. split; [reflexivity|].
           split; [exact Hnear|]. split; [|intros ? []].
           intros e He Hne. apply in_app_iff in He.
           destruct He as [He|[<-|He]].
           ++ eapply Qlt_trans; [exact Hlt|now apply Hpre].
           ++ exact Hlt.
           ++ eapply Qlt_le_trans; [exact Hlt|now apply Hpost].
        -- apply Qltb_ge in Hlt. apply IH. cbn [best_so_far fst snd].
           exists pre, lp0, (post ++ [(pid, lp)])%list.
           split; [now rewrite <- app_assoc|]. split; [reflexivity|].
           split; [exact Hn0|]. split; [exact Hpre|].
           intros e He Hne. apply in_app_iff in He.
           destruct He as [He|[<-|[]]]; [now apply Hpost|exact Hlt].
      * destruct Hacc as (-> & Hnone). cbn [Dist.ltb].
        apply IH. cbn [best_so_far fst snd].
        exists seen, lp, []. split; [reflexivity|]. split; [reflexivity|].
        split; [exact Hnear|]. split; [|intros ? []].
        intros e He Hne. exfalso. exact (Hnone e He Hne).
    + apply Qltb_ge in Hnear. apply IH.
      destruct m as [pid0|]; cbn [best_so_far fst snd] in *.
      * destruct Hacc as (pre & lp0 & post & -> & -> & Hn0 & Hpre & Hpost).
        exists pre, lp0, (post ++ [(pid, lp)])%list.
        split; [now rewrite <- app_assoc|]. split; [reflexivity|].
        split; [exact Hn0|]. split; [exact Hpre|].
        intros e He Hne. apply in_app_iff in He.
        destruct He as [He|[<-|[]]]; [now apply Hpost|].
        exfalso. exact (Qlt_not_le _ _ Hne Hnear).
      * destruct Hacc as (-> & Hnone). split; [reflexivity|].
        intros e He Hne. apply in_app_iff in He.
        destruct He as [He|[<-|[]]]; [exact (Hnone e He Hne)|].
        exact (Qlt_not_le _ _ Hne Hnear).
Qed.

Lemma closest_track_spec st pos :
  match closest_track st pos with
  | Some pid => closest_first (last_player_positions st) pos pid
  | None =>
      forall e, In e (last_player_positions st) ->
                ~ (euclid pos (snd e) < 100)%R
  end.
Proof.
  unfold closest_track.
  pose proof (@match_loop_best pos (last_player_positions st) [] None Dist.Inf)
    as H.
  cbn [app] in H.
  destruct (match_loop (last_player_positions st) pos None Dist.Inf)
    as [[pid|] d]; cbn [best_so_far fst snd] in *.
  - destruct H as (pre & lp & post & Heq & _ & Hn & Hpre & Hpost);
      [split; [reflexivity|intros ? []]|].
    exists pre, lp, post. split; [exact Heq|].
    split; [now apply radicand_near_iff|]. split.
    + intros e He Hne. apply radicand_lt_iff. apply Hpre; [exact He|].
      now apply radicand_near_iff.
    + intros e He Hne. apply radicand_le_iff. apply Hpost; [exact He|].
      now apply radicand_near_iff.
  - destruct H as (_ & Hnone); [split; [reflexivity|intros ? []]|].
    intros e He Hne. apply (Hnone e He). now apply radicand_near_iff.
Qed.

(* ----------------------------------------------------------------- *)
(** ** The tracker: the track table *)

Section DictMore.

Context {K V : Type} (eqb : K -> K -> bool).
Hypothesis eqb_eq : forall a b, eqb a b = true <-> a = b.

Lemma dict_setitem_absent (d : list (K * V)) k v :
  dict_in eqb d k = false -> dict_setitem eqb d k v = (d ++ [(k, v)])%list.
Proof.
  induction d as [|[k' w] d IH]; simpl; [reflexivity|].
  destruct (eqb k' k); simpl; [discriminate|].
  intro H. now rewrite IH.
Qed.

Lemma dict_setitem_twice (d : list (K * V)) k v v' :
  dict_setitem eqb (dict_setitem eqb d k v) k v' = dict_setitem eqb d k v'.
Proof.
  induction d as [|[k' w] d IH]; simpl.
  - now rewrite (eqb_refl' eqb eqb_eq).
  - destruct (eqb k' k) eqn:E; simpl; rewrite E; [reflexivity|].
    now rewrite IH.
Qed.

Lemma dict_getitem_setitem (d : list (K * V)) k v :
  dict_getitem eqb (dict_setitem eqb d k v) k = Ok v.
Proof.
  rewrite (dict_in_getitem eqb _ _ v (dict_in_setitem_same eqb eqb_eq d k v)).
  now rewrite (dict_get_setitem_same eqb eqb_eq).
Qed.

End DictMore.

Lemma fresh_id_not_in n : ~ In (Z.of_nat n) (map Z.of_nat (seq 0 n)).
Proof.
  intro H. apply in_map_iff in H. destruct H as (k & Hk & Hin).
  apply in_seq in Hin. lia.
Qed.

Lemma ids_below n k : In k (map Z.of_nat (seq 0 n)) -> (0 <= k < Z.of_nat n)%Z.
Proof.
  intro H. apply in_map_iff in H. destruct H as (j & <- & Hin).
  apply in_seq in Hin. lia.
Qed.

Lemma consistent_init : consistent init.
Proof. exists 0%nat. now repeat split. Qed.

(** What the tracker does with a person detection. *)
Lemma track_person_spec f t st obj :
  consistent st ->
  class obj = "person"%string ->
  let pos := (center_x (bbox obj), center_y (bbox obj)) in
  let smp := sample_of f t obj in
  exists st',
    track_object f t st obj = Ok st' /\
    consistent st' /\
    ball (tracks st') = ball (tracks st) /\
    match closest_track st pos with
    | Some pid =>
        exists track,
          dict_getitem Z.eqb (players (tracks st)) pid = Ok track /\
          players (tracks st') =
            dict_setitem Z.eqb (players (tracks st)) pid (track ++ [smp]) /\
          last_player_positions st' =
            dict_setitem Z.eqb (last_player_positions st) pid pos /\
          map fst (players (tracks st')) = map fst (players (tracks st)) /\
          player_id st' = player_id st
    | None =>
        players (tracks st') =
          (players (tracks st) ++ [(player_id st, [smp])])%list /\
        last_player_positions st' =
          (last_player_positions st ++ [(player_id st, pos)])%list /\
        player_id st' = (player_id st + 1)%Z /\
        forall k, In k (map fst (players (tracks st))) ->
                  (k < player_id st)%Z
    end.
Proof.
  intros (n & Hid & Hpl & Hlp) Hclass pos smp.
  unfold track_object. rewrite Hclass. cbn [String.eqb Ascii.eqb Bool.eqb].
  fold pos. fold smp.
  pose proof (closest_track_spec st pos) as Hclosest.
  destruct (closest_track st pos) as [pid|].
  - destruct Hclosest as (pre & lp & post & Heq & _).
    assert (HinL : dict_in Z.eqb (last_player_positions st) pid = true).
    { apply (dict_in_keys Z.eqb Z.eqb_eq). rewrite Heq, map_app.
      apply in_app_iff. right. now left. }
    assert (HinP : dict_in Z.eqb (players (tracks st)) pid = true).
    { apply (dict_in_keys Z.eqb Z.eqb_eq). rewrite Hpl, <- Hlp.
      now apply (dict_in_keys Z.eqb Z.eqb_eq). }
    rewrite (dict_in_getitem Z.eqb _ _ [] HinP). cbn [bind].
    eexists. split; [reflexivity|]. cbn [tracks players ball
      last_player_positions player_id].
    split.
    + exists n. cbn [tracks players last_player_positions player_id].
      rewrite !(keys_setitem Z.eqb), HinL, HinP. now repeat split.
    + split; [reflexivity|].
      eexists. split; [reflexivity|]. split; [reflexivity|].
      split; [reflexivity|]. split; [|reflexivity].
      now rewrite (keys_setitem Z.eqb), HinP.
  - assert (HnP : dict_in Z.eqb (players (tracks st)) (player_id st) = false).
    { destruct (dict_in Z.eqb (players (tracks st)) (player_id st)) eqn:E;
        [|reflexivity].
      apply (dict_in_keys Z.eqb Z.eqb_eq) in E. rewrite Hpl, Hid in E.
      now apply fresh_id_not_in in E. }
    assert (HnL : dict_in Z.eqb (last_player_positions st) (player_id st)
                  = false).
    { destruct (dict_in Z.eqb (last_player_positions st) (player_id st)) eqn:E;
        [|reflexivity].
      apply (dict_in_keys Z.eqb Z.eqb_eq) in E. rewrite Hlp, Hid in E.
      now apply fresh_id_not_in in E. }
    rewrite (dict_getitem_setitem Z.eqb Z.eqb_eq). cbn [bind app].
    rewrite (dict_setitem_twice Z.eqb Z.eqb_eq).
    rewrite (dict_setitem_absent Z.eqb _ _ _ HnP).
    rewrite (dict_setitem_absent Z.eqb _ _ _ HnL).
    eexists. split; [reflexivity|]. cbn [tracks players ball
      last_player_positions player_id].
    split.
    + exists (S n). cbn [tracks players last_player_positions player_id].
      rewrite !map_app, Hpl, Hlp, Hid, seq_S, map_app.
      cbn [map fst Nat.add]. repeat split. lia.
    + split; [reflexivity|]. split; [reflexivity|]. split; [reflexivity|].
      split; [reflexivity|].
      intros k Hk. rewrite Hpl in Hk. apply ids_below in Hk. lia.
Qed.





(* ----------------------------------------------------------------- *)
(** ** Claim about the tracker *)



(* ================================================================= *)
(** * Further properties of the code *)

Import Props.

(* ----------------------------------------------------------------- *)
(** ** The confidence score *)

Lemma confidence_value first tail out :
  _calculate_shot_confidence (first :: tail) out =
  Ok (Py.min (0.7 + Py.min (inject_Z (len (first :: tail)) / 15) 0.15
              + Py.max 0 (0.15 - final_offset first tail)) 0.98)%Q.
Proof.
  unfold _calculate_shot_confidence. rewrite index_last_Ok. reflexivity.
Qed.

Lemma len_as_Q {A} (w : list A) n :
  (n <= List.length w)%nat -> (inject_Z (Z.of_nat n) <= inject_Z (len w))%Q.
Proof. intro H. unfold len, Qle. simpl. lia. Qed.

Lemma confidence_range first tail out :
  (3 <= List.length (first :: tail))%nat ->
  exists c,
    _calculate_shot_confidence (first :: tail) out = Ok c /\
    (0.85 <= c /\ c <= 0.98)%Q.
Proof.
  intro H3. rewrite confidence_value. eexists. split; [reflexivity|].
  assert (Hd : (0 <= final_offset first tail)%Q) by apply Qabs_nonneg.
  assert (HL : (3 <= inject_Z (len (first :: tail)))%Q).
  { apply (@len_as_Q _ (first :: tail) 3 H3). }
  set (d := final_offset first tail) in *.
  set (L := inject_Z (len (first :: tail))) in *.
  unfold Py.min, Py.max, Qdiv. change (/ 15)%Q with (1 # 15)%Q.
  destruct (Qltb 0.15 _) eqn:E1; reflect_Q; [|exfalso; lra].
  destruct (Qltb 0 (0.15 - d)) eqn:E2;
    destruct (Qltb 0.98 _) eqn:E3; reflect_Q; split; lra.
Qed.

(** X1. [_calculate_shot_confidence] raises IndexError on an empty window.
    On any other window it returns a score above 0.7 and at most 0.98; as
    soon as the window has three samples the point bonus is saturated, and
    the score only depends on the distance [d] of the last sample to the
    centre line: 0.98 when [d <= 0.02], [1 - d] when [0.02 <= d <= 0.15],
    0.85 beyond. *)
Theorem X1_confidence_score : forall first tail out,
  _calculate_shot_confidence [] out = Raise IndexError /\
  exists c,
    _calculate_shot_confidence (first :: tail) out = Ok c /\
    (0.7 < c /\ c <= 0.98)%Q /\
    ((3 <= List.length (first :: tail))%nat ->
     let d := final_offset first tail in
     (0.85 <= c)%Q /\
     ((d <= 0.02)%Q -> (c == 0.98)%Q) /\
     ((0.02 <= d)%Q -> (d <= 0.15)%Q -> (c == 1 - d)%Q) /\
     ((0.15 <= d)%Q -> (c == 0.85)%Q)).
Proof.
  intros first tail out. split; [reflexivity|].
  rewrite confidence_value. eexists. split; [reflexivity|].
  assert (Hd : (0 <= final_offset first tail)%Q) by apply Qabs_nonneg.
  assert (H1 : (1 <= inject_Z (len (first :: tail)))%Q).
  { apply (@len_as_Q _ (first :: tail) 1). simpl. lia. }
  set (d := final_offset first tail) in *.
  set (L := inject_Z (len (first :: tail))) in *.
  unfold Py.min, Py.max, Qdiv. change (/ 15)%Q with (1 # 15)%Q.
  split.
  - destruct (Qltb 0.15 _) eqn:E1, (Qltb 0 (0.15 - d)) eqn:E2;
      destruct (Qltb 0.98 _) eqn:E3; reflect_Q; split; lra.
  - intro H3.
    assert (HL : (3 <= L)%Q) by (apply (@len_as_Q _ (first :: tail) 3 H3)).
    destruct (Qltb 0.15 _) eqn:E1; reflect_Q; [|exfalso; lra].
    destruct (Qltb 0 (0.15 - d)) eqn:E2;
      destruct (Qltb 0.98 _) eqn:E3; reflect_Q;
      repeat split; intros; try lra;
      apply Qle_antisym; lra.
Qed.

(* ----------------------------------------------------------------- *)
(** ** What the scan detects *)

Lemma verdict_outcome w out :
  verdict_of w = Decided out -> out = "make"%string \/ out = "miss"%string.
Proof.
  destruct (window_shape w) as [Hshort|(p0 & p1 & p2 & p3 & p4 & rest & ->)].
  - now rewrite (verdict_short w Hshort).
  - unfold verdict_of. rewrite analyze_unfold.
    change (Qgtb (fst (random null_rng)) 0.45) with false.
    repeat match goal with
           | |- context [Qgtb ?a ?b] => destruct (Qgtb a b)
           | |- context [Qltb ?a ?b] => destruct (Qltb a b)
           | |- context [(?a <? ?b)%Z] => destruct (a <? b)%Z
           end; cbn; intro H; try discriminate; injection H as <-; auto.
Qed.

Lemma apply_verdict_outcome v g :
  v <> NotShot -> (forall out, v = Decided out ->
                     out = "make"%string \/ out = "miss"%string) ->
  snd (fst (apply_verdict v g)) = "make"%string \/
  snd (fst (apply_verdict v g)) = "miss"%string.
Proof.
  intros Hne Hdec. destruct v as [|out|]; [congruence|now apply Hdec|].
  cbn [apply_verdict fst snd]. destruct (Qgtb _ _); auto.
Qed.

(** An iteration that finds a shot appends the ShotEvent of its window. *)
Lemma scan_body_shot bt st :
  scan_cond bt st = true ->
  is_shot (window_at bt (i st)) = true ->
  exists shot g',
    scan_body bt st =
      Ok (mkScan (i st + List.length (window_at bt (i st))) (shot_id st + 1)
                 (shots st ++ [shot]) g') /\
    id shot = shot_id st /\
    built_from bt (i st) shot /\
    (outcome shot = "make"%string \/ outcome shot = "miss"%string) /\
    (0.85 <= confidence shot /\ confidence shot <= 0.98)%Q.
Proof.
  intros Hc Hshot. apply scan_cond_iff in Hc.
  pose proof (window_at_length bt (i st)) as Hlen.
  unfold scan_body. fold (window_at bt (i st)).
  assert (E : (len (window_at bt (i st)) >=? 5)%Z = true).
  { apply Z.geb_le. unfold len. lia. }
  rewrite E, analyze_verdict.
  unfold is_shot in Hshot.
  assert (Hout := @apply_verdict_outcome (verdict_of (window_at bt (i st)))
                    (gen st)).
  destruct (apply_verdict (verdict_of (window_at bt (i st))) (gen st))
    as [[b out] g'] eqn:Hv.
  assert (Hb : b = true).
  { destruct (verdict_of (window_at bt (i st))); try discriminate;
      cbn in Hv; now injection Hv as <- _ _. }
  subst b. cbn [bind fst snd] in *.
  destruct (window_at bt (i st)) as [|first tail] eqn:Hw;
    [cbn [List.length] in Hlen; lia|].
  change (index (first :: tail) 0) with (Ok first). cbn [bind].
  rewrite index_last_Ok. cbn [bind].
  destruct (@confidence_range first tail out) as (c & Hconf & Hrange).
  { rewrite Hlen. lia. }
  rewrite Hconf. cbn [bind].
  eexists _, g'. split; [reflexivity|].
  cbn [id outcome confidence]. split; [reflexivity|]. split.
  - exists first, tail. rewrite Hw. now repeat split.
  - split; [|exact Hrange].
    apply Hout.
    + destruct (verdict_of (first :: tail)); [discriminate|congruence..].
    + intros o Ho. now apply (@verdict_outcome (first :: tail)).
Qed.

Lemma StronglySorted_snoc {A} (R : A -> A -> Prop) l x :
  StronglySorted R l -> Forall (fun y => R y x) l ->
  StronglySorted R (l ++ [x]).
Proof.
  induction 1 as [|a l Hs IH Ha]; intro Hx; simpl.
  - repeat constructor.
  - inversion Hx; subst. constructor; [now apply IH|].
    apply Forall_app. split; [exact Ha|now constructor].
Qed.

Lemma built_from_length bt p s :
  (p + 5 < List.length bt)%nat -> built_from bt p s ->
  List.length (trajectory s) = List.length (window_at bt p) /\
  (6 <= List.length (trajectory s) <= 15)%nat.
Proof.
  intros Hp (first & tail & _ & Htr & _).
  rewrite Htr. unfold coords. rewrite length_map, window_at_length.
  split; [reflexivity|lia].
Qed.

(** The scan as a whole: the ShotEvents it returns are built from windows
    at increasing positions that do not overlap. *)
Lemma scan_shots_spec bt g :
  exists st ps,
    scan bt g = Ok st /\
    draws (gen st) = draws g /\
    map id (shots st) = map Z.of_nat (seq 1 (List.length (shots st))) /\
    Forall2 (built_from bt) ps (shots st) /\
    Forall (fun p => (p + 5 < List.length bt)%nat) ps /\
    StronglySorted
      (fun p q => (p + List.length (window_at bt p) <= q)%nat) ps /\
    Forall (fun p => (p + List.length (window_at bt p) <= List.length bt)%nat)
           ps /\
    Forall (fun s =>
      (outcome s = "make"%string \/ outcome s = "miss"%string) /\
      (0.85 <= confidence s /\ confidence s <= 0.98)%Q) (shots st).
Proof.
  set (Inv := fun st : scan_state =>
    (i st <= List.length bt)%nat /\
    draws (gen st) = draws g /\
    shot_id st = Z.of_nat (S (List.length (shots st))) /\
    map id (shots st) = map Z.of_nat (seq 1 (List.length (shots st))) /\
    Forall (fun s =>
      (outcome s = "make"%string \/ outcome s = "miss"%string) /\
      (0.85 <= confidence s /\ confidence s <= 0.98)%Q) (shots st) /\
    exists ps,
      Forall2 (built_from bt) ps (shots st) /\
      Forall (fun p => (p + 5 < List.length bt)%nat) ps /\
      StronglySorted
        (fun p q => (p + List.length (window_at bt p) <= q)%nat) ps /\
      Forall (fun p => (p + List.length (window_at bt p) <= i st)%nat) ps).
  destruct (@while_rule _ (scan_cond bt) (scan_body bt) Inv
              (fun st => List.length bt - i st)%nat) with
    (fuel := List.length bt) (s := mkScan 0 1 [] g)
    as (st & Hrun & (Hi & Hd & _ & Hid & Hall & ps & Hb & Hp & Hs & He) & _).
  - intros st (Hi & Hd & Hsid & Hid & Hall & ps & Hb & Hp & Hs & He) Hc.
    destruct (scan_body_progress bt st Hc) as (st' & Hrun & Hlt & Hnext & Hd' & _).
    exists st'. split; [exact Hrun|]. split; [|lia].
    destruct (is_shot (window_at bt (i st))) eqn:Hshot.
    + destruct (scan_body_shot bt st Hc Hshot)
        as (shot & g' & Hrun' & Hsh & Hbuilt & Hout & Hconf).
      rewrite Hrun' in Hrun. injection Hrun as <-.
      unfold Inv. cbn [i gen shots shot_id] in *.
      split; [lia|]. split; [congruence|].
      rewrite length_app, Nat.add_1_r, seq_S, !map_app, Hid.
      cbn [map List.length]. rewrite Hsh, Hsid.
      split; [lia|]. split; [reflexivity|].
      split; [apply Forall_app; split; [exact Hall|]|].
      { constructor; [split; [exact Hout|exact Hconf]|constructor]. }
      exists (ps ++ [i st])%list.
      split; [apply Forall2_app; [exact Hb|]|].
      { constructor; [exact Hbuilt|constructor]. }
      apply scan_cond_iff in Hc.
      split; [apply Forall_app; split; [exact Hp|]|].
      { constructor; [exact Hc|constructor]. }
      split; [now apply StronglySorted_snoc|].
      apply Forall_app. split; [|constructor; [lia|constructor]].
      eapply Forall_impl; [|exact He]. cbn. intros; lia.
    + pose proof (scan_body_spec bt st Hc) as Hsp. cbv zeta in Hsp.
      unfold is_shot in Hshot.
      destruct (verdict_of (window_at bt (i st))); try discriminate.
      rewrite Hsp in Hrun. injection Hrun as <-.
      unfold Inv. cbn [i gen shots shot_id] in *.
      split; [lia|]. split; [exact Hd|]. split; [exact Hsid|].
      split; [exact Hid|]. split; [exact Hall|].
      exists ps. split; [exact Hb|]. split; [exact Hp|]. split; [exact Hs|].
      eapply Forall_impl; [|exact He]. cbn. intros; lia.
  - unfold Inv. cbn. split; [lia|]. split; [reflexivity|].
    split; [reflexivity|]. split; [reflexivity|]. split; [constructor|].
    exists []. repeat split; constructor.
  - cbn. lia.
  - exists st, ps. split; [exact Hrun|]. split; [exact Hd|].
    split; [exact Hid|]. split; [exact Hb|]. split; [exact Hp|].
    split; [exact Hs|]. split; [|exact Hall].
    eapply Forall_impl; [|exact He]. cbn. intros; lia.
Qed.

Lemma disjoint_windows_sum (wl : nat -> nat) B ps : forall lo,
  (lo <= B)%nat ->
  Forall (fun p => (lo <= p)%nat) ps ->
  StronglySorted (fun p q => (p + wl p <= q)%nat) ps ->
  Forall (fun p => (p + wl p <= B)%nat) ps ->
  (lo + list_sum (map wl ps) <= B)%nat.
Proof.
  induction ps as [|p ps IH]; intros lo Hlo Hge Hs Hb; simpl; [lia|].
  inversion Hge; subst. inversion Hs; subst. inversion Hb; subst.
  assert (H := IH (p + wl p)%nat ltac:(assumption) ltac:(assumption)
                  ltac:(assumption) ltac:(assumption)).
  lia.
Qed.

Lemma trajectory_lengths bt ps evs :
  Forall (fun p => (p + 5 < List.length bt)%nat) ps ->
  Forall2 (built_from bt) ps evs ->
  map (fun s => List.length (trajectory s)) evs =
    map (fun p => List.length (window_at bt p)) ps /\
  Forall (fun s => (6 <= List.length (trajectory s) <= 15)%nat) evs.
Proof.
  intros Hp Hb. induction Hb as [|p s ps evs Hps _ IH]; simpl.
  - split; constructor.
  - inversion Hp; subst.
    destruct (built_from_length H1 Hps) as [Hlen Hrange].
    destruct (IH H2) as [Hmap Hall].
    split; [now rewrite Hlen, Hmap|now constructor].
Qed.

(** X2. The scan of [_detect_shots] returns on every ball stream. Each
    ShotEvent it finds is built from a window of the stream (trajectory,
    release point, zone, frames and timestamp come from that window), the
    windows lie at increasing positions and never overlap, each holds 6 to
    15 samples, so the trajectories together are no longer than the stream
    and there are at most [len(ball_track) / 6] shots. *)
Theorem X2_scan_windows_disjoint : forall bt g,
  exists st ps,
    scan bt g = Ok st /\
    Forall2 (built_from bt) ps (shots st) /\
    StronglySorted
      (fun p q => (p + List.length (window_at bt p) <= q)%nat) ps /\
    Forall (fun p => (p + 5 < List.length bt)%nat /\
                     (p + List.length (window_at bt p) <= List.length bt)%nat)
           ps /\
    Forall (fun s => (6 <= List.length (trajectory s) <= 15)%nat) (shots st) /\
    (list_sum (map (fun s => List.length (trajectory s)) (shots st))
     <= List.length bt)%nat /\
    (6 * List.length (shots st) <= List.length bt)%nat.
Proof.
  intros bt g.
  destruct (scan_shots_spec bt g)
    as (st & ps & Hrun & _ & _ & Hb & Hp & Hs & He & _).
  destruct (trajectory_lengths Hp Hb) as [Hmap Hrange].
  assert (Hsum : (list_sum (map (fun s => List.length (trajectory s)) (shots st))
                  <= List.length bt)%nat).
  { rewrite Hmap.
    apply (@disjoint_windows_sum
             (fun p => List.length (window_at bt p)) (List.length bt) ps 0%nat);
      try assumption; [lia|].
    apply Forall_forall. intros; lia. }
  exists st, ps. split; [exact Hrun|]. split; [exact Hb|]. split; [exact Hs|].
  split.
  { apply Forall_forall. intros p Hin. split.
    - now apply (proj1 (Forall_forall _ _) Hp).
    - now apply (proj1 (Forall_forall _ _) He). }
  split; [exact Hrange|]. split; [exact Hsum|].
  assert (H6 : (6 * List.length (shots st) <=
                list_sum (map (fun s => List.length (trajectory s)) (shots st)))%nat).
  { clear - Hrange. induction Hrange as [|s l [Hlo _] _ IH]; simpl in *; lia. }
  lia.
Qed.

(** X3. Whatever the ball stream, and whether the result is detected or
    synthetic, [_detect_shots] returns ShotEvents numbered 1, 2, ..., n
    whose outcome is "make" or "miss" (never "unknown") and whose
    confidence lies in [0.85, 0.98]. *)
Theorem X3_detect_shots_postcondition : forall bt g,
  well_formed g ->
  exists evs g',
    _detect_shots bt g = Ok (evs, g') /\
    map id evs = map Z.of_nat (seq 1 (List.length evs)) /\
    Forall (fun s =>
      (outcome s = "make"%string \/ outcome s = "miss"%string) /\
      (0.85 <= confidence s /\ confidence s <= 0.98)%Q) evs.
Proof.
  intros bt g Hwf.
  assert (Hmock : forall g0, well_formed g0 ->
    exists evs g', _generate_mock_shots g0 = Ok (evs, g') /\
      map id evs = map Z.of_nat (seq 1 (List.length evs)) /\
      Forall (fun s =>
        (outcome s = "make"%string \/ outcome s = "miss"%string) /\
        (0.85 <= confidence s /\ confidence s <= 0.98)%Q) evs).
  { intros g0 H0.
    destruct (generate_mock_shots_spec H0) as (evs & g' & Hrun & Hlen & Hid & Hall).
    exists evs, g'. split; [exact Hrun|]. split; [now rewrite Hlen|].
    eapply Forall_impl; [|exact Hall].
    intros s (_ & Hout & Hlo & Hhi). split; [exact Hout|]. split; [exact Hlo|].
    eapply Qle_trans; [exact Hhi|]. discriminate. }
  destruct (Z.lt_ge_cases (len bt) 10) as [Hlt|Hge].
  - rewrite (@detect_shots_sparse bt g Hlt). now apply Hmock.
  - destruct (scan_shots_spec bt g)
      as (st & ps & Hrun & Hd & Hid & _ & _ & _ & _ & Hall).
    rewrite (@detect_shots_dense bt g st Hge Hrun).
    destruct (shots st) as [|s evs] eqn:Hsh.
    + apply Hmock. exact (well_formed_draws (gen st) Hd Hwf).
    + eexists _, _. split; [reflexivity|]. split; [exact Hid|exact Hall].
Qed.

Lemma X3_detect_shots_postcondition_witness :
  well_formed g_half /\
  exists evs g',
    _detect_shots rising_track g_half = Ok (evs, g') /\
    map id evs = map Z.of_nat (seq 1 (List.length evs)).
Proof.
  split; [exact g_half_well_formed|].
  destruct (@X3_detect_shots_postcondition rising_track g_half
              g_half_well_formed) as (evs & g' & Hrun & Hid & _).
  now exists evs, g'.
Defined.

(* ----------------------------------------------------------------- *)
(** ** The regions of the zone classifier *)

Ltac in_bounds_true H :=
  apply in_bounds_contains in H; unfold contains in H;
  cbn [fst snd x_range y_range] in H; destruct H as (? & ? & ? & ?).

Ltac in_bounds_absurd :=
  match goal with
  | E : in_bounds ?b ?nx ?ny = false |- _ =>
      solve [ exfalso;
              assert (in_bounds b nx ny = true)
                by (apply in_bounds_contains; unfold contains;
                    cbn [fst snd x_range y_range]; repeat split; lra);
              congruence ]
  end.

Ltac zone_chain nx ny :=
  unfold _get_zone, zones; cbn [zone_loop]; fold nx ny; clearbody nx ny;
  repeat match goal with
         | |- context [in_bounds ?b ?nx ?ny] =>
             let E := fresh "E" in
             destruct (in_bounds b nx ny) eqn:E; [in_bounds_true E|]
         end.

Lemma Qnot_lt_by_absurd (a b : Q) : ((b <= a)%Q -> False) -> (a < b)%Q.
Proof. intro H. apply Qnot_le_lt. exact H. Qed.

(** X4. [_get_zone] always answers with one of the seven zone names. The
    rectangles overlap on strips of positive area, where the declaration
    order decides: the parts [0.25, 0.35] x (0.25, 0.4] and
    [0.65, 0.75] x (0.25, 0.4] of the mid-range rectangle are classified as
    left wing and right wing. Hence a position is classified mid-range
    only strictly inside (0.35, 0.65) x (0.25, 0.4), or by default when no
    rectangle contains it. *)
Theorem X4_get_zone_regions : forall x y,
  let nx := (x / 1920)%Q in
  let ny := (y / 1080)%Q in
  In (_get_zone x y) (map fst zones) /\
  ((0.25 <= nx)%Q -> (nx <= 0.35)%Q -> (0.25 < ny)%Q -> (ny <= 0.4)%Q ->
   _get_zone x y = "left-wing"%string) /\
  ((0.65 <= nx)%Q -> (nx <= 0.75)%Q -> (0.25 < ny)%Q -> (ny <= 0.4)%Q ->
   _get_zone x y = "right-wing"%string) /\
  (_get_zone x y = "mid-range"%string <->
   (0.35 < nx /\ nx < 0.65 /\ 0.25 < ny /\ ny < 0.4)%Q \/
   forall z b, In (z, b) zones -> ~ contains b nx ny).
Proof.
  intros x y nx ny. split; [|split; [|split]].
  - zone_chain nx ny; simpl; tauto.
  - intros. zone_chain nx ny; try reflexivity; try (exfalso; lra);
      in_bounds_absurd.
  - intros. zone_chain nx ny; try reflexivity; try (exfalso; lra);
      in_bounds_absurd.
  - unfold _get_zone. fold nx ny. clearbody nx ny.
    rewrite (zone_loop_first_match zones nx ny "mid-range"). split.
    + intros [(k & b & Hk & Hc & Hfirst)|[Hnone _]]; [left|now right].
      assert (Hb : b = mkBounds (0.25, 0.75) (0.25, 0.4)).
      { do 7 (destruct k as [|k]; [simpl in Hk; congruence|]).
        destruct k; discriminate. }
      assert (k = 6%nat).
      { do 6 (destruct k as [|k]; [simpl in Hk; discriminate|]).
        destruct k as [|k]; [reflexivity|]. destruct k; discriminate. }
      subst k b. unfold contains in Hc. cbn [fst snd x_range y_range] in Hc.
      destruct Hc as (? & ? & ? & ?).
      assert (Hp := Hfirst 0%nat _ _ ltac:(lia) eq_refl).
      assert (Hl := Hfirst 3%nat _ _ ltac:(lia) eq_refl).
      assert (Hr := Hfirst 4%nat _ _ ltac:(lia) eq_refl).
      assert (Ht := Hfirst 5%nat _ _ ltac:(lia) eq_refl).
      unfold contains in Hp, Hl, Hr, Ht.
      cbn [fst snd x_range y_range] in Hp, Hl, Hr, Ht.
      repeat split; apply Qnot_lt_by_absurd; intro.
      * apply Hl. repeat split; lra.
      * apply Hr. repeat split; lra.
      * destruct (Qlt_le_dec nx 0.35); [apply Hl|]; [repeat split; lra|].
        destruct (Qlt_le_dec 0.65 nx); [apply Hr|apply Hp];
          repeat split; lra.
      * destruct (Qlt_le_dec nx 0.35); [apply Hl|]; [repeat split; lra|].
        destruct (Qlt_le_dec 0.65 nx); [apply Hr|apply Ht];
          repeat split; lra.
    + intros [(? & ? & ? & ?)|Hnone]; [left|right; now split].
      exists 6%nat, (mkBounds (0.25, 0.75) (0.25, 0.4)).
      split; [reflexivity|]. split.
      * unfold contains. cbn [fst snd x_range y_range]. repeat split; lra.
      * intros j z' b' Hj Hnth.
        do 6 (destruct j as [|j];
              [injection Hnth as <- <-; unfold contains;
               cbn [fst snd x_range y_range]; intros (? & ? & ? & ?); lra|]).
        lia.
Qed.

(* ----------------------------------------------------------------- *)
(** ** Rounding *)

Section RoundFacts.

Open Scope Q_scope.

Lemma round_half_even_bounds x :
  (Qfloor x <= round_half_even x <= Qfloor x + 1)%Z.
Proof. unfold round_half_even. split_ifs; lia. Qed.

Lemma round_half_even_mono x y :
  x <= y -> (round_half_even x <= round_half_even y)%Z.
Proof.
  intro Hxy.
  pose proof (Qfloor_resp_le _ _ Hxy) as Hf.
  pose proof (round_half_even_bounds x) as Hx.
  pose proof (round_half_even_bounds y) as Hy.
  destruct (Z.eq_dec (Qfloor x) (Qfloor y)) as [Heq|Hne]; [|lia].
  unfold round_half_even in *. rewrite <- Heq in *.
  destruct (Qltb (x - inject_Z (Qfloor x)) (1 # 2)) eqn:E1;
    [split_ifs; lia|].
  destruct (Qltb (y - inject_Z (Qfloor x)) (1 # 2)) eqn:E2.
  { reflect_Q. exfalso. lra. }
  destruct (Qltb (1 # 2) (x - inject_Z (Qfloor x))) eqn:E3.
  { destruct (Qltb (1 # 2) (y - inject_Z (Qfloor x))) eqn:E4; [lia|].
    reflect_Q. exfalso. lra. }
  destruct (Qltb (1 # 2) (y - inject_Z (Qfloor x))) eqn:E4;
    destruct (Z.even (Qfloor x)); lia.
Qed.

Lemma round_half_even_inject n : round_half_even (inject_Z n) = n.
Proof.
  unfold round_half_even. rewrite Qfloor_Z.
  assert (H : Qltb (inject_Z n - inject_Z n) (1 # 2) = true).
  { apply Qltb_lt. lra. }
  now rewrite H.
Qed.

Lemma scale_pos n : 0 < inject_Z (10 ^ Z.of_nat n).
Proof.
  change 0 with (inject_Z 0). rewrite <- Zlt_Qlt.
  apply Z.pow_pos_nonneg; lia.
Qed.

Lemma round_mono x y n : x <= y -> round x n <= round y n.
Proof.
  intro Hxy. unfold round.
  pose proof (scale_pos n) as Hs.
  apply Qmult_le_compat_r; [|apply Qlt_le_weak, Qinv_lt_0_compat, Hs].
  rewrite <- Zle_Qle. apply round_half_even_mono.
  apply Qmult_le_compat_r; [exact Hxy|now apply Qlt_le_weak].
Qed.

(** A multiple of [10 ** -n] is left as it is. *)
Lemma round_exact k n :
  round (inject_Z k / inject_Z (10 ^ Z.of_nat n)) n ==
  inject_Z k / inject_Z (10 ^ Z.of_nat n).
Proof.
  unfold round. pose proof (scale_pos n) as Hs.
  assert (E : inject_Z k / inject_Z (10 ^ Z.of_nat n) *
              inject_Z (10 ^ Z.of_nat n) == inject_Z k).
  { field. intro H. rewrite H in Hs. now apply Qlt_irrefl in Hs. }
  assert (R : round_half_even (inject_Z k / inject_Z (10 ^ Z.of_nat n) *
                               inject_Z (10 ^ Z.of_nat n)) = k).
  { rewrite <- (round_half_even_inject k) at 2.
    unfold round_half_even.
    rewrite (Qfloor_comp _ _ E).
    assert (forall c, Qltb (inject_Z k / inject_Z (10 ^ Z.of_nat n) *
              inject_Z (10 ^ Z.of_nat n) - c) (1 # 2) =
              Qltb (inject_Z k - c) (1 # 2)) as ->.
    { intro c. unfold Qltb, Qleb. now rewrite E. }
    assert (forall c, Qltb (1 # 2) (inject_Z k / inject_Z (10 ^ Z.of_nat n) *
              inject_Z (10 ^ Z.of_nat n) - c) =
              Qltb (1 # 2) (inject_Z k - c)) as ->.
    { intro c. unfold Qltb, Qleb. now rewrite E. }
    reflexivity. }
  now rewrite R.
Qed.

Lemma round_range x n lo hi :
  inject_Z lo / inject_Z (10 ^ Z.of_nat n) <= x ->
  x <= inject_Z hi / inject_Z (10 ^ Z.of_nat n) ->
  inject_Z lo / inject_Z (10 ^ Z.of_nat n) <= round x n /\
  round x n <= inject_Z hi / inject_Z (10 ^ Z.of_nat n).
Proof.
  intros Hlo Hhi. split.
  - rewrite <- (round_exact lo n). now apply round_mono.
  - rewrite <- (round_exact hi n). now apply round_mono.
Qed.

End RoundFacts.

(* ----------------------------------------------------------------- *)
(** ** [sorted] is descending and stable *)

Section SortFacts.

Context {A : Type}.

Open Scope Q_scope.

Lemma insert_desc_sorted (x : Q * A) l :
  StronglySorted (fun a b => fst b <= fst a) l ->
  StronglySorted (fun a b => fst b <= fst a) (insert_desc x l).
Proof.
  induction 1 as [|y l Hs IH Hy]; simpl.
  - constructor; constructor.
  - destruct (Qltb (fst x) (fst y)) eqn:E.
    + apply Qltb_lt in E. constructor; [exact IH|].
      apply (Permutation_Forall (Permutation_sym (insert_desc_perm x l))).
      constructor; [now apply Qlt_le_weak|exact Hy].
    + apply Qltb_ge in E. constructor; [now constructor|].
      constructor; [exact E|].
      eapply Forall_impl; [|exact Hy].
      intros a Ha. simpl in Ha. exact (Qle_trans _ _ _ Ha E).
Qed.

Lemma sort_desc_sorted (l : list (Q * A)) :
  StronglySorted (fun a b => fst b <= fst a) (fold_right insert_desc [] l).
Proof.
  induction l as [|x l IH]; simpl; [constructor|].
  now apply insert_desc_sorted.
Qed.



Lemma StronglySorted_map {B} (h : A -> B) (R : B -> B -> Prop) l :
  StronglySorted (fun a b => R (h a) (h b)) l ->
  StronglySorted R (map h l).
Proof.
  induction 1 as [|x l Hs IH Hx]; simpl; constructor; [exact IH|].
  now apply Forall_map.
Qed.

Lemma StronglySorted_impl (P : A -> Prop) (R R' : A -> A -> Prop) l :
  (forall a b, P a -> P b -> R a b -> R' a b) ->
  Forall P l -> StronglySorted R l -> StronglySorted R' l.
Proof.
  intros HR HP Hs. induction Hs as [|x l Hs IH Hx]; constructor.
  - apply IH. now inversion HP.
  - inversion HP as [|? ? Px Pl]; subst.
    rewrite Forall_forall in *. intros b Hb. apply HR; auto.
Qed.


End SortFacts.

(* ----------------------------------------------------------------- *)
(** ** The zone breakdown *)

Lemma Zsum_app l1 l2 : Zsum (l1 ++ l2) = (Zsum l1 + Zsum l2)%Z.
Proof. unfold Zsum. induction l1; simpl; lia. Qed.

Lemma Zsum_perm l1 l2 : Permutation l1 l2 -> Zsum l1 = Zsum l2.
Proof. unfold Zsum. induction 1; simpl; lia. Qed.

(** Each shot is counted in exactly one of a duplicate-free list of zones
    that holds its own. *)
Lemma Zsum_indicator (z : string) ks :
  NoDup ks -> In z ks ->
  Zsum (map (fun k => if (z =? k)%string then 1 else 0)%Z ks) = 1%Z.
Proof.
  unfold Zsum. induction 1 as [|k ks Hk Hnd IH]; simpl; [tauto|].
  intros [->|Hin].
  - rewrite String.eqb_refl.
    assert (fold_right Z.add 0%Z
              (map (fun k => if (z =? k)%string then 1 else 0)%Z ks) = 0%Z).
    { clear IH Hnd. induction ks as [|k ks IH]; simpl; [reflexivity|].
      destruct (z =? k)%string eqn:E.
      - apply String.eqb_eq in E. subst. exfalso. apply Hk. now left.
      - rewrite IH; [reflexivity|]. intro H. apply Hk. now right. }
    lia.
  - destruct (z =? k)%string eqn:E.
    + apply String.eqb_eq in E. subst. contradiction.
    + now rewrite IH.
Qed.

Lemma Zsum_no_indicator (z : string) ks :
  ~ In z ks ->
  Zsum (map (fun k => if (z =? k)%string then 1 else 0)%Z ks) = 0%Z.
Proof.
  unfold Zsum. induction ks as [|k ks IH]; simpl; [reflexivity|].
  intro H. destruct (z =? k)%string eqn:E.
  - apply String.eqb_eq in E. subst. exfalso. apply H. now left.
  - rewrite IH; [reflexivity|]. tauto.
Qed.

Lemma Zsum_map_add {X} (f g : X -> Z) l :
  Zsum (map (fun k => f k + g k)%Z l) = (Zsum (map f l) + Zsum (map g l))%Z.
Proof. unfold Zsum. induction l; simpl; lia. Qed.

Lemma Zsum_attempts ks shots :
  NoDup ks -> (forall s, In s shots -> In (zone s) ks) ->
  Zsum (map (fun k => attempts_in k shots) ks) = len shots.
Proof.
  intros Hnd. induction shots as [|s shots IH]; intros Hin.
  - unfold attempts_in, len. simpl. unfold Zsum.
    clear. induction ks as [|k ks IH]; simpl; [reflexivity|exact IH].
  - rewrite (map_ext _ _ (fun k => attempts_in_cons k s shots)).
    rewrite Zsum_map_add, IH; [|intros; apply Hin; now right].
    rewrite Zsum_indicator; [|exact Hnd|apply Hin; now left].
    unfold len. cbn [List.length]. lia.
Qed.

Lemma Zsum_makes ks shots :
  NoDup ks -> (forall s, In s shots -> In (zone s) ks) ->
  Zsum (map (fun k => makes_in k shots) ks) = count_makes shots.
Proof.
  rewrite count_makes_filter.
  intros Hnd. induction shots as [|s shots IH]; intros Hin.
  - unfold makes_in, len. simpl. unfold Zsum.
    clear. induction ks as [|k ks IH]; simpl; [reflexivity|exact IH].
  - rewrite (map_ext _ _ (fun k => makes_in_cons k s shots)).
    rewrite Zsum_map_add, IH; [|intros; apply Hin; now right].
    cbn [filter]. destruct (is_make s).
    + rewrite (map_ext _ (fun k => if (zone s =? k)%string then 1 else 0)%Z)
        by (intro k; now rewrite andb_true_r).
      rewrite Zsum_indicator; [|exact Hnd|apply Hin; now left].
      unfold len. cbn [List.length]. lia.
    + rewrite (map_ext _ (fun _ => 0%Z))
        by (intro k; now rewrite andb_false_r).
      assert (Zsum (map (fun _ : string => 0%Z) ks) = 0%Z) as ->.
      { unfold Zsum. clear. induction ks; simpl; lia. }
      lia.
Qed.

(** The tally, entry by entry: the zones in the order of their first shot,
    each with its counts. *)
Lemma tally_entries shots :
  exists d,
    tally_loop shots [] = Ok d /\
    d = map (fun z => (z, Tally.mk (makes_in z shots) (attempts_in z shots)))
            (seen_order (map zone shots)) /\
    Forall (fun x => (1 <= Tally.attempts (snd x))%Z) d.
Proof.
  destruct (tally_loop_spec shots) as (d & Hrun & Hkeys & _ & _ & Hent).
  exists d. split; [exact Hrun|]. split.
  - rewrite <- Hkeys. clear Hkeys Hrun.
    induction d as [|[z [m a]] d IH]; [reflexivity|].
    cbn [map fst]. f_equal.
    + destruct (Hent z (Tally.mk m a) (or_introl eq_refl)) as (Ha & Hm & _).
      simpl in Ha, Hm. now rewrite Ha, Hm.
    + apply IH. intros z' t' Hin. apply Hent. now right.
  - apply Forall_forall. intros [z t] Hin.
    now destruct (Hent z t Hin) as (_ & _ & Hpos & _).
Qed.

(** What [_calculate_zone_stats] computes, step by step. *)
Lemma zone_stats_unfold shots :
  let d := map (fun z => (z, Tally.mk (makes_in z shots) (attempts_in z shots)))
               (seen_order (map zone shots)) in
  let key := fun x : string * Tally.t =>
               (if (Tally.attempts (snd x) >? 0)%Z
                then inject_Z (Tally.makes (snd x)) /
                     inject_Z (Tally.attempts (snd x))
                else 0)%Q in
  _calculate_zone_stats shots =
  Ok (map (fun p => zone_entry shots (fst (snd p)))
          (fold_right insert_desc [] (map (fun x => (key x, x)) d))).
Proof.
  intros d key.
  destruct (tally_entries shots) as (d' & Hrun & Hd & Hpos). fold d in Hd.
  subst d'. unfold _calculate_zone_stats. rewrite Hrun. cbn [bind].
  unfold sorted_reverse.
  rewrite (@decorate_total _ zone_sort_key key zone_sort_key_total d).
  cbn [bind].
  rewrite (map_result_Forall2 _ _ _ zone_stat_of_total).
  f_equal. rewrite map_map. apply map_ext_in.
  intros [k [z t]] Hin.
  apply (Permutation_in _ (sort_desc_perm _)) in Hin.
  apply in_map_iff in Hin. destruct Hin as (x & Hx & Hin).
  injection Hx as _ ->.
  unfold d in Hin. apply in_map_iff in Hin.
  destruct Hin as (z' & Hz & Hin). injection Hz as -> <-.
  cbn [fst snd Tally.attempts Tally.makes]. unfold zone_entry, display.
  rewrite Forall_forall in Hpos.
  assert (Ha : (1 <= attempts_in z shots)%Z).
  { apply (Hpos (z, Tally.mk (makes_in z shots) (attempts_in z shots))).
    unfold d. apply in_map_iff. now exists z. }
  assert (E : (attempts_in z shots >? 0)%Z = true) by (apply Z.gtb_lt; lia).
  now rewrite E.
Qed.

(** The breakdown as a sort of the decorated zones. *)
Lemma zone_stats_sorted shots :
  let deco := fun z => (rate (zone_entry shots z),
                        (z, Tally.mk (makes_in z shots) (attempts_in z shots))) in
  _calculate_zone_stats shots =
  Ok (map (fun p => zone_entry shots (fst (snd p)))
          (fold_right insert_desc []
                      (map deco (seen_order (map zone shots))))).
Proof.
  intro deco. rewrite zone_stats_unfold. cbv zeta.
  do 3 f_equal. rewrite map_map. apply map_ext_in. intros z Hz.
  unfold deco. f_equal.
  cbn [snd Tally.attempts Tally.makes].
  destruct (tally_loop_spec shots) as (d & _ & Hkeys & _ & Hin & _).
  rewrite <- Hkeys in Hz. apply Hin in Hz.
  pose proof (attempts_in_pos z shots Hz) as Ha.
  assert (E : (attempts_in z shots >? 0)%Z = true) by (apply Z.gtb_lt; lia).
  now rewrite E.
Qed.

Lemma seen_order_spec shots :
  NoDup (seen_order (map zone shots)) /\
  forall z, In z (seen_order (map zone shots)) <-> In z (map zone shots).
Proof.
  destruct (tally_loop_spec shots) as (d & _ & Hkeys & Hnd & Hin & _).
  rewrite <- Hkeys. now split.
Qed.



(* ----------------------------------------------------------------- *)
(** ** The ranges of the statistics *)

Lemma percent_range m t :
  (0 <= m <= t)%Z -> (0 < t)%Z ->
  (0 <= inject_Z m / inject_Z t * 100 /\
   inject_Z m / inject_Z t * 100 <= 100)%Q.
Proof.
  intros [Hm Hmt] Ht.
  assert (Ht' : (0 < inject_Z t)%Q)
    by (change 0%Q with (inject_Z 0); now rewrite <- Zlt_Qlt).
  assert (H0 : (0 <= inject_Z m / inject_Z t)%Q).
  { apply Qle_shift_div_l; [exact Ht'|].
    rewrite Qmult_0_l. change 0%Q with (inject_Z 0). now rewrite <- Zle_Qle. }
  assert (H1 : (inject_Z m / inject_Z t <= 1)%Q).
  { apply Qle_shift_div_r; [exact Ht'|].
    rewrite Qmult_1_l. now rewrite <- Zle_Qle. }
  set (q := (inject_Z m / inject_Z t)%Q) in *. split; lra.
Qed.

Lemma round_percent x :
  (0 <= x)%Q -> (x <= 100)%Q -> (0 <= round x 1 /\ round x 1 <= 100)%Q.
Proof.
  intros H0 H1.
  destruct (@round_range x 1 0 1000) as [Hlo Hhi].
  - assert (E : (inject_Z 0 / inject_Z (10 ^ Z.of_nat 1) == 0)%Q)
      by reflexivity.
    now rewrite E.
  - assert (E : (inject_Z 1000 / inject_Z (10 ^ Z.of_nat 1) == 100)%Q)
      by reflexivity.
    now rewrite E.
  - assert (E0 : (inject_Z 0 / inject_Z (10 ^ Z.of_nat 1) == 0)%Q)
      by reflexivity.
    assert (E1 : (inject_Z 1000 / inject_Z (10 ^ Z.of_nat 1) == 100)%Q)
      by reflexivity.
    rewrite E0 in Hlo. rewrite E1 in Hhi. now split.
Qed.

Lemma percentage_of_range m t :
  (0 <= m <= t)%Z ->
  exists p, percentage_of m t = Ok p /\ (0 <= p /\ p <= 100)%Q.
Proof.
  intro Hm. rewrite percentage_of_total. eexists. split; [reflexivity|].
  destruct (t >? 0)%Z eqn:E; [|split; lra].
  apply Z.gtb_lt in E.
  destruct (percent_range Hm) as [H0 H1]; [lia|].
  now apply round_percent.
Qed.

(** X7. With a generator whose draws lie in [0, 1), [_calculate_statistics]
    returns percentages between 0 and 100, an average release time between
    0.75 and 0.9 seconds, and as hot zone the displayed name of a zone that
    one of the shots was taken from (for no shots at all: "Mid Range"). *)
Theorem X7_statistics_ranges : forall shots g,
  well_formed g ->
  exists st g',
    _calculate_statistics shots g = Ok (st, g') /\
    (0 <= Statistics.fieldGoalPercentage st /\
     Statistics.fieldGoalPercentage st <= 100)%Q /\
    (0 <= Statistics.threePointPercentage st /\
     Statistics.threePointPercentage st <= 100)%Q /\
    (0.75 <= Statistics.avgReleaseTime st /\
     Statistics.avgReleaseTime st <= 0.9)%Q /\
    ((shots = [] /\ Statistics.hotZone st = "Mid Range"%string) \/
     In (Statistics.hotZone st) (map (fun s => display (zone s)) shots)).
Proof.
  intros shots g Hg.
  destruct (hot_zone_spec shots) as (d & z & Hd & Hz & Hcase).
  destruct (percentage_of_range (count_makes_bounds shots))
    as (fg & Hfg & Hfg_range).
  unfold _calculate_statistics. rewrite Hz, Hfg.
  set (three_shots := filter in_three_zones shots).
  assert (Hthree : exists tp,
    match three_shots with
    | [] => Ok 0%Q
    | _ :: _ =>
        bind (truediv (inject_Z (count_makes three_shots))
                      (inject_Z (len three_shots)))
             (fun q => Ok (q * 100)%Q)
    end = Ok tp /\ (0 <= tp /\ tp <= 100)%Q).
  { destruct three_shots as [|s l] eqn:E.
    - exists 0%Q. split; [reflexivity|split; lra].
    - rewrite truediv_Ok.
      + eexists. split; [reflexivity|].
        apply percent_range; [apply count_makes_bounds|].
        unfold len. cbn [List.length]. lia.
      + apply inject_Z_nonzero. unfold len. cbn [List.length]. lia. }
  destruct Hthree as (tp & -> & Htp). cbn [bind].
  unfold uniform. destruct (random g) as [r g'] eqn:Hr.
  pose proof (random_range Hg) as Hrange. rewrite Hr in Hrange.
  cbn [fst] in Hrange.
  eexists _, _. split; [reflexivity|].
  cbn [Statistics.fieldGoalPercentage Statistics.threePointPercentage
       Statistics.avgReleaseTime Statistics.hotZone].
  split; [exact Hfg_range|]. split; [now apply round_percent|]. split.
  - destruct (@round_range (0.75 + (0 + (0.15 - 0) * r)) 2 75 90)
      as [Hlo Hhi].
    + assert (E : (inject_Z 75 / inject_Z (10 ^ Z.of_nat 2) == 0.75)%Q)
        by reflexivity.
      rewrite E. lra.
    + assert (E : (inject_Z 90 / inject_Z (10 ^ Z.of_nat 2) == 0.9)%Q)
        by reflexivity.
      rewrite E. lra.
    + assert (E0 : (inject_Z 75 / inject_Z (10 ^ Z.of_nat 2) == 0.75)%Q)
        by reflexivity.
      assert (E1 : (inject_Z 90 / inject_Z (10 ^ Z.of_nat 2) == 0.9)%Q)
        by reflexivity.
      rewrite E0 in Hlo. rewrite E1 in Hhi. now split.
  - destruct (tally_loop_spec shots) as (d' & Hd' & Hkeys & _ & Hin & _).
    rewrite Hd in Hd'. injection Hd' as <-.
    destruct Hcase as [[-> ->]|(t & Hmax)].
    + left. split; [|reflexivity].
      destruct shots as [|s shots]; [reflexivity|].
      exfalso. apply (proj2 (Hin (zone s))). now left.
    + right. apply first_max_in in Hmax.
      apply (in_map fst) in Hmax. cbn [fst] in Hmax. apply Hin in Hmax.
      apply in_map_iff in Hmax. destruct Hmax as (s & Hsz & Hs).
      apply in_map_iff. exists s. split; [now rewrite Hsz|exact Hs].
Qed.

Lemma X7_statistics_ranges_witness :
  well_formed g_half /\
  exists st g',
    _calculate_statistics
      [mkShotEvent 1 0 10 50 20 "make" "paint" 0.9 0 []] g_half =
    Ok (st, g') /\
    (0.75 <= Statistics.avgReleaseTime st /\
     Statistics.avgReleaseTime st <= 0.9)%Q.
Proof.
  split; [exact g_half_well_formed|].
  destruct (@X7_statistics_ranges
              [mkShotEvent 1 0 10 50 20 "make" "paint" 0.9 0 []] g_half
              g_half_well_formed) as (st & g' & Hrun & _ & _ & Hrel & _).
  now exists st, g'.
Defined.

(* ----------------------------------------------------------------- *)
(** ** What the tracker records *)

Section DictMap.

Context {K V W : Type} (eqb : K -> K -> bool).

Lemma dict_setitem_map (h : V -> W) (d : list (K * V)) k v :
  dict_setitem eqb (map (fun e => (fst e, h (snd e))) d) k (h v) =
  map (fun e => (fst e, h (snd e))) (dict_setitem eqb d k v).
Proof.
  induction d as [|[k' w] d IH]; simpl; [reflexivity|].
  destruct (eqb k' k); simpl; [reflexivity|]. now rewrite IH.
Qed.

Lemma dict_setitem_Forall (P : K * V -> Prop) (d : list (K * V)) k v :
  (forall k', eqb k' k = true -> k' = k) ->
  Forall P d -> P (k, v) -> Forall P (dict_setitem eqb d k v).
Proof.
  intros Heq Hd Hv. induction Hd as [|[k' w] d Hx Hd IH]; simpl.
  - now constructor.
  - destruct (eqb k' k) eqn:E.
    + apply Heq in E. subst. now constructor.
    + now constructor.
Qed.

End DictMap.

Lemma concat_setitem (d : list (Z * list Sample)) k track smp :
  dict_getitem Z.eqb d k = Ok track ->
  Permutation (List.concat (map snd (dict_setitem Z.eqb d k (track ++ [smp]))))
              (List.concat (map snd d) ++ [smp]).
Proof.
  induction d as [|[k' w] d IH]; simpl; [discriminate|].
  destruct (Z.eqb k' k) eqn:E; simpl.
  - intros [= ->]. rewrite <- !app_assoc.
    apply Permutation_app_head, Permutation_app_comm.
  - intro H. rewrite <- app_assoc. apply Permutation_app_head. now apply IH.
Qed.

Lemma subseq_refl {A} (l : list A) : subseq l l.
Proof. induction l; [apply subseq_nil|now apply subseq_take]. Qed.

Lemma subseq_nil_l {A} (l : list A) : subseq [] l.
Proof. induction l; [apply subseq_nil|now apply subseq_skip]. Qed.

Lemma subseq_app_skip {A} (l1 l2 : list A) x :
  subseq l1 l2 -> subseq l1 (l2 ++ [x]).
Proof.
  induction 1; simpl.
  - apply subseq_skip, subseq_nil.
  - now apply subseq_skip.
  - now apply subseq_take.
Qed.

Lemma subseq_app_take {A} (l1 l2 : list A) x :
  subseq l1 l2 -> subseq (l1 ++ [x]) (l2 ++ [x]).
Proof.
  induction 1; simpl.
  - apply subseq_take, subseq_nil.
  - now apply subseq_skip.
  - now apply subseq_take.
Qed.

Lemma last_position_snoc track smp :
  last_position (track ++ [smp]) = (s_x smp, s_y smp).
Proof. unfold last_position. now rewrite last_last. Qed.

Lemma tracked_init : tracked [] init.
Proof.
  split; [apply consistent_init|].
  split; [reflexivity|]. split; [reflexivity|].
  split; [constructor|reflexivity].
Qed.

Lemma person_samples_snoc seen e :
  person_samples (seen ++ [e]) =
  if is_person e then person_samples seen ++ [sample_at e]
  else person_samples seen.
Proof.
  unfold person_samples. rewrite filter_app. cbn [filter].
  destruct (is_person e); [now rewrite map_app|now rewrite app_nil_r].
Qed.

Lemma ball_samples_snoc seen e :
  ball_samples (seen ++ [e]) =
  if is_ball e then ball_samples seen ++ [sample_at e]
  else ball_samples seen.
Proof.
  unfold ball_samples. rewrite filter_app. cbn [filter].
  destruct (is_ball e); [now rewrite map_app|now rewrite app_nil_r].
Qed.

Lemma track_object_tracked seen f t st obj :
  tracked seen st ->
  exists st',
    track_object f t st obj = Ok st' /\ tracked (seen ++ [(f, t, obj)]) st'.
Proof.
  intros (Hc & Hball & Hperm & Hall & Hlast).
  destruct (class obj =? "person")%string eqn:Hp.
  - apply String.eqb_eq in Hp.
    destruct (track_person_spec f t obj Hc Hp)
      as (st' & Hrun & Hc' & Hball' & Hcase).
    exists st'. split; [exact Hrun|].
    assert (Eperson : is_person (f, t, obj) = true).
    { unfold is_person. cbn [snd]. rewrite Hp. reflexivity. }
    assert (Eball : is_ball (f, t, obj) = false).
    { unfold is_ball. cbn [snd]. rewrite Hp. reflexivity. }
    split; [exact Hc'|].
    rewrite person_samples_snoc, ball_samples_snoc, Eperson, Eball.
    change (sample_at (f, t, obj)) with (sample_of f t obj).
    split; [now rewrite Hball'|].
    assert (Hall' : Forall (fun e => snd e <> [] /\
                      subseq (snd e) (person_samples seen ++ [sample_of f t obj]))
                      (players (tracks st))).
    { eapply Forall_impl; [|exact Hall].
      intros e [Hne Hsub]. split; [exact Hne|now apply subseq_app_skip]. }
    destruct (closest_track st (center_x (bbox obj), center_y (bbox obj)))
      as [pid|].
    + destruct Hcase as (track & Hget & Hplayers & Hlpp & _ & _).
      rewrite Hplayers, Hlpp. split; [|split].
      * rewrite concat_setitem by exact Hget.
        now apply Permutation_app_tail.
      * apply dict_setitem_Forall;
          [intros k' Hk; now apply Z.eqb_eq|exact Hall'|].
        cbn [snd]. split; [now destruct track|].
        apply subseq_app_take.
        apply (dict_getitem_Ok_in Z.eqb Z.eqb_eq) in Hget.
        rewrite Forall_forall in Hall.
        now destruct (Hall _ Hget).
      * rewrite Hlast. unfold last_positions.
        rewrite <- (dict_setitem_map Z.eqb last_position).
        now rewrite last_position_snoc.
    + destruct Hcase as (Hplayers & Hlpp & _ & _).
      rewrite Hplayers, Hlpp. split; [|split].
      * rewrite map_app, concat_app. cbn [map List.concat snd].
        rewrite app_nil_r. now apply Permutation_app_tail.
      * apply Forall_app. split; [exact Hall'|].
        constructor; [|constructor]. cbn [snd].
        split; [discriminate|].
        change [sample_of f t obj] with ([] ++ [sample_of f t obj]).
        apply subseq_app_take, subseq_nil_l.
      * rewrite Hlast. unfold last_positions. rewrite map_app.
        reflexivity.
  - unfold track_object. rewrite Hp.
    assert (Eperson : is_person (f, t, obj) = false) by exact Hp.
    destruct (class obj =? "sports ball")%string eqn:Hb.
    + eexists. split; [reflexivity|].
      assert (Eball : is_ball (f, t, obj) = true) by exact Hb.
      unfold tracked.
      rewrite person_samples_snoc, ball_samples_snoc, Eperson, Eball.
      cbn [tracks ball players last_player_positions].
      split; [exact Hc|]. split; [now rewrite Hball|].
      split; [exact Hperm|]. split; [exact Hall|exact Hlast].
    + exists st. split; [reflexivity|].
      assert (Eball : is_ball (f, t, obj) = false) by exact Hb.
      unfold tracked.
      rewrite person_samples_snoc, ball_samples_snoc, Eperson, Eball.
      split; [exact Hc|]. split; [exact Hball|].
      split; [exact Hperm|]. split; [exact Hall|exact Hlast].
Qed.

Lemma track_frame_tracked f t objs : forall seen st,
  tracked seen st ->
  exists st',
    track_frame f t objs st = Ok st' /\
    tracked (seen ++ map (fun o => (f, t, o)) objs) st'.
Proof.
  induction objs as [|obj objs IH]; intros seen st Hst.
  - exists st. split; [reflexivity|]. simpl. now rewrite app_nil_r.
  - destruct (@track_object_tracked seen f t st obj Hst)
      as (st1 & Hrun1 & Hst1).
    destruct (IH _ _ Hst1) as (st' & Hrun & Hst').
    exists st'. cbn [track_frame]. rewrite Hrun1. cbn [bind].
    split; [exact Hrun|].
    cbn [map]. now rewrite <- app_assoc in Hst'.
Qed.

Lemma track_frames_tracked detections : forall seen st,
  tracked seen st ->
  exists st',
    track_frames detections st = Ok st' /\
    tracked (seen ++ stream detections) st'.
Proof.
  induction detections as [|fd detections IH]; intros seen st Hst.
  - exists st. split; [reflexivity|]. simpl. now rewrite app_nil_r.
  - destruct (@track_frame_tracked (frame fd) (frame_timestamp fd)
                (objects fd) seen st Hst) as (st1 & Hrun1 & Hst1).
    destruct (IH _ _ Hst1) as (st' & Hrun & Hst').
    exists st'. cbn [track_frames]. rewrite Hrun1. cbn [bind].
    split; [exact Hrun|].
    unfold stream in *. cbn [flat_map]. now rewrite <- app_assoc in Hst'.
Qed.

Lemma filter_either_length {A} (p q : A -> bool) l :
  (forall x, p x = true -> q x = false) ->
  (List.length (filter p l) + List.length (filter q l) =
   List.length (filter (fun x => p x || q x) l))%nat.
Proof.
  intro H. induction l as [|x l IH]; simpl; [reflexivity|].
  destruct (p x) eqn:Ep; simpl.
  - rewrite (H x Ep). simpl. lia.
  - destruct (q x); simpl; lia.
Qed.

(** X8. [track_objects] returns for every list of frames, and shares the
    detections out without loss or duplication: the ball track holds the
    samples of the "sports ball" detections in the order of the video, the
    player tracks together hold each "person" detection exactly once, every
    player track is non-empty and in the order of the video, and the
    detections of any other class are dropped. *)
Theorem X8_tracker_partition : forall detections,
  exists tr,
    track_objects detections = Ok tr /\
    ball tr = ball_samples (stream detections) /\
    Permutation (List.concat (map snd (players tr)))
                (person_samples (stream detections)) /\
    Forall (fun e => snd e <> [] /\
                     subseq (snd e) (person_samples (stream detections)))
           (players tr) /\
    (List.length (ball tr) + List.length (List.concat (map snd (players tr))) =
     List.length (filter (fun e => is_ball e || is_person e)
                         (stream detections)))%nat.
Proof.
  intros detections.
  destruct (@track_frames_tracked detections [] init tracked_init)
    as (st & Hrun & _ & Hball & Hperm & Hall & _).
  cbn [app] in *.
  exists (tracks st). unfold track_objects. rewrite Hrun. cbn [bind].
  split; [reflexivity|]. split; [exact Hball|].
  split; [exact Hperm|]. split; [exact Hall|].
  rewrite Hball, (Permutation_length Hperm).
  unfold ball_samples, person_samples. rewrite !length_map.
  apply filter_either_length.
  intros [[f t] obj]. unfold is_ball, is_person. cbn [snd].
  intro Hb. apply String.eqb_eq in Hb. now rewrite Hb.
Qed.



(* ----------------------------------------------------------------- *)
(** ** The layout of the synthetic demo set *)

Lemma around_spec cx dx cy dy g :
  well_formed g -> (0 < dx)%Q -> (0 < dy)%Q ->
  exists x y g',
    around cx dx cy dy g = ((x, y), g') /\
    (cx - dx <= x /\ x < cx + dx)%Q /\
    (cy - dy <= y /\ y < cy + dy)%Q /\
    draws g' = draws g /\ used g' = S (S (used g)).
Proof.
  intros Hwf Hdx Hdy. unfold around, uniform, random. cbn [draws used].
  eexists _, _, _. split; [reflexivity|]. cbn [draws used].
  destruct (Hwf (used g)) as [H0 H1].
  destruct (Hwf (S (used g))) as [H2 H3].
  assert (Hwx : (0 < dx - - dx)%Q) by lra.
  assert (Hwy : (0 < dy - - dy)%Q) by lra.
  pose proof (Qmult_le_0_compat _ _ (Qlt_le_weak _ _ Hwx) H0) as Ha.
  pose proof (Qmult_le_0_compat _ _ (Qlt_le_weak _ _ Hwy) H2) as Hb.
  assert (Hc : ((dx - - dx) * draws g (used g) < (dx - - dx) * 1)%Q)
    by (apply Qmult_lt_l; assumption).
  assert (Hd : ((dy - - dy) * draws g (S (used g)) < (dy - - dy) * 1)%Q)
    by (apply Qmult_lt_l; assumption).
  set (p := ((dx - - dx) * draws g (used g))%Q) in *.
  set (q := ((dy - - dy) * draws g (S (used g)))%Q) in *.
  repeat split; try reflexivity; lra.
Qed.

(** One synthetic shot: where it is placed, and what it consumes. *)
Lemma mock_shot_layout k g :
  well_formed g ->
  exists shot g',
    mock_shot k g = Ok (shot, g') /\ well_formed g' /\
    draws g' = draws g /\ used g' = (used g + 5)%nat /\
    In (zone shot) mock_zones /\
    (10 <= release_x shot /\ release_x shot < 90)%Q /\
    (10 <= release_y shot /\ release_y shot < 85)%Q /\
    frame_start shot = (k * 150)%Z /\
    frame_end shot = (k * 150 + 30)%Z /\
    timestamp shot = inject_Z (k * 5).
Proof.
  intro Hwf. unfold mock_shot.
  destruct (choice_zone Hwf) as (z & -> & Hz). cbn [bind].
  pose proof (random_well_formed Hwf) as Hwf1.
  assert (Hd1 : draws (snd (random g)) = draws g) by reflexivity.
  assert (Hu1 : used (snd (random g)) = S (used g)) by reflexivity.
  revert Hwf1 Hd1 Hu1. generalize (snd (random g)). intros g1 Hwf1 Hd1 Hu1.
  set (pos := if (z =? "right-wing")%string then _ else _).
  assert (Hpos : exists x y g2,
            pos = ((x, y), g2) /\ (10 <= x /\ x < 90)%Q /\
            (10 <= y /\ y < 85)%Q /\
            draws g2 = draws g1 /\ used g2 = S (S (used g1))).
  { unfold pos.
    split_ifs;
      match goal with
      | |- context [around ?cx ?dx ?cy ?dy g1] =>
          destruct (@around_spec cx dx cy dy g1 Hwf1 eq_refl eq_refl)
            as (x & y & g2 & -> & Hx & Hy & Hd & Hu)
      end;
      exists x, y, g2; (split; [reflexivity|]);
      (split; [split; lra|]); (split; [split; lra|]); now split. }
  destruct Hpos as (x & y & g2 & -> & Hx & Hy & Hd2 & Hu2).
  assert (Hwf2 : well_formed g2).
  { apply (well_formed_draws g2 (eq_trans Hd2 Hd1) Hwf). }
  unfold uniform, random. cbn [draws used].
  eexists _, _. split; [reflexivity|].
  cbn [zone release_x release_y frame_start frame_end timestamp draws used].
  split; [intro n; rewrite Hd2; apply Hwf1|].
  split; [now rewrite Hd2|]. split; [lia|].
  split; [exact Hz|]. split; [exact Hx|]. split; [exact Hy|].
  now repeat split.
Qed.

Lemma mock_loop_layout idxs : forall acc g,
  well_formed g ->
  exists shots g',
    mock_loop idxs acc g = Ok ((acc ++ shots)%list, g') /\ well_formed g' /\
    draws g' = draws g /\ used g' = (used g + 5 * List.length idxs)%nat /\
    Forall2 (fun k s =>
      In (zone s) mock_zones /\
      (10 <= release_x s /\ release_x s < 90)%Q /\
      (10 <= release_y s /\ release_y s < 85)%Q /\
      frame_start s = (k * 150)%Z /\
      frame_end s = (k * 150 + 30)%Z /\
      timestamp s = inject_Z (k * 5)) idxs shots.
Proof.
  induction idxs as [|k idxs IH]; intros acc g Hwf; cbn [mock_loop].
  - exists [], g. rewrite app_nil_r.
    split; [reflexivity|]. split; [exact Hwf|]. split; [reflexivity|].
    split; [cbn; lia|constructor].
  - destruct (mock_shot_layout k Hwf)
      as (shot & g1 & -> & Hwf1 & Hd1 & Hu1 & Hshot).
    cbn [bind].
    destruct (IH (acc ++ [shot])%list g1 Hwf1)
      as (shots & g' & -> & Hwf' & Hd' & Hu' & Hall).
    exists (shot :: shots), g'. rewrite <- app_assoc.
    split; [reflexivity|]. split; [exact Hwf'|].
    split; [now rewrite Hd', Hd1|].
    split; [cbn [List.length]; lia|].
    constructor; [exact Hshot|exact Hall].
Qed.

(** X10. With a random generator whose draws lie in [0, 1), the synthetic
    demo set is laid out as follows: shot number k (k = 0 .. 19) starts at
    frame 150 k, ends 30 frames later and has timestamp 5 k; its zone is one
    of the seven zone names and its release point lies in
    [10, 90) x [10, 85), inside the 0..100 chart; the set consumes exactly
    100 draws and leaves the generator's sequence as it was. *)
Theorem X10_mock_shots_layout : forall g,
  well_formed g ->
  exists mock g',
    _generate_mock_shots g = Ok (mock, g') /\
    well_formed g' /\ draws g' = draws g /\ used g' = (used g + 100)%nat /\
    Forall2 (fun k s =>
      In (zone s) (map fst zones) /\
      (10 <= release_x s /\ release_x s < 90)%Q /\
      (10 <= release_y s /\ release_y s < 85)%Q /\
      frame_start s = (k * 150)%Z /\
      frame_end s = (frame_start s + 30)%Z /\
      timestamp s = inject_Z (k * 5)) (range 20) mock.
Proof.
  intros g Hwf. unfold _generate_mock_shots.
  destruct (mock_loop_layout (range 20) [] Hwf)
    as (mock & g' & Hrun & Hwf' & Hd & Hu & Hall).
  exists mock, g'. split; [exact Hrun|]. split; [exact Hwf'|].
  split; [exact Hd|]. split; [exact Hu|].
  eapply Forall2_impl; [|exact Hall].
  intros k s (Hz & Hx & Hy & Hs & He & Ht).
  split; [|split; [exact Hx|split; [exact Hy|split; [exact Hs|split]]]].
  - revert Hz. generalize (zone s). intro z. simpl. tauto.
  - now rewrite Hs.
  - exact Ht.
Qed.

Lemma X10_mock_shots_layout_witness :
  well_formed g_half /\
  exists mock g',
    _generate_mock_shots g_half = Ok (mock, g') /\ used g' = 100%nat.
Proof.
  split; [exact g_half_well_formed|].
  destruct (@X10_mock_shots_layout g_half g_half_well_formed)
    as (mock & g' & Hrun & _ & _ & Hu & _).
  exists mock, g'. split; [exact Hrun|exact Hu].
Defined.

(* ----------------------------------------------------------------- *)
(** ** The analysis as a whole *)

Lemma get_zone_in_zones x y : In (_get_zone x y) (map fst zones).
Proof.
  unfold _get_zone, zones. cbn [zone_loop].
  split_ifs; simpl; tauto.
Qed.

Lemma Forall2_in_r {A B} (R : A -> B -> Prop) l l' y :
  Forall2 R l l' -> In y l' -> exists x, In x l /\ R x y.
Proof.
  induction 1 as [|a b l l' Hab H IH]; simpl; [tauto|].
  intros [<-|Hin].
  - exists a. split; [now left|exact Hab].
  - destruct (IH Hin) as (x & Hx & Hr). exists x. split; [now right|exact Hr].
Qed.

Lemma Forall2_in_l {A B} (R : A -> B -> Prop) l l' x :
  Forall2 R l l' -> In x l -> exists y, In y l' /\ R x y.
Proof.
  induction 1 as [|a b l l' Hab H IH]; simpl; [tauto|].
  intros [<-|Hin].
  - exists b. split; [now left|exact Hab].
  - destruct (IH Hin) as (y & Hy & Hr). exists y. split; [now right|exact Hr].
Qed.

(** What the detector returns, whichever path it takes. *)
Lemma detect_shots_full bt g :
  well_formed g ->
  exists evs g',
    _detect_shots bt g = Ok (evs, g') /\ well_formed g' /\ evs <> [] /\
    map id evs = map Z.of_nat (seq 1 (List.length evs)) /\
    Forall (fun s =>
      (outcome s = "make"%string \/ outcome s = "miss"%string) /\
      (0.85 <= confidence s /\ confidence s <= 0.98)%Q /\
      In (zone s) (map fst zones)) evs.
Proof.
  intros Hwf.
  assert (Hmock : forall g0, well_formed g0 ->
    exists evs g', _generate_mock_shots g0 = Ok (evs, g') /\
      well_formed g' /\ evs <> [] /\
      map id evs = map Z.of_nat (seq 1 (List.length evs)) /\
      Forall (fun s =>
        (outcome s = "make"%string \/ outcome s = "miss"%string) /\
        (0.85 <= confidence s /\ confidence s <= 0.98)%Q /\
        In (zone s) (map fst zones)) evs).
  { intros g0 H0.
    destruct (generate_mock_shots_spec H0)
      as (evs & g' & Hrun & Hlen & Hid & Hall).
    destruct (mock_loop_layout (range 20) [] H0)
      as (evs' & g'' & Hrun' & Hwf' & _ & _ & Hlay).
    unfold _generate_mock_shots in Hrun. rewrite Hrun in Hrun'.
    cbn [app] in Hrun'. injection Hrun' as <- <-.
    exists evs, g'. split; [exact Hrun|]. split; [exact Hwf'|].
    split; [intros ->; discriminate|]. split; [now rewrite Hlen|].
    apply Forall_forall. intros s Hs.
    rewrite Forall_forall in Hall.
    destruct (Hall s Hs) as (_ & Hout & Hlo & Hhi).
    destruct (@Forall2_in_r _ _ _ _ _ s Hlay Hs) as (k & _ & Hz & _).
    split; [exact Hout|]. split.
    - split; [exact Hlo|]. eapply Qle_trans; [exact Hhi|]. discriminate.
    - revert Hz. generalize (zone s). intro z. simpl. tauto. }
  destruct (Z.lt_ge_cases (len bt) 10) as [Hlt|Hge].
  - rewrite (@detect_shots_sparse bt g Hlt). now apply Hmock.
  - destruct (scan_shots_spec bt g)
      as (st & ps & Hrun & Hd & Hid & Hbuilt & _ & _ & _ & Hall).
    rewrite (@detect_shots_dense bt g st Hge Hrun).
    pose proof (well_formed_draws (gen st) Hd Hwf) as Hwf'.
    destruct (shots st) as [|s evs] eqn:Hsh.
    + apply Hmock. exact Hwf'.
    + eexists _, _. split; [reflexivity|]. split; [exact Hwf'|].
      split; [discriminate|]. split; [exact Hid|].
      apply Forall_forall. intros e He.
      rewrite Forall_forall in Hall.
      destruct (Hall e He) as (Hout & Hconf).
      destruct (@Forall2_in_r _ _ _ _ _ e Hbuilt He)
        as (p & _ & first & tail & _ & _ & _ & _ & _ & _ & Hz & _).
      split; [exact Hout|]. split; [exact Hconf|].
      rewrite Hz. apply get_zone_in_zones.
Qed.

(** The breakdown and its totals. *)
Lemma zone_stats_totals shots :
  exists zs,
    _calculate_zone_stats shots = Ok zs /\
    Permutation zs (map (zone_entry shots) (seen_order (map zone shots))) /\
    Zsum (map ZoneStat.attempts zs) = len shots /\
    Zsum (map ZoneStat.makes zs) = count_makes shots.
Proof.
  rewrite zone_stats_sorted. cbv zeta.
  eexists. split; [reflexivity|].
  destruct (seen_order_spec shots) as [Hnd Hin].
  match goal with
  | |- Permutation ?zs _ /\ _ => set (out := zs)
  end.
  assert (Hperm : Permutation out (map (zone_entry shots)
                                       (seen_order (map zone shots)))).
  { unfold out. rewrite sort_desc_perm, map_map. reflexivity. }
  split; [exact Hperm|]. split.
  - rewrite (Zsum_perm (Permutation_map _ Hperm)), map_map.
    cbn [zone_entry ZoneStat.attempts].
    apply Zsum_attempts; [exact Hnd|].
    intros s Hs. apply Hin. now apply in_map.
  - rewrite (Zsum_perm (Permutation_map _ Hperm)), map_map.
    cbn [zone_entry ZoneStat.makes].
    apply Zsum_makes; [exact Hnd|].
    intros s Hs. apply Hin. now apply in_map.
Qed.

Lemma count_misses shots :
  Forall (fun s => outcome s = "make"%string \/ outcome s = "miss"%string)
         shots ->
  len (filter (fun s => (outcome s =? "miss")%string) shots) =
  (len shots - count_makes shots)%Z.
Proof.
  rewrite count_makes_filter. unfold len, is_make.
  induction 1 as [|s shots Hs _ IH]; [reflexivity|].
  cbn [filter].
  destruct Hs as [-> | ->]; cbn [String.eqb Ascii.eqb Bool.eqb];
    cbn [List.length]; rewrite ?Nat2Z.inj_succ; lia.
Qed.

Lemma filter_shot_of p q evs :
  (forall s, p (Analysis.shot_of s) = q s) ->
  List.length (filter p (map Analysis.shot_of evs)) =
  List.length (filter q evs).
Proof.
  intro H. induction evs as [|s evs IH]; [reflexivity|].
  cbn [map filter]. rewrite H. destruct (q s); cbn [List.length]; now rewrite IH.
Qed.

(** X11. With a random generator whose draws lie in [0, 1),
    [analyze_shots] returns for every tracking result, and its report is
    consistent: there is at least one shot, the ids are 1, 2, ..., n, every
    shot is a "make" or a "miss" with a confidence in [0.85, 0.98] and a zone
    among the seven zone names; [totalShots], [makes] and [misses] count the
    listed shots, the makes and the misses among them; the zone breakdown is
    not empty, its attempts add up to [totalShots] and its makes to [makes],
    and each of its entries is named after the zone of a listed shot; there
    are six form metrics. *)
Theorem X11_analyze_shots_report : forall tracks detections g,
  well_formed g ->
  exists a g',
    Analysis.analyze_shots tracks detections g = Ok (a, g') /\
    well_formed g' /\
    Analysis.shots a <> [] /\
    map Analysis.shot_id (Analysis.shots a) =
      map Z.of_nat (seq 1 (List.length (Analysis.shots a))) /\
    Forall (fun s =>
      (Analysis.shot_outcome s = "make"%string \/
       Analysis.shot_outcome s = "miss"%string) /\
      (0.85 <= Analysis.shot_confidence s /\
       Analysis.shot_confidence s <= 0.98)%Q /\
      In (Analysis.shot_zone s) (map fst zones)) (Analysis.shots a) /\
    Statistics.totalShots (Analysis.statistics a) = len (Analysis.shots a) /\
    Statistics.makes (Analysis.statistics a) =
      len (filter (fun s => (Analysis.shot_outcome s =? "make")%string)
                  (Analysis.shots a)) /\
    Statistics.misses (Analysis.statistics a) =
      len (filter (fun s => (Analysis.shot_outcome s =? "miss")%string)
                  (Analysis.shots a)) /\
    Analysis.zones a <> [] /\
    Zsum (map ZoneStat.attempts (Analysis.zones a)) =
      Statistics.totalShots (Analysis.statistics a) /\
    Zsum (map ZoneStat.makes (Analysis.zones a)) =
      Statistics.makes (Analysis.statistics a) /\
    Forall (fun z => exists s, In s (Analysis.shots a) /\
                     ZoneStat.name z = display (Analysis.shot_zone s))
           (Analysis.zones a) /\
    List.length (Analysis.formMetrics a) = 6%nat.
Proof.
  intros tr detections g Hwf. unfold Analysis.analyze_shots.
  destruct (@detect_shots_full (ball tr) g Hwf)
    as (evs & g1 & -> & Hwf1 & Hne & Hid & Hall). cbn [bind].
  destruct (calculate_statistics_spec evs g1) as (z & fg & tp & _ & _ & ->).
  cbn [bind].
  destruct (zone_stats_totals evs) as (zs & -> & Hperm & Hatt & Hmk).
  cbn [bind].
  eexists _, _. split; [reflexivity|].
  cbn [Analysis.shots Analysis.statistics Analysis.zones Analysis.formMetrics
       Statistics.totalShots Statistics.makes Statistics.misses].
  assert (Hlen : len (map Analysis.shot_of evs) = len evs).
  { unfold len. now rewrite length_map. }
  split; [now apply uniform_well_formed|].
  split; [destruct evs; [congruence|discriminate]|].
  split; [now rewrite map_map, length_map|].
  split; [apply Forall_map; exact Hall|].
  split; [now rewrite Hlen|].
  split.
  { rewrite count_makes_filter. unfold len. f_equal. symmetry.
    now apply filter_shot_of. }
  split.
  { unfold len.
    rewrite (@filter_shot_of _ (fun s => (outcome s =? "miss")%string) evs)
      by reflexivity.
    symmetry. apply count_misses.
    eapply Forall_impl; [|exact Hall]. now intros s (Hout & _). }
  split.
  { intros ->. apply Permutation_nil in Hperm.
    apply map_eq_nil in Hperm.
    destruct (seen_order_spec evs) as [_ Hin].
    destruct evs as [|s evs]; [congruence|].
    rewrite Hperm in Hin. apply (proj2 (Hin (zone s))). now left. }
  split; [exact Hatt|]. split; [exact Hmk|]. split.
  - apply (Permutation_Forall (Permutation_sym Hperm)).
    apply Forall_map, Forall_forall. intros k Hk.
    apply (proj2 (seen_order_spec evs)) in Hk.
    apply in_map_iff in Hk. destruct Hk as (s & Hs & Hin).
    exists (Analysis.shot_of s). split; [now apply in_map|].
    cbn [zone_entry ZoneStat.name Analysis.shot_of Analysis.shot_zone].
    now rewrite Hs.
  - reflexivity.
Qed.

Lemma X11_analyze_shots_report_witness :
  well_formed g_half /\
  exists a g',
    Analysis.analyze_shots (mkTracks [] rising_track) [] g_half = Ok (a, g') /\
    Analysis.shots a <> [].
Proof.
  split; [exact g_half_well_formed|].
  destruct (@X11_analyze_shots_report (mkTracks [] rising_track) [] g_half
              g_half_well_formed) as (a & g' & Hrun & _ & Hne & _).
  now exists a, g'.
Defined.

(* ----------------------------------------------------------------- *)
(** ** Reading the detector's boxes *)

Lemma boxes_loop_spec thr boxes : forall acc,
  Yolo.boxes_loop boxes thr acc =
  (acc ++ map Yolo.detection_of (filter (kept thr) boxes))%list.
Proof.
  induction boxes as [|box boxes IH]; intros acc; cbn [Yolo.boxes_loop filter].
  - cbn [map]. now rewrite app_nil_r.
  - unfold kept at 1. cbn [existsb]. rewrite orb_false_r.
    destruct ((Yolo.cls box =? 0)%Z || (Yolo.cls box =? 32)%Z);
      cbn [negb andb]; [|apply IH].
    unfold Qltb, Qleb. destruct (Qle_bool thr (Yolo.conf box));
      cbn [negb]; [|apply IH].
    rewrite IH. cbn [map]. now rewrite <- app_assoc.
Qed.

Lemma results_loop_spec thr results : forall acc,
  Yolo.results_loop results thr acc =
  (acc ++ map Yolo.detection_of
              (filter (kept thr) (List.concat results)))%list.
Proof.
  induction results as [|boxes results IH]; intros acc;
    cbn [Yolo.results_loop List.concat].
  - cbn [filter map]. now rewrite app_nil_r.
  - rewrite IH, boxes_loop_spec, filter_app, map_app. now rewrite app_assoc.
Qed.

Lemma detection_of_class thr box :
  kept thr box = true ->
  (class (Yolo.detection_of box) = "person"%string \/
   class (Yolo.detection_of box) = "sports ball"%string) /\
  (thr <= obj_confidence (Yolo.detection_of box))%Q.
Proof.
  unfold kept, Yolo.detection_of. rewrite andb_true_iff, orb_true_iff.
  intros [Hcls Hconf]. destruct (Yolo.xyxy box) as [[[a b] c] d].
  cbn [class obj_confidence]. split.
  - destruct Hcls as [H|H]; apply Z.eqb_eq in H; rewrite H;
      [now left|now right].
  - now apply Qle_bool_iff.
Qed.

Lemma stream_all_tracked detections :
  Forall (fun e => is_ball e || is_person e = true) (stream detections) ->
  filter (fun e => is_ball e || is_person e) (stream detections) =
  stream detections.
Proof.
  intro H. induction H as [|e l He _ IH]; [reflexivity|].
  cbn [filter]. rewrite He. now rewrite IH.
Qed.

(** X12. [_parse_yolo_results] keeps, in their order, the boxes of class 0
    or 32 whose confidence is not below the threshold. Every detection it
    returns is a "person" or a "sports ball" (the default "unknown" is never
    used), has a confidence of at least the threshold and the midpoint of
    its box as centre. Hence [track_objects] drops none of the detections
    of frames read this way: each is in the ball track or in a player
    track. *)
Theorem X12_parse_yolo_results : forall fps thr,
  (forall results frame_idx,
     Yolo._parse_yolo_results results frame_idx fps thr =
       map Yolo.detection_of (filter (kept thr) (List.concat results)) /\
     Forall (fun o =>
       (class o = "person"%string \/ class o = "sports ball"%string) /\
       (thr <= obj_confidence o)%Q /\
       (center_x (bbox o) == (x1 (bbox o) + x2 (bbox o)) / 2)%Q /\
       (center_y (bbox o) == (y1 (bbox o) + y2 (bbox o)) / 2)%Q)
       (Yolo._parse_yolo_results results frame_idx fps thr)) /\
  (forall frames,
     exists tr,
       track_objects (parsed_frames fps thr frames) = Ok tr /\
       (List.length (ball tr) +
        List.length (List.concat (map snd (players tr))) =
        List.length (stream (parsed_frames fps thr frames)))%nat).
Proof.
  intros fps thr.
  assert (Hparse : forall results frame_idx,
    Yolo._parse_yolo_results results frame_idx fps thr =
    map Yolo.detection_of (filter (kept thr) (List.concat results))).
  { intros results frame_idx. unfold Yolo._parse_yolo_results.
    now rewrite results_loop_spec. }
  assert (Hclass : forall results frame_idx o,
    In o (Yolo._parse_yolo_results results frame_idx fps thr) ->
    (class o = "person"%string \/ class o = "sports ball"%string) /\
    (thr <= obj_confidence o)%Q).
  { intros results frame_idx o. rewrite Hparse.
    intro Ho. apply in_map_iff in Ho. destruct Ho as (box & <- & Hbox).
    apply filter_In in Hbox. now apply detection_of_class. }
  split.
  - intros results frame_idx. split; [apply Hparse|].
    apply Forall_forall. intros o Ho.
    destruct (Hclass _ _ _ Ho) as [Hc Hthr].
    split; [exact Hc|]. split; [exact Hthr|].
    rewrite Hparse in Ho. apply in_map_iff in Ho.
    destruct Ho as (box & <- & _). unfold Yolo.detection_of.
    destruct (Yolo.xyxy box) as [[[a b] c] d].
    cbn [bbox center_x center_y x1 x2 y1 y2]. split; reflexivity.
  - intros frames.
    destruct (@track_frames_tracked (parsed_frames fps thr frames) [] init
                tracked_init) as (st & Hrun & _ & Hball & Hperm & _).
    cbn [app] in *.
    exists (tracks st). unfold track_objects. rewrite Hrun. cbn [bind].
    split; [reflexivity|].
    rewrite Hball, (Permutation_length Hperm).
    unfold ball_samples, person_samples. rewrite !length_map.
    rewrite filter_either_length.
    + rewrite stream_all_tracked; [reflexivity|].
      apply Forall_forall. intros [[f t] o] He.
      unfold stream in He. apply in_flat_map in He.
      destruct He as (fd & Hfd & He).
      apply in_map_iff in He. destruct He as (o' & Heq & Ho).
      injection Heq as _ _ ->.
      unfold parsed_frames in Hfd. apply in_map_iff in Hfd.
      destruct Hfd as (fr & <- & _). cbn [objects] in Ho.
      destruct (Hclass _ _ _ Ho) as [[Hc|Hc] _];
        unfold is_ball, is_person; cbn [snd]; rewrite Hc; reflexivity.
    + intros [[f t] obj]. unfold is_ball, is_person. cbn [snd].
      intro Hb. apply String.eqb_eq in Hb. now rewrite Hb.
Qed.

(* ----------------------------------------------------------------- *)
(** ** The demo detections *)

Section MockDetectionsFacts.

Variables (np_sin np_cos : Q -> Q) (np_pi : Q).

Let mock := MockDetections._mock_detections np_sin np_cos np_pi.

Lemma mock_detections_shape i fps shape :
  exists person b,
    class person = "person"%string /\ class b = "sports ball"%string /\
    mock i fps shape =
      if (i mod 150 <? 30)%Z then [person; b] else [person].
Proof.
  unfold mock, MockDetections._mock_detections. destruct shape as [h w].
  eexists _, _. split; [|split].
  3: { destruct (i mod 150 <? 30)%Z; cbn [app]; reflexivity. }
  all: reflexivity.
Qed.

Lemma mock_stream_balls idxs :
  map s_frame
      (ball_samples
         (stream (map (fun i => mkFrame i (inject_Z i / 30)
                                        (mock i 30 (1080, 1920))) idxs))) =
  filter (fun i => (i mod 150 <? 30)%Z) idxs.
Proof.
  unfold ball_samples, stream.
  induction idxs as [|i idxs IH]; [reflexivity|].
  cbn [map flat_map]. cbn [frame frame_timestamp objects].
  rewrite filter_app, map_app, map_app, IH. cbn [filter].
  destruct (mock_detections_shape i 30 (1080, 1920))
    as (person & b & Hp & Hb & ->).
  destruct (i mod 150 <? 30)%Z; cbn [map filter];
    unfold is_ball; cbn [snd]; rewrite Hp, ?Hb; reflexivity.
Qed.

Lemma mock_stream_persons idxs :
  List.length
    (person_samples
       (stream (map (fun i => mkFrame i (inject_Z i / 30)
                                      (mock i 30 (1080, 1920))) idxs))) =
  List.length idxs.
Proof.
  unfold person_samples, stream. rewrite length_map.
  induction idxs as [|i idxs IH]; [reflexivity|].
  cbn [map flat_map]. cbn [frame frame_timestamp objects].
  rewrite filter_app, length_app, IH.
  destruct (mock_detections_shape i 30 (1080, 1920))
    as (person & b & Hp & Hb & ->).
  destruct (i mod 150 <? 30)%Z; cbn [map filter];
    unfold is_person; cbn [snd]; rewrite Hp, ?Hb; reflexivity.
Qed.

End MockDetectionsFacts.

(** X13. Whatever numpy's sine and cosine return, every frame of the demo
    detections shows one person, in a box of 80 by 200 pixels around its
    centre, followed by one sports ball, in a box of 30 by 30 pixels, exactly
    when the frame index modulo 150 is below 30. The 300 demo frames are
    numbered 0 .. 299 at 30 frames per second; tracking them yields a ball
    track of 60 samples, those of the frames 0 .. 29 and 150 .. 179, and
    player tracks that hold 300 samples together. *)
Theorem X13_mock_detections : forall np_sin np_cos np_pi,
  let mock := MockDetections._mock_detections np_sin np_cos np_pi in
  let demo := MockDetections._generate_mock_detections np_sin np_cos np_pi in
  (forall i fps shape,
     exists person b,
       mock i fps shape =
         (if (i mod 150 <? 30)%Z then [person; b] else [person]) /\
       class person = "person"%string /\
       (x2 (bbox person) - x1 (bbox person) == 80)%Q /\
       (y2 (bbox person) - y1 (bbox person) == 200)%Q /\
       (center_x (bbox person) ==
        (x1 (bbox person) + x2 (bbox person)) / 2)%Q /\
       (center_y (bbox person) ==
        (y1 (bbox person) + y2 (bbox person)) / 2)%Q /\
       class b = "sports ball"%string /\
       (x2 (bbox b) - x1 (bbox b) == 30)%Q /\
       (y2 (bbox b) - y1 (bbox b) == 30)%Q /\
       (center_x (bbox b) == (x1 (bbox b) + x2 (bbox b)) / 2)%Q /\
       (center_y (bbox b) == (y1 (bbox b) + y2 (bbox b)) / 2)%Q) /\
  map frame demo = range 300 /\
  Forall (fun fd => frame_timestamp fd = (inject_Z (frame fd) / 30)%Q) demo /\
  exists tr,
    track_objects demo = Ok tr /\
    map s_frame (ball tr) = (range 30 ++ map (Z.add 150) (range 30))%list /\
    List.length (ball tr) = 60%nat /\
    List.length (List.concat (map snd (players tr))) = 300%nat.
Proof.
  intros np_sin np_cos np_pi mock demo. split; [|split; [|split]].
  - intros i fps [h w].
    unfold mock, MockDetections._mock_detections.
    eexists _, _. split.
    { destruct (i mod 150 <? 30)%Z; cbn [app]; reflexivity. }
    cbn [class bbox x1 x2 y1 y2 center_x center_y].
    repeat split; try reflexivity; field.
  - unfold demo, MockDetections._generate_mock_detections.
    rewrite map_map. cbn [frame]. apply map_id.
  - unfold demo, MockDetections._generate_mock_detections.
    apply Forall_map, Forall_forall. intros i _. reflexivity.
  - destruct (@track_frames_tracked demo [] init tracked_init)
      as (st & Hrun & _ & Hball & Hperm & _).
    cbn [app] in *.
    exists (tracks st). unfold track_objects. rewrite Hrun. cbn [bind].
    split; [reflexivity|].
    assert (Hframes : map s_frame (ball (tracks st)) =
                      (range 30 ++ map (Z.add 150) (range 30))%list).
    { rewrite Hball. unfold demo, MockDetections._generate_mock_detections.
      rewrite mock_stream_balls. vm_compute. reflexivity. }
    split; [exact Hframes|]. split.
    + apply (f_equal (@List.length _)) in Hframes.
      rewrite length_map in Hframes. rewrite Hframes. reflexivity.
    + rewrite (Permutation_length Hperm).
      unfold demo, MockDetections._generate_mock_detections.
      rewrite mock_stream_persons. reflexivity.
Qed.

(* ----------------------------------------------------------------- *)
(** ** The insights computed without the API *)

Lemma min_loop_spec {A} (key : A -> Q) rest : forall best,
  first_least key (best :: rest) (Insights.min_loop key best rest).
Proof.
  induction rest as [|x rest IH]; intros best; cbn [Insights.min_loop].
  - exists [], []. repeat split; intros ? [].
  - destruct (Qltb (key x) (key best)) eqn:E.
    + apply Qltb_lt in E.
      destruct (IH x) as (pre & post & Heq & Hpre & Hpost).
      remember (Insights.min_loop key x rest) as r eqn:Hr. clear Hr.
      assert (Hx : (key r <= key x)%Q).
      { destruct pre as [|y pre]; cbn [app] in Heq.
        - injection Heq as Hxr _. rewrite Hxr. apply Qle_refl.
        - injection Heq as Hxy _. rewrite Hxy.
          apply Qlt_le_weak, Hpre. now left. }
      exists (best :: pre), post. split; [cbn [app]; now rewrite Heq|].
      split; [|exact Hpost].
      intros y [Hy|Hy]; [|now apply Hpre].
      rewrite <- Hy. eapply Qle_lt_trans; eassumption.
    + apply Qltb_ge in E.
      destruct (IH best) as (pre & post & Heq & Hpre & Hpost).
      remember (Insights.min_loop key best rest) as r eqn:Hr. clear Hr.
      destruct pre as [|b pre]; cbn [app] in Heq.
      * injection Heq as Hbr Hrest.
        exists [], (x :: rest). split; [cbn [app]; now rewrite Hbr|].
        split; [intros ? []|].
        intros y [Hy|Hy].
        -- rewrite <- Hy, <- Hbr. exact E.
        -- apply Hpost. now rewrite <- Hrest.
      * injection Heq as Hb Hrest.
        exists (best :: x :: pre), post.
        split; [cbn [app]; now rewrite Hrest|].
        split; [|exact Hpost].
        assert (Hlt : (key r < key best)%Q).
        { apply Hpre. left. now symmetry. }
        intros y [Hy|[Hy|Hy]].
        -- now rewrite <- Hy.
        -- rewrite <- Hy. eapply Qlt_le_trans; eassumption.
        -- apply Hpre. now right.
Qed.

Lemma first_least_lower {A} (f : A -> Q) items r x :
  first_least f items r -> In x items -> (f r <= f x)%Q.
Proof.
  intros (pre & post & -> & Hpre & Hpost) Hin.
  apply in_app_iff in Hin. destruct Hin as [Hin|[<-|Hin]].
  - apply Qlt_le_weak. now apply Hpre.
  - apply Qle_refl.
  - now apply Hpost.
Qed.

Lemma first_least_in {A} (f : A -> Q) items r :
  first_least f items r -> In r items.
Proof.
  intros (pre & post & -> & _). apply in_app_iff. right. now left.
Qed.

(** The two insights about the zones, for a breakdown that is not empty. *)
Lemma zone_insights_spec z rest :
  exists best worst second,
    Insights.zone_insights (z :: rest) =
      Ok [Insights.mkInsight "positive" "Hot Streak Detected"
            [Insights.Lit "Your "; Insights.Str (ZoneStat.name best);
             Insights.Lit " shooting is exceptional at ";
             Insights.Float (ZoneStat.percentage best);
             Insights.Lit "%. This zone shows consistent form and high confidence. Keep focusing on getting open looks here."];
          second] /\
    first_max ZoneStat.percentage (z :: rest) best /\
    first_least ZoneStat.percentage (z :: rest) worst /\
    (((ZoneStat.percentage worst < 50)%Q /\
      Insights.type second = "negative"%string /\
      Insights.title second =
        (ZoneStat.name worst ++ " Struggles")%string /\
      In (Insights.Float (ZoneStat.percentage worst)) (Insights.text second))
     \/
     ((50 <= ZoneStat.percentage worst)%Q /\
      Insights.type second = "neutral"%string /\
      Insights.title second = "Balanced Attack"%string)).
Proof.
  unfold Insights.zone_insights.
  destruct (@max_by_spec _ (fun z => Ok (ZoneStat.percentage z))
              ZoneStat.percentage (fun _ => eq_refl) (z :: rest) z)
    as (best & -> & [[Hnil _]|Hbest]); [discriminate|].
  cbn [bind].
  pose proof (min_loop_spec ZoneStat.percentage rest z) as Hworst.
  set (worst := Insights.min_loop ZoneStat.percentage z rest) in *.
  exists best, worst. eexists. split; [reflexivity|].
  split; [exact Hbest|]. split; [exact Hworst|].
  destruct (Qltb (ZoneStat.percentage worst) 50) eqn:E.
  - left. apply Qltb_lt in E. split; [exact E|].
    cbn [Insights.type Insights.title Insights.text].
    split; [reflexivity|]. split; [reflexivity|]. simpl. tauto.
  - right. apply Qltb_ge in E. split; [exact E|].
    split; reflexivity.
Qed.

(** X14. [_generate_mock_insights] never raises. For an empty zone breakdown
    it returns the two general insights, of types neutral and positive.
    Otherwise it returns four: a positive one that quotes the name and the
    percentage of the first zone of highest percentage; then, for the first
    zone of lowest percentage, a negative one titled "<zone> Struggles" when
    that percentage is below 50 and a neutral "Balanced Attack" when not;
    then the two general ones, the first of which quotes [totalShots] and
    [fieldGoalPercentage]. A negative insight is given exactly when some
    zone is below 50 percent. *)
Theorem X14_mock_insights : forall a : Analysis.t,
  exists ins,
    Insights._generate_mock_insights a = Ok ins /\
    (Analysis.zones a = [] ->
     map Insights.type ins = ["neutral"; "positive"]%string) /\
    (Analysis.zones a <> [] ->
     exists best worst i1 i2 i3 i4,
       ins = [i1; i2; i3; i4] /\
       first_max ZoneStat.percentage (Analysis.zones a) best /\
       first_least ZoneStat.percentage (Analysis.zones a) worst /\
       Insights.type i1 = "positive"%string /\
       In (Insights.Str (ZoneStat.name best)) (Insights.text i1) /\
       In (Insights.Float (ZoneStat.percentage best)) (Insights.text i1) /\
       (((ZoneStat.percentage worst < 50)%Q /\
         Insights.type i2 = "negative"%string /\
         Insights.title i2 = (ZoneStat.name worst ++ " Struggles")%string)
        \/
        ((50 <= ZoneStat.percentage worst)%Q /\
         Insights.type i2 = "neutral"%string /\
         Insights.title i2 = "Balanced Attack"%string)) /\
       Insights.type i3 = "neutral"%string /\
       In (Insights.Int (Statistics.totalShots (Analysis.statistics a)))
          (Insights.text i3) /\
       In (Insights.Float
             (Statistics.fieldGoalPercentage (Analysis.statistics a)))
          (Insights.text i3) /\
       Insights.type i4 = "positive"%string) /\
    (Exists (fun i => Insights.type i = "negative"%string) ins <->
     Exists (fun z => (ZoneStat.percentage z < 50)%Q) (Analysis.zones a)).
Proof.
  intros a. unfold Insights._generate_mock_insights.
  destruct (Analysis.zones a) as [|z rest] eqn:Hz.
  - cbn [Insights.zone_insights bind app].
    eexists. split; [reflexivity|]. split; [reflexivity|].
    split; [congruence|]. split.
    + intro H. exfalso.
      repeat match goal with
             | H : Exists _ (_ :: _) |- _ => inversion H; subst; clear H
             | H : Exists _ [] |- _ => inversion H
             | H : Insights.type _ = _ |- _ => discriminate H
             end.
    + intro H. inversion H.
  - destruct (zone_insights_spec z rest)
      as (best & worst & second & -> & Hbest & Hworst & Hsecond).
    cbn [bind app].
    eexists. split; [reflexivity|]. split; [discriminate|]. split.
    + intros _. exists best, worst. eexists _, second, _, _.
      split; [reflexivity|]. split; [exact Hbest|]. split; [exact Hworst|].
      cbn [Insights.type Insights.text].
      split; [reflexivity|]. split; [simpl; tauto|]. split; [simpl; tauto|].
      split.
      { destruct Hsecond as [(H1 & H2 & H3 & _)|(H1 & H2 & H3)];
          [left|right]; repeat split; assumption. }
      split; [reflexivity|]. split; [simpl; tauto|].
      split; [simpl; tauto|reflexivity].
    + split.
      * intro H. apply Exists_exists.
        exists worst. split; [now apply first_least_in in Hworst|].
        destruct Hsecond as [(H1 & _)|(_ & H2 & _)]; [exact H1|].
        exfalso.
        inversion H as [? ? H0|? ? H0]; subst; [discriminate H0|].
        inversion H0 as [? ? H3|? ? H3]; subst; [congruence|].
        inversion H3 as [? ? H4|? ? H4]; subst; [discriminate H4|].
        inversion H4 as [? ? H5|? ? H5]; subst; [discriminate H5|].
        inversion H5.
      * intro H. apply Exists_exists in H. destruct H as (x & Hx & Hlt).
        pose proof (@first_least_lower _ _ _ _ x Hworst Hx) as Hle.
        destruct Hsecond as [(_ & H2 & _)|(H1 & _)].
        -- apply Exists_cons_tl, Exists_cons_hd. exact H2.
        -- exfalso. apply (Qlt_irrefl 50).
           eapply Qle_lt_trans; [exact H1|].
           eapply Qle_lt_trans; eassumption.
Qed.

Lemma zone_stats_percent_sorted shots :
  exists zs,
    _calculate_zone_stats shots = Ok zs /\
    StronglySorted
      (fun a b => ZoneStat.percentage b <= ZoneStat.percentage a)%Q zs.
Proof.
  rewrite zone_stats_sorted. cbv zeta.
  eexists. split; [reflexivity|].
  set (h := fun p : Q * (string * Tally.t) => zone_entry shots (fst (snd p))).
  apply StronglySorted_map.
  apply (@StronglySorted_impl _ (fun p => fst p = rate (h p))
           (fun a b => (fst b <= fst a)%Q)); [| |apply sort_desc_sorted].
  - intros a b Ha Hb Hab. cbn [zone_entry ZoneStat.percentage].
    apply round_mono. apply Qmult_le_compat_r; [|discriminate].
    rewrite Ha, Hb in Hab. exact Hab.
  - apply (Permutation_Forall (Permutation_sym (sort_desc_perm _))).
    apply Forall_map, Forall_forall. intros z _. reflexivity.
Qed.

Lemma first_max_sorted_head {A} (f : A -> Q) z rest r :
  StronglySorted (fun a b => f b <= f a)%Q (z :: rest) ->
  first_max f (z :: rest) r -> r = z.
Proof.
  intros Hs (pre & post & Heq & Hpre & _).
  destruct pre as [|y pre]; cbn [app] in Heq.
  - now injection Heq.
  - injection Heq as Hy Hrest. exfalso.
    inversion Hs as [|? ? _ Hall]; subst.
    rewrite Forall_forall in Hall.
    assert (Hr : (f r <= f y)%Q).
    { apply Hall. apply in_app_iff. right. now left. }
    assert (Hlt : (f y < f r)%Q) by (apply Hpre; now left).
    exact (Qlt_not_le _ _ Hlt Hr).
Qed.

Lemma analyze_shots_zones tr detections g :
  well_formed g ->
  exists a g' evs,
    Analysis.analyze_shots tr detections g = Ok (a, g') /\
    evs <> [] /\ _calculate_zone_stats evs = Ok (Analysis.zones a).
Proof.
  intros Hwf. unfold Analysis.analyze_shots.
  destruct (@detect_shots_full (ball tr) g Hwf)
    as (evs & g1 & -> & _ & Hne & _). cbn [bind].
  destruct (calculate_statistics_spec evs g1) as (z & fg & tp & _ & _ & ->).
  cbn [bind].
  destruct (zone_stats_totals evs) as (zs & Hzs & _). rewrite Hzs.
  cbn [bind]. eexists _, _, evs. split; [reflexivity|].
  split; [exact Hne|exact Hzs].
Qed.

(** X15. With a random generator whose draws lie in [0, 1), the insights
    computed without the API for the report of [analyze_shots] are always
    four, and the first one quotes the name and the percentage of the first
    entry of the report's zone breakdown, which no other entry exceeds. *)
Theorem X15_insights_of_report : forall tracks detections g,
  well_formed g ->
  exists a g' z rest i1 i2 i3 i4,
    Analysis.analyze_shots tracks detections g = Ok (a, g') /\
    Analysis.zones a = z :: rest /\
    Forall (fun x => ZoneStat.percentage x <= ZoneStat.percentage z)%Q rest /\
    Insights._generate_mock_insights a = Ok [i1; i2; i3; i4] /\
    In (Insights.Str (ZoneStat.name z)) (Insights.text i1) /\
    In (Insights.Float (ZoneStat.percentage z)) (Insights.text i1).
Proof.
  intros tr detections g Hwf.
  destruct (@analyze_shots_zones tr detections g Hwf)
    as (a & g' & evs & Hrun & Hne & Hzs).
  destruct (zone_stats_percent_sorted evs) as (zs & Hzs' & Hsorted).
  rewrite Hzs in Hzs'. injection Hzs' as <-.
  destruct (zone_stats_totals evs) as (zs & Hzs' & Hperm & _).
  rewrite Hzs in Hzs'. injection Hzs' as <-.
  destruct (Analysis.zones a) as [|z rest] eqn:Hz.
  { exfalso. apply Permutation_nil, map_eq_nil in Hperm.
    destruct (seen_order_spec evs) as [_ Hin].
    destruct evs as [|s evs]; [congruence|].
    rewrite Hperm in Hin. apply (proj2 (Hin (zone s))). now left. }
  destruct (zone_insights_spec z rest)
    as (best & worst & second & Hins & Hbest & _).
  pose proof (first_max_sorted_head Hsorted Hbest) as ->.
  exists a, g', z, rest. eexists _, second, _, _.
  split; [exact Hrun|]. split; [exact Hz|]. split.
  { now inversion Hsorted. }
  unfold Insights._generate_mock_insights. rewrite Hz, Hins.
  cbn [bind app]. split; [reflexivity|].
  cbn [Insights.text]. split; simpl; tauto.
Qed.

Lemma X15_insights_of_report_witness :
  well_formed g_half /\
  exists a g' ins,
    Analysis.analyze_shots (mkTracks [] rising_track) [] g_half = Ok (a, g') /\
    Insights._generate_mock_insights a = Ok ins /\
    List.length ins = 4%nat.
Proof.
  split; [exact g_half_well_formed|].
  destruct (@X15_insights_of_report (mkTracks [] rising_track) [] g_half
              g_half_well_formed)
    as (a & g' & z & rest & i1 & i2 & i3 & i4 & Hrun & _ & _ & Hins & _).
  exists a, g', [i1; i2; i3; i4].
  split; [exact Hrun|]. split; [exact Hins|reflexivity].
Defined.

(* ----------------------------------------------------------------- *)
(** ** The report against the response schemas *)

Lemma mock_insights_types a :
  exists ins,
    Insights._generate_mock_insights a = Ok ins /\
    Forall (fun i => In (Insights.type i) type_literal) ins.
Proof.
  unfold Insights._generate_mock_insights.
  destruct (Analysis.zones a) as [|z rest].
  - cbn [Insights.zone_insights bind app]. eexists. split; [reflexivity|].
    repeat constructor; simpl; tauto.
  - destruct (zone_insights_spec z rest)
      as (best & worst & second & -> & _ & _ & Hsecond).
    cbn [bind app]. eexists. split; [reflexivity|].
    constructor; [simpl; tauto|]. constructor.
    + destruct Hsecond as [(_ & -> & _)|(_ & -> & _)]; simpl; tauto.
    + repeat constructor; simpl; tauto.
Qed.

(** X16. With a random generator whose draws lie in [0, 1), the report of
    [analyze_shots] and the insights computed from it without the API hold
    only values that the response schemas admit: every shot outcome is one
    of "make", "miss", "unknown", every form grade one of "high", "medium",
    "low", and every insight type one of "positive", "negative",
    "neutral". *)
Theorem X16_report_fits_schemas : forall tracks detections g,
  well_formed g ->
  exists a g' ins,
    Analysis.analyze_shots tracks detections g = Ok (a, g') /\
    Insights._generate_mock_insights a = Ok ins /\
    literals_valid a ins.
Proof.
  intros tr detections g Hwf. unfold Analysis.analyze_shots.
  destruct (@detect_shots_full (ball tr) g Hwf)
    as (evs & g1 & -> & _ & _ & _ & Hall). cbn [bind].
  destruct (calculate_statistics_spec evs g1) as (z & fg & tp & _ & _ & ->).
  cbn [bind].
  destruct (zone_stats_totals evs) as (zs & -> & _). cbn [bind].
  match goal with
  | |- exists a g' ins, Ok (?x, ?y) = Ok (a, g') /\ _ =>
      destruct (mock_insights_types x) as (ins & Hins & Htypes);
      exists x, y, ins
  end.
  split; [reflexivity|]. split; [exact Hins|].
  split; [|split; [|exact Htypes]].
  - cbn [Analysis.shots]. apply Forall_map.
    eapply Forall_impl; [|exact Hall].
    intros s ([Hout|Hout] & _); cbn [Analysis.shot_of Analysis.shot_outcome];
      rewrite Hout; simpl; tauto.
  - cbn [Analysis.formMetrics]. unfold Analysis._analyze_form.
    repeat constructor; simpl; tauto.
Qed.

Lemma X16_report_fits_schemas_witness :
  well_formed g_half /\
  exists a g' ins,
    Analysis.analyze_shots (mkTracks [] rising_track) [] g_half = Ok (a, g') /\
    Insights._generate_mock_insights a = Ok ins /\
    literals_valid a ins.
Proof.
  split; [exact g_half_well_formed|].
  exact (@X16_report_fits_schemas (mkTracks [] rising_track) [] g_half
           g_half_well_formed).
Defined.

(* ----------------------------------------------------------------- *)
(** ** Reading the video *)

Section DetectFacts.

Variable Frame : Type.
Variable model : Frame -> result (list (list Yolo.Box)).
Variable shape : Frame -> Q * Q.
Variables (np_sin np_cos : Q -> Q) (np_pi : Q).
Variables (has_model : bool) (fps : Q) (skip : Z) (thr : Q).





End DetectFacts.



(* ----------------------------------------------------------------- *)
(** ** The processing job *)

Section JobFacts.

Variable detect_objects :
  string -> Detect.Settings -> result (list FrameData).
Variable generate_insights : Analysis.t -> result (list Insights.Insight).
Variable str : exn -> string.

Variable job_id : string.
Variable J : list (string * Jobs.ProcessingStatus).
Variable R : list (string * Jobs.AnalysisResults).

Let at_job (j : Jobs.ProcessingStatus) (R' : list (string * Jobs.AnalysisResults))
    (g : rng) (obs : list Jobs.ProcessingStatus) : Jobs.state :=
  Jobs.mkState (dict_setitem String.eqb J job_id j) R' g obs.

Lemma bind_get_job {Y} (k : Jobs.ProcessingStatus -> Jobs.M Y) j R' g obs :
  Jobs.bindM (Jobs.get_job job_id) k (at_job j R' g obs) =
  k j (at_job j R' g obs).
Proof.
  unfold Jobs.bindM, Jobs.get_job, at_job. cbn [Jobs.processing_jobs].
  now rewrite (dict_getitem_setitem String.eqb String.eqb_eq).
Qed.

Lemma run_assign f j j' R' g obs :
  f j = Ok j' ->
  Jobs.assign job_id f (at_job j R' g obs) = (at_job j' R' g obs, Ok tt).
Proof.
  intro Hf. unfold Jobs.assign, at_job.
  cbn [Jobs.processing_jobs Jobs.analysis_results Jobs.np_random
       Jobs.observed].
  rewrite (dict_getitem_setitem String.eqb String.eqb_eq). cbn [bind].
  rewrite Hf. now rewrite (dict_setitem_twice String.eqb String.eqb_eq).
Qed.

Lemma bind_assign {Y} (k : unit -> Jobs.M Y) f j j' R' g obs :
  f j = Ok j' ->
  Jobs.bindM (Jobs.assign job_id f) k (at_job j R' g obs) =
  k tt (at_job j' R' g obs).
Proof.
  intro Hf. unfold Jobs.bindM.
  now rewrite (@run_assign f j j' R' g obs Hf).
Qed.

Lemma bind_suspend {Y} (k : unit -> Jobs.M Y) j R' g obs :
  Jobs.bindM (Jobs.suspend job_id) k (at_job j R' g obs) =
  k tt (at_job j R' g (obs ++ [j])).
Proof.
  unfold Jobs.bindM, Jobs.suspend, at_job.
  cbn [Jobs.processing_jobs Jobs.analysis_results Jobs.np_random
       Jobs.observed].
  now rewrite (dict_getitem_setitem String.eqb String.eqb_eq).
Qed.

Lemma bind_lift {X Y} (r : result X) (k : X -> Jobs.M Y) s :
  Jobs.bindM (Jobs.lift r) k s =
  match r with
  | Ok x => k x s
  | Raise e => (s, Raise e)
  end.
Proof. unfold Jobs.bindM, Jobs.lift. now destruct r. Qed.

Lemma bind_analyze {Y} (k : Analysis.t -> Jobs.M Y) tr d j R' g obs :
  Jobs.bindM (Jobs.analyze tr d) k (at_job j R' g obs) =
  match Analysis.analyze_shots tr d g with
  | Ok (a, g') => k a (at_job j R' g' obs)
  | Raise e => (at_job j R' g obs, Raise e)
  end.
Proof.
  unfold Jobs.bindM, Jobs.analyze, at_job. cbn [Jobs.np_random].
  destruct (Analysis.analyze_shots tr d g) as [[a g']|e]; reflexivity.
Qed.

Lemma bind_store {Y} (k : unit -> Jobs.M Y) vid res j R' g obs :
  Jobs.bindM (Jobs.store_results vid res) k (at_job j R' g obs) =
  k tt (at_job j (dict_setitem String.eqb R' vid res) g obs).
Proof. reflexivity. Qed.

(** The handler of [except Exception as e]. *)
Lemma run_handler e j R' g obs :
  match Jobs.bindM (Jobs.assign job_id (Jobs.set_status "failed"))
                   (fun _ => Jobs.assign job_id (Jobs.set_error (str e)))
                   (at_job j R' g obs) with
  | (s'', Ok _) => (s'', Raise e)
  | (s'', Raise e') => (s'', Raise e')
  end =
  (at_job (Jobs.mkStatus (Jobs.jobId j) (Jobs.videoId j) "failed"
                         (Jobs.progress j) (Jobs.currentStep j)
                         (Jobs.steps j) (Jobs.estimatedTimeRemaining j)
                         (Some (str e))) R' g obs,
   @Raise unit e).
Proof.
  erewrite bind_assign by reflexivity.
  erewrite run_assign by reflexivity. reflexivity.
Qed.

End JobFacts.

Section DictOther.

Context {V : Type}.

Lemma dict_setitem_same_value (d : list (string * V)) k v :
  dict_getitem String.eqb d k = Ok v -> dict_setitem String.eqb d k v = d.
Proof.
  induction d as [|[k' w] d IH]; simpl; [discriminate|].
  destruct (String.eqb k' k) eqn:E.
  - intros [= ->]. reflexivity.
  - intro H. now rewrite IH.
Qed.

Lemma dict_getitem_setitem_other (d : list (string * V)) k k' v :
  k' <> k ->
  dict_getitem String.eqb (dict_setitem String.eqb d k v) k' =
  dict_getitem String.eqb d k'.
Proof.
  intro Hne. induction d as [|[k0 w] d IH]; simpl.
  - destruct (String.eqb k k') eqn:E; [|reflexivity].
    apply String.eqb_eq in E. congruence.
  - destruct (String.eqb k0 k) eqn:E; simpl.
    + apply String.eqb_eq in E. subst k0.
      destruct (String.eqb k k') eqn:E'; [|reflexivity].
      apply String.eqb_eq in E'. congruence.
    + destruct (String.eqb k0 k'); [reflexivity|exact IH].
Qed.

Lemma keys_setitem_present (d : list (string * V)) k v w :
  dict_getitem String.eqb d k = Ok w ->
  map fst (dict_setitem String.eqb d k v) = map fst d.
Proof.
  induction d as [|[k0 u] d IH]; simpl; [discriminate|].
  destruct (String.eqb k0 k) eqn:E; simpl; [reflexivity|].
  intro H. now rewrite IH.
Qed.

End DictOther.

Ltac job_step :=
  first [ rewrite bind_get_job
        | erewrite bind_assign by (lazy; reflexivity)
        | rewrite bind_suspend
        | rewrite bind_store ].

Ltac job_failed n :=
  rewrite run_handler; intros [= <- <-];
  cbn [Jobs.processing_jobs Jobs.analysis_results Jobs.observed];
  eexists; exists n; eexists;
  (split; [apply (dict_getitem_setitem String.eqb String.eqb_eq)|]).

(** X18. [process_video] on a job that [start_processing] has just stored.
    A status request served while the task is suspended sees the job
    "processing" with exactly one step "active", the steps before it
    "complete" and those after it "pending", at the progress 10, 25, 45, 60
    and 80 for the steps 1 to 5. When all services return, the job ends
    "completed" at progress 100 with all six steps "complete" and no time
    remaining, and the results are stored under the video id. When a
    service raises, the exception is raised again, the job ends "failed"
    with the text of the exception as error, no result is stored, and the
    step under way stays "active" at the progress it had; only a report
    that the response schema rejects fails the job at progress 100 with all
    steps "complete". The other jobs are left as they were. *)
Theorem X18_process_video :
  forall (detect_objects :
            string -> Detect.Settings -> result (list FrameData))
         (generate_insights : Analysis.t -> result (list Insights.Insight))
         (str : exn -> string)
         (job_id video_id video_path : string) (settings : Detect.Settings)
         (s s' : Jobs.state) (r : result unit),
  dict_getitem String.eqb (Jobs.processing_jobs s) job_id =
    Ok (Jobs.new_job job_id video_id) ->
  Jobs.process_video detect_objects generate_insights str
                     job_id video_id video_path settings s = (s', r) ->
  exists j' n obs,
    dict_getitem String.eqb (Jobs.processing_jobs s') job_id = Ok j' /\
    (forall k, k <> job_id ->
       dict_getitem String.eqb (Jobs.processing_jobs s') k =
       dict_getitem String.eqb (Jobs.processing_jobs s) k) /\
    Jobs.observed s' = (Jobs.observed s ++ obs)%list /\
    Forall2 in_stage (seq 1 n) obs /\
    (1 <= n <= 5)%nat /\
    match r with
    | Ok _ =>
        n = 5%nat /\
        Jobs.status j' = "completed"%string /\
        Jobs.progress j' = 100%Z /\
        statuses j' = repeat "complete"%string 6 /\
        Jobs.estimatedTimeRemaining j' = Some 0%Z /\
        Jobs.error j' = None /\
        exists a ins,
          generate_insights a = Ok ins /\
          Jobs.get_results video_id s' =
            inl (Jobs.mkResults video_id a ins)
    | Raise e =>
        Jobs.status j' = "failed"%string /\
        Jobs.error j' = Some (str e) /\
        Jobs.analysis_results s' = Jobs.analysis_results s /\
        ((statuses j' = stage n /\ Jobs.progress j' = progress_at n /\
          (2 <= n)%nat) \/
         (n = 5%nat /\ statuses j' = repeat "complete"%string 6 /\
          Jobs.progress j' = 100%Z /\ e = ValueError))
    end.
Proof.
  intros detect_objects generate_insights str job_id video_id video_path
         settings [J R g obs0] s' r Hjob.
  cbn [Jobs.processing_jobs Jobs.analysis_results Jobs.observed] in *.
  assert (Hother : forall j k, k <> job_id ->
            dict_getitem String.eqb (dict_setitem String.eqb J job_id j) k =
            dict_getitem String.eqb J k).
  { intros j k Hk. now apply dict_getitem_setitem_other. }
  rewrite <- (dict_setitem_same_value _ _ Hjob) at 1.
  unfold Jobs.process_video, Jobs.process_video_body.
  do 12 job_step. rewrite bind_lift.
  destruct (detect_objects video_path settings) as [detections|e].
  2: { job_failed 2%nat.
       split; [intros; now apply Hother|].
       split; [rewrite <- !app_assoc; reflexivity|].
       split; [repeat constructor|]. split; [lia|].
       split; [reflexivity|]. split; [reflexivity|]. split; [reflexivity|].
       left. split; [reflexivity|]. split; [reflexivity|lia]. }
  do 6 job_step. rewrite bind_lift.
  destruct (track_objects detections) as [tr|e].
  2: { job_failed 3%nat.
       split; [intros; now apply Hother|].
       split; [rewrite <- !app_assoc; reflexivity|].
       split; [repeat constructor|]. split; [lia|].
       split; [reflexivity|]. split; [reflexivity|]. split; [reflexivity|].
       left. split; [reflexivity|]. split; [reflexivity|lia]. }
  do 6 job_step. rewrite bind_analyze.
  destruct (Analysis.analyze_shots tr detections g) as [[a g']|e].
  2: { job_failed 4%nat.
       split; [intros; now apply Hother|].
       split; [rewrite <- !app_assoc; reflexivity|].
       split; [repeat constructor|]. split; [lia|].
       split; [reflexivity|]. split; [reflexivity|]. split; [reflexivity|].
       left. split; [reflexivity|]. split; [reflexivity|lia]. }
  do 6 job_step. rewrite bind_lift.
  destruct (generate_insights a) as [ins|e] eqn:Hins.
  2: { job_failed 5%nat.
       split; [intros; now apply Hother|].
       split; [rewrite <- !app_assoc; reflexivity|].
       split; [repeat constructor|]. split; [lia|].
       split; [reflexivity|]. split; [reflexivity|]. split; [reflexivity|].
       left. split; [reflexivity|]. split; [reflexivity|lia]. }
  do 2 job_step. rewrite bind_lift. unfold Jobs.validate.
  match goal with
  | |- context [if ?c then Ok _ else Raise _] => destruct c
  end.
  2: { job_failed 5%nat.
       split; [intros; now apply Hother|].
       split; [rewrite <- !app_assoc; reflexivity|].
       split; [repeat constructor|]. split; [lia|].
       split; [reflexivity|]. split; [reflexivity|]. split; [reflexivity|].
       right. repeat split; reflexivity. }
  do 2 job_step. erewrite run_assign by (lazy; reflexivity).
  intros [= <- <-].
  cbn [Jobs.processing_jobs Jobs.analysis_results Jobs.observed].
  eexists. exists 5%nat. eexists.
  split; [apply (dict_getitem_setitem String.eqb String.eqb_eq)|].
  split; [intros; now apply Hother|].
  split; [rewrite <- !app_assoc; reflexivity|].
  split; [repeat constructor|]. split; [lia|].
  split; [reflexivity|]. split; [reflexivity|]. split; [reflexivity|].
  split; [reflexivity|]. split; [reflexivity|]. split; [reflexivity|].
  exists a, ins. split; [exact Hins|].
  unfold Jobs.get_results. cbn [Jobs.analysis_results].
  rewrite (dict_in_setitem_same String.eqb String.eqb_eq).
  cbn [negb]. now rewrite (dict_getitem_setitem String.eqb String.eqb_eq).
Qed.

Lemma X18_process_video_witness :
  dict_getitem String.eqb (Jobs.processing_jobs one_job) "job"%string =
    Ok (Jobs.new_job "job" "vid") /\
  exists j',
    dict_getitem String.eqb
      (Jobs.processing_jobs
         (fst (Jobs.process_video (fun _ _ => Raise ValueError)
                 (fun _ => Ok []) (fun _ => "error"%string)
                 "job"%string "vid"%string "v.mp4"%string
                 (Detect.mkSettings None None) one_job)))
      "job"%string = Ok j' /\
    Jobs.status j' = "failed"%string.
Proof.
  split; [reflexivity|].
  destruct (@X18_process_video (fun _ _ => Raise ValueError)
              (fun _ => Ok []) (fun _ => "error"%string)
              "job"%string "vid"%string "v.mp4"%string
              (Detect.mkSettings None None) one_job
              _ _ eq_refl (surjective_pairing _))
    as (j' & n & obs & Hj & _ & _ & _ & _ & Hr).
  exists j'. split; [exact Hj|].
  cbn in Hr. now destruct Hr as (Hfailed & _).
Defined.
(* ----------------------------------------------------------------- *)
(** ** The names of the breakdown *)

Lemma display_zones :
  map display (map fst zones) =
  ["Paint"; "Left Corner"; "Right Corner"; "Left Wing"; "Right Wing";
   "Top Key"; "Mid Range"]%string.
Proof. reflexivity. Qed.

Lemma display_injective a b :
  In a (map fst zones) -> In b (map fst zones) ->
  display a = display b -> a = b.
Proof.
  intros Ha Hb. simpl in Ha, Hb.
  repeat (destruct Ha as [<-|Ha]; [|]); try contradiction;
    repeat (destruct Hb as [<-|Hb]; [|]); try contradiction;
    intro H; try reflexivity; vm_compute in H; discriminate H.
Qed.

Lemma NoDup_map_on {A B} (f : A -> B) (l : list A) :
  (forall a b, In a l -> In b l -> f a = f b -> a = b) ->
  NoDup l -> NoDup (map f l).
Proof.
  intros Hinj Hnd. induction Hnd as [|x l Hx Hnd IH]; simpl; constructor.
  - intro Hin. apply in_map_iff in Hin. destruct Hin as (y & Hy & Hin).
    apply Hx. rewrite (Hinj x y); [exact Hin|now left|now right|now symmetry].
  - apply IH. intros a b Ha Hb. apply Hinj; now right.
Qed.

Lemma analyze_shots_breakdown tr detections g :
  well_formed g ->
  exists a g' evs fg,
    Analysis.analyze_shots tr detections g = Ok (a, g') /\
    evs <> [] /\
    Forall (fun s => In (zone s) (map fst zones)) evs /\
    _calculate_zone_stats evs = Ok (Analysis.zones a) /\
    percentage_of (count_makes evs) (len evs) = Ok fg /\
    Statistics.fieldGoalPercentage (Analysis.statistics a) = fg.
Proof.
  intros Hwf. unfold Analysis.analyze_shots.
  destruct (@detect_shots_full (ball tr) g Hwf)
    as (evs & g1 & -> & _ & Hne & _ & Hall). cbn [bind].
  destruct (calculate_statistics_spec evs g1) as (z & fg & tp & _ & Hfg & ->).
  cbn [bind].
  destruct (zone_stats_totals evs) as (zs & Hzs & _). rewrite Hzs.
  cbn [bind]. eexists _, _, evs, fg. split; [reflexivity|].
  split; [exact Hne|]. split.
  { eapply Forall_impl; [|exact Hall]. now intros s (_ & _ & Hz). }
  split; [exact Hzs|]. split; [exact Hfg|reflexivity].
Qed.

(** X19. With a random generator whose draws lie in [0, 1), the zone
    breakdown in the report of [analyze_shots] has between one and seven
    entries, named by pairwise distinct names out of "Paint",
    "Left Corner", "Right Corner", "Left Wing", "Right Wing", "Top Key"
    and "Mid Range". *)
Theorem X19_breakdown_names : forall tracks detections g,
  well_formed g ->
  exists a g',
    Analysis.analyze_shots tracks detections g = Ok (a, g') /\
    NoDup (map ZoneStat.name (Analysis.zones a)) /\
    (1 <= List.length (Analysis.zones a) <= 7)%nat /\
    Forall (fun z =>
      In (ZoneStat.name z)
         ["Paint"; "Left Corner"; "Right Corner"; "Left Wing"; "Right Wing";
          "Top Key"; "Mid Range"]%string) (Analysis.zones a).
Proof.
  intros tr detections g Hwf.
  destruct (@analyze_shots_breakdown tr detections g Hwf)
    as (a & g' & evs & fg & Hrun & Hne & Hzones & Hzs & _).
  exists a, g'. split; [exact Hrun|].
  destruct (zone_stats_totals evs) as (zs & Hzs' & Hperm & _).
  rewrite Hzs in Hzs'. injection Hzs' as <-.
  destruct (seen_order_spec evs) as [Hnd Hin].
  set (seen := seen_order (map zone evs)) in *.
  assert (Hseen : forall z, In z seen -> In z (map fst zones)).
  { intros z Hz. apply Hin in Hz. apply in_map_iff in Hz.
    destruct Hz as (s & <- & Hs). rewrite Forall_forall in Hzones.
    now apply Hzones. }
  assert (Hnames : Permutation (map ZoneStat.name (Analysis.zones a))
                               (map display seen)).
  { rewrite (Permutation_map ZoneStat.name Hperm), map_map. reflexivity. }
  assert (Hdistinct : NoDup (map display seen)).
  { apply NoDup_map_on; [|exact Hnd].
    intros x y Hx Hy. apply display_injective; now apply Hseen. }
  split; [|split].
  - apply (Permutation_NoDup (Permutation_sym Hnames) Hdistinct).
  - rewrite (Permutation_length Hperm), length_map. split.
    + destruct evs as [|s evs]; [congruence|].
      assert (Hs : In (zone s) seen) by (apply Hin; now left).
      destruct seen; [destruct Hs|cbn [List.length]; lia].
    + change 7%nat with (List.length (map fst zones)).
      apply NoDup_incl_length; [exact Hnd|exact Hseen].
  - apply (Permutation_Forall (Permutation_sym Hperm)).
    apply Forall_map, Forall_forall. intros z Hz.
    cbn [zone_entry ZoneStat.name]. rewrite <- display_zones.
    apply in_map. now apply Hseen.
Qed.

Lemma X19_breakdown_names_witness :
  well_formed g_half /\
  exists a g',
    Analysis.analyze_shots (mkTracks [] rising_track) [] g_half = Ok (a, g') /\
    (1 <= List.length (Analysis.zones a) <= 7)%nat.
Proof.
  split; [exact g_half_well_formed|].
  destruct (@X19_breakdown_names (mkTracks [] rising_track) [] g_half
              g_half_well_formed) as (a & g' & Hrun & _ & Hlen & _).
  now exists a, g'.
Defined.

(* ----------------------------------------------------------------- *)
(** ** The overall percentage among the zone percentages *)

Lemma Zsum_map_lt {X} (f h : X -> Z) l :
  l <> [] -> Forall (fun k => f k < h k)%Z l ->
  (Zsum (map f l) < Zsum (map h l))%Z.
Proof.
  unfold Zsum. intros Hne Hall.
  induction Hall as [|x l Hx Hall IH]; [congruence|].
  cbn [map fold_right].
  destruct l as [|y l]; [cbn; lia|].
  assert (y :: l <> []) by discriminate. specialize (IH H). lia.
Qed.

Lemma Zsum_map_scale {X} (f : X -> Z) c l :
  Zsum (map (fun k => f k * c)%Z l) = (Zsum (map f l) * c)%Z.
Proof. unfold Zsum. induction l; cbn [map fold_right]; lia. Qed.

Lemma Zsum_map_scale_l {X} (f : X -> Z) c l :
  Zsum (map (fun k => c * f k)%Z l) = (c * Zsum (map f l))%Z.
Proof. unfold Zsum. induction l; cbn [map fold_right]; lia. Qed.

(** Among ratios of positive denominators, one is at least, and one is at
    most, the ratio of the sums. *)
Lemma mediant_upper {X} (m a : X -> Z) l :
  l <> [] ->
  Exists (fun k => Zsum (map m l) * a k <= m k * Zsum (map a l))%Z l.
Proof.
  intro Hne.
  destruct (Exists_dec
              (fun k => Zsum (map m l) * a k <= m k * Zsum (map a l))%Z l)
    as [H|H]; [intro k; apply Z_le_dec|exact H|].
  exfalso. apply Forall_Exists_neg in H.
  assert (Hlt : (Zsum (map (fun k => m k * Zsum (map a l)) l) <
                 Zsum (map (fun k => Zsum (map m l) * a k) l))%Z).
  { apply Zsum_map_lt; [exact Hne|].
    eapply Forall_impl; [|exact H]. intros k Hk. cbv beta in Hk. lia. }
  rewrite Zsum_map_scale, Zsum_map_scale_l in Hlt. lia.
Qed.

Lemma mediant_lower {X} (m a : X -> Z) l :
  l <> [] ->
  Exists (fun k => m k * Zsum (map a l) <= Zsum (map m l) * a k)%Z l.
Proof.
  intro Hne.
  destruct (Exists_dec
              (fun k => m k * Zsum (map a l) <= Zsum (map m l) * a k)%Z l)
    as [H|H]; [intro k; apply Z_le_dec|exact H|].
  exfalso. apply Forall_Exists_neg in H.
  assert (Hlt : (Zsum (map (fun k => Zsum (map m l) * a k) l) <
                 Zsum (map (fun k => m k * Zsum (map a l)) l))%Z).
  { apply Zsum_map_lt; [exact Hne|].
    eapply Forall_impl; [|exact H]. intros k Hk. cbv beta in Hk. lia. }
  rewrite Zsum_map_scale, Zsum_map_scale_l in Hlt. lia.
Qed.

Lemma ratio_le m a m' a' :
  (0 < a)%Z -> (0 < a')%Z -> (m * a' <= m' * a)%Z ->
  (inject_Z m / inject_Z a <= inject_Z m' / inject_Z a')%Q.
Proof.
  intros Ha Ha' H.
  assert (Hqa : (0 < inject_Z a)%Q)
    by (change 0%Q with (inject_Z 0); now rewrite <- Zlt_Qlt).
  assert (Hqa' : (0 < inject_Z a')%Q)
    by (change 0%Q with (inject_Z 0); now rewrite <- Zlt_Qlt).
  apply Qle_shift_div_r; [exact Hqa|].
  assert (E : (inject_Z m' / inject_Z a' * inject_Z a ==
               inject_Z m' * inject_Z a / inject_Z a')%Q).
  { field. intro H0. rewrite H0 in Hqa'. now apply Qlt_irrefl in Hqa'. }
  rewrite E. apply Qle_shift_div_l; [exact Hqa'|].
  rewrite <- !inject_Z_mult, <- Zle_Qle. exact H.
Qed.

Lemma sorted_desc_last {A} (f : A -> Q) l d x :
  StronglySorted (fun a b => f b <= f a)%Q l ->
  In x l -> (f (List.last l d) <= f x)%Q.
Proof.
  induction 1 as [|y l Hs IH Hy]; [intros []|].
  intros [<-|Hin].
  - destruct l as [|z l]; [apply Qle_refl|].
    rewrite Forall_forall in Hy. apply Hy.
    change (List.last (y :: z :: l) d) with (List.last (z :: l) d).
    destruct (exists_last (l := z :: l)) as (l' & w & ->); [discriminate|].
    rewrite last_last. apply in_app_iff. right. now left.
  - destruct l as [|z l]; [destruct Hin|].
    change (List.last (y :: z :: l) d) with (List.last (z :: l) d).
    now apply IH.
Qed.

(** X20. For a non-empty list of shots, the overall [fieldGoalPercentage]
    lies between the lowest and the highest zone percentage, which are the
    last and the first entry of the zone breakdown. *)
Theorem X20_overall_between_zones : forall shots g,
  shots <> [] ->
  exists st g' first rest,
    _calculate_statistics shots g = Ok (st, g') /\
    _calculate_zone_stats shots = Ok (first :: rest) /\
    (ZoneStat.percentage (List.last (first :: rest) first) <=
     Statistics.fieldGoalPercentage st)%Q /\
    (Statistics.fieldGoalPercentage st <= ZoneStat.percentage first)%Q.
Proof.
  intros shots g Hne.
  destruct (calculate_statistics_spec shots g)
    as (z & fg & tp & _ & Hfg & Hrun).
  destruct (zone_stats_percent_sorted shots) as (zs & Hzs & Hsorted).
  destruct (zone_stats_totals shots) as (zs' & Hzs' & Hperm & _).
  rewrite Hzs in Hzs'. injection Hzs' as <-.
  destruct (seen_order_spec shots) as [Hnd Hin].
  set (seen := seen_order (map zone shots)) in *.
  assert (Hseen : seen <> []).
  { destruct shots as [|s shots]; [congruence|].
    assert (Hs : In (zone s) seen) by (apply Hin; now left).
    intro E. rewrite E in Hs. destruct Hs. }
  assert (Hatt : Zsum (map (fun k => attempts_in k shots) seen) = len shots).
  { apply Zsum_attempts; [exact Hnd|].
    intros s Hs. apply Hin. now apply in_map. }
  assert (Hmk : Zsum (map (fun k => makes_in k shots) seen) =
                count_makes shots).
  { apply Zsum_makes; [exact Hnd|].
    intros s Hs. apply Hin. now apply in_map. }
  assert (Hlen : (0 < len shots)%Z).
  { destruct shots; [congruence|]. unfold len. cbn [List.length]. lia. }
  rewrite percentage_of_total in Hfg.
  rewrite (proj2 (Z.gtb_lt _ _) Hlen) in Hfg. injection Hfg as <-.
  assert (Hpos : forall k, In k seen -> (0 < attempts_in k shots)%Z).
  { intros k Hk. apply Hin in Hk.
    pose proof (attempts_in_pos k shots Hk). lia. }
  destruct zs as [|first rest].
  { apply Permutation_nil, map_eq_nil in Hperm. congruence. }
  eexists _, _, first, rest. split; [exact Hrun|]. split; [exact Hzs|].
  cbn [Statistics.fieldGoalPercentage]. split.
  - pose proof (mediant_lower (fun k => makes_in k shots)
                  (fun k => attempts_in k shots) Hseen) as Hex.
    apply Exists_exists in Hex. destruct Hex as (k & Hk & Hle).
    rewrite Hatt, Hmk in Hle.
    assert (Hz : In (zone_entry shots k) (first :: rest)).
    { apply (Permutation_in _ (Permutation_sym Hperm)). now apply in_map. }
    eapply Qle_trans;
      [apply (@sorted_desc_last _ ZoneStat.percentage _ first _ Hsorted Hz)|].
    cbn [zone_entry ZoneStat.percentage]. apply round_mono.
    apply Qmult_le_compat_r; [|discriminate].
    apply ratio_le; [now apply Hpos|exact Hlen|exact Hle].
  - pose proof (mediant_upper (fun k => makes_in k shots)
                  (fun k => attempts_in k shots) Hseen) as Hex.
    apply Exists_exists in Hex. destruct Hex as (k & Hk & Hle).
    rewrite Hatt, Hmk in Hle.
    assert (Hz : In (zone_entry shots k) (first :: rest)).
    { apply (Permutation_in _ (Permutation_sym Hperm)). now apply in_map. }
    eapply Qle_trans; [apply round_mono|].
    + apply Qmult_le_compat_r; [|discriminate].
      apply ratio_le; [exact Hlen|apply (Hpos k Hk)|exact Hle].
    + change (round (inject_Z (makes_in k shots) /
                     inject_Z (attempts_in k shots) * 100) 1)
        with (ZoneStat.percentage (zone_entry shots k)).
      destruct Hz as [<-|Hz]; [apply Qle_refl|].
      inversion Hsorted as [|? ? _ Hall]; subst.
      rewrite Forall_forall in Hall. now apply Hall.
Qed.

Lemma X20_overall_between_zones_witness :
  [mkShotEvent 1 0 10 50 20 "make" "paint" 0.9 0 []] <> [] /\
  exists st g' first rest,
    _calculate_statistics
      [mkShotEvent 1 0 10 50 20 "make" "paint" 0.9 0 []] g_half =
      Ok (st, g') /\
    _calculate_zone_stats [mkShotEvent 1 0 10 50 20 "make" "paint" 0.9 0 []] =
      Ok (first :: rest) /\
    (Statistics.fieldGoalPercentage st <= ZoneStat.percentage first)%Q.
Proof.
  split; [discriminate|].
  destruct (@X20_overall_between_zones
              [mkShotEvent 1 0 10 50 20 "make" "paint" 0.9 0 []] g_half
              ltac:(discriminate))
    as (st & g' & first & rest & Hrun & Hzs & _ & Hhi).
  now exists st, g', first, rest.
Defined.
